(** * hybrid-dataset-factory: the dataset pipeline

    A shallow embedding of [dataset.py] and [dataset_factory.py]:
    the annotation parser, the background loader, the queues, the
    per-sample coordinate rescaling (with the Python object store it
    mutates), the blur mapping, the two run loops and the persistence
    workers.

    Conventions.
    - Python [int]s are [Z]; [a / b] on two of them is the binary64
      nearest to the quotient, and [int] truncates it toward zero.
    - NumPy floats (the blur strength) are idealised as exact
      rationals ([Q]).  Each binary64 operation rounds by less than
      one part in 2^52: where a statement below gives such a number
      it allows 10^-15 for the rounding, and no comparison is decided
      at a ratio that rounding could move across a threshold.
    - Strings are ASCII text.
    - A raised exception is a [Raise e] result; a call that never
      returns (blocked [Queue.get], [Queue.join], or a loop still
      running when the supplied random draws are used up) is [None]
      in an [option].
    - The renderer, PIL, OpenCV and NumPy are outside the repository
      and enter as parameters.
    - [dataset_factory.py] calls [Dataset(...)], [save(...)] and
      [SyntheticAnnotations(...)] with other argument counts than
      [dataset.py] declares.  Each function is embedded from its own
      text, and a call is checked against the signature of the callee
      as written ([check_arity]). *)

From Stdlib Require Import ZArith QArith Qminmax List String Ascii Lia Lqa.
From stdpp Require Import gmap strings list.

Local Open Scope string_scope.
Local Open Scope Z_scope.

(* ===================================================================== *)
(** * Definitions *)
(* ===================================================================== *)

(** ** Python exceptions and results *)

Inductive exn : Type :=
| TypeError
| ValueError
| KeyError
| IndexError
| AttributeError
| ZeroDivisionError
| OverflowError
| OSError
| RuntimeError
| Exception (msg : string).

Inductive result (A : Type) : Type :=
| Ok (a : A)
| Raise (e : exn).

Arguments Ok {A} a.
Arguments Raise {A} e.

(** A call with [given] positional arguments to a function declaring
    exactly [required] of them (no defaults, no [*args]): Python raises
    [TypeError] before the body runs when the two differ. *)
Definition check_arity (required given : nat) : result unit :=
  if Nat.eqb required given then Ok tt else Raise TypeError.

(** ** Python values and the object store

    Bounding boxes are dicts whose ['min'], ['max'] and ['normal']
    entries refer to other objects; coordinates are lists of numbers.
    Objects live in a store addressed by location, so that two names
    for one object are two copies of one location. *)

Definition loc := nat.

Inductive value : Type :=
| VNone
| VBool (b : bool)
| VInt (z : Z)
| VStr (s : string)
| VPair (a b : value)
| VRef (l : loc).

Inductive obj : Type :=
| OList (xs : list Z)
| ODict (kvs : list (string * value)).

Abbreviation heap := (gmap loc obj).

(** Python truthiness, as used by [not x] and [if x]. *)
Definition truthy (v : value) : bool :=
  match v with
  | VNone => false
  | VBool b => b
  | VInt z => negb (z =? 0)
  | VStr s => negb (String.eqb s "")
  | VPair _ _ => true
  | VRef _ => true
  end.

(** State-and-exception computations over the store.  The store
    survives a raise: writes made before the exception stay. *)
Definition M (A : Type) : Type := heap → result A * heap.

Definition ret {A} (a : A) : M A := λ h, (Ok a, h).
Definition throw {A} (e : exn) : M A := λ h, (Raise e, h).
Definition bind {A B} (m : M A) (k : A → M B) : M B :=
  λ h, match m h with
       | (Ok a, h') => k a h'
       | (Raise e, h') => (Raise e, h')
       end.

Notation "x <~ m ;; k" := (bind m (λ x, k))
  (at level 100, m at next level, right associativity).

(** [x[i]] for the object at [l] and an integer [i]: an element of a
    list; on a dict the integer is looked up as a key, and the dicts of
    the store have string keys only. *)
Definition list_get (l : loc) (i : nat) : M Z :=
  λ h, match h !! l with
       | Some (OList xs) =>
           match xs !! i with
           | Some x => (Ok x, h)
           | None => (Raise IndexError, h)
           end
       | Some (ODict _) => (Raise KeyError, h)
       | None => (Raise TypeError, h)
       end.

(** [xs[i] = v] for a list object at [l]; it is reached only after
    [list_get] has read from the same object, hence from a list. *)
Definition list_set (l : loc) (i : nat) (v : Z) : M unit :=
  λ h, match h !! l with
       | Some (OList xs) =>
           if decide (i < length xs)%nat
           then (Ok tt, <[l := OList (<[i := v]> xs)]> h)
           else (Raise IndexError, h)
       | _ => (Raise TypeError, h)
       end.

Fixpoint assoc_get (k : string) (kvs : list (string * value)) : option value :=
  match kvs with
  | [] => None
  | (k', v) :: rest => if String.eqb k k' then Some v else assoc_get k rest
  end.

(** Assignment to a key keeps the key's position when it exists and
    appends otherwise (dicts preserve insertion order). *)
Fixpoint assoc_set (k : string) (v : value) (kvs : list (string * value))
  : list (string * value) :=
  match kvs with
  | [] => [(k, v)]
  | (k', v') :: rest =>
      if String.eqb k k' then (k', v) :: rest else (k', v') :: assoc_set k v rest
  end.

(** [d[k]] for a dict object at [l]. *)
Definition dict_get (l : loc) (k : string) : M value :=
  λ h, match h !! l with
       | Some (ODict kvs) =>
           match assoc_get k kvs with
           | Some v => (Ok v, h)
           | None => (Raise KeyError, h)
           end
       | _ => (Raise TypeError, h)
       end.

(** [d[k] = v] for a dict object at [l]. *)
Definition dict_set (l : loc) (k : string) (v : value) : M unit :=
  λ h, match h !! l with
       | Some (ODict kvs) => (Ok tt, <[l := ODict (assoc_set k v kvs)]> h)
       | _ => (Raise TypeError, h)
       end.

(** [d.items()] at the start of a [for] loop. *)
Definition dict_items (l : loc) : M (list (string * value)) :=
  λ h, match h !! l with
       | Some (ODict kvs) => (Ok kvs, h)
       | _ => (Raise AttributeError, h)
       end.

(** ** Coordinate rescaling ([dataset_factory.py], lines 195-203) *)

(** *** True division of integers

    [a / b] on two Python [int]s is the binary64 number nearest to the
    exact quotient, ties going to the even mantissa, and an
    [OverflowError] when that number is out of range.  A binary64 is
    kept as a mantissa [m] and an exponent [e], standing for [m * 2^e]
    with [e >= -1074]; the power [2^e] is the fraction
    [pow2_num e / pow2_den e], one of the two being 1. *)

Definition pow2_num (e : Z) : Z := 2 ^ Z.max e 0.
Definition pow2_den (e : Z) : Z := 2 ^ Z.max (- e) 0.

(** The integer part of the binary logarithm of [n/d], for positive
    [n] and [d]. *)
Definition floor_log2 (n d : Z) : Z :=
  let l := Z.log2 n - Z.log2 d in
  if n * pow2_den l <? d * pow2_num l then l - 1 else l.

(** The exponent of the binary64 numbers around [n/d]: 53 significant
    bits, and no exponent below that of the subnormal numbers. *)
Definition binade (n d : Z) : Z := Z.max (floor_log2 n d - 52) (-1074).

(** [N/D] rounded to the nearest integer, ties to even. *)
Definition round_half_even (N D : Z) : Z :=
  let m := N / D in
  let r := N mod D in
  if (D <? 2 * r) || ((D =? 2 * r) && Z.odd m) then m + 1 else m.

(** The binary64 nearest to [n/d], for positive [n] and [d]. *)
Definition round64 (n d : Z) : Z * Z :=
  let e := binade n d in
  (round_half_even (n * pow2_den e) (d * pow2_num e), e).

(** A rounded value at or above [2^1024] is out of range. *)
Definition overflows (me : Z * Z) : bool :=
  2 ^ 1024 * pow2_den (snd me) <=? fst me * pow2_num (snd me).

(** [int(f)] for a binary64 [f] that is not negative. *)
Definition trunc64 (me : Z * Z) : Z :=
  (fst me * pow2_num (snd me)) / pow2_den (snd me).

(** [int(a / b)] *)
Definition int_true_div (a b : Z) : result Z :=
  if b =? 0 then Raise ZeroDivisionError
  else if a =? 0 then Ok 0
  else
    let me := round64 (Z.abs a) (Z.abs b) in
    if overflows me then Raise OverflowError
    else Ok (Z.sgn a * Z.sgn b * trunc64 me).

(** [int(a * t / b)]: the product is an exact integer, the division
    is true division, and [int] truncates toward zero. *)
Definition scale_value (a t b : Z) : result Z := int_true_div (a * t) b.

Arguments scale_value : simpl never.

Definition lift {A} (r : result A) : M A := λ h, (r, h).

(** [scale_coordinates(self, coordinates, target_coordinates)], with
    [self.base_width], [self.base_height] as [base].  [coordinates] is
    a reference: both assignments write into the caller's list, and the
    value returned is that same reference.  [target_coordinates] is
    the size of an image.  Of the values that are no reference, a tuple
    and a string can be read at index 0: the tuple refuses the
    assignment, and the character of a string cannot be divided. *)
Definition scale_coordinates (base : Z * Z) (coordinates : value)
    (target_coordinates : Z * Z) : M value :=
  match coordinates with
  | VRef c =>
      x <~ list_get c 0 ;;
      x' <~ lift (scale_value x (fst target_coordinates) (fst base)) ;;
      _ <~ list_set c 0 x' ;;
      y <~ list_get c 1 ;;
      y' <~ lift (scale_value y (snd target_coordinates) (snd base)) ;;
      _ <~ list_set c 1 y' ;;
      ret (VRef c)
  | VPair a _ =>
      (* a tuple is read like a list and cannot be assigned to *)
      match a with
      | VInt x =>
          _ <~ lift (scale_value x (fst target_coordinates) (fst base)) ;;
          throw TypeError
      | VBool b =>
          _ <~ lift (scale_value (if b then 1 else 0) (fst target_coordinates)
                       (fst base)) ;;
          throw TypeError
      | _ => throw TypeError
      end
  | VStr s => if String.eqb s "" then throw IndexError else throw TypeError
  | _ => throw TypeError
  end.

(** [val['origin']] where [val] is the value bound by the loop. *)
Definition subscript (v : value) (k : string) : M value :=
  match v with
  | VRef l => dict_get l k
  | _ => throw TypeError
  end.

Definition subscript_set (v : value) (k : string) (x : value) : M unit :=
  match v with
  | VRef l => dict_set l k x
  | _ => throw TypeError
  end.

Definition value_eqb_int (v : value) (z : Z) : bool :=
  match v with
  | VInt n => n =? z
  | VBool b => (if b then 1 else 0) =? z
  | _ => false
  end.

(** One pass of the inner loop of [generate] (lines 169-176) for the
    item [(key, val)] of the dict at [bbox]; [scaled_bbox] is the same
    location, since line 168 binds a second name to the same dict. *)
Definition scale_item (base size : Z * Z) (bbox scaled_bbox : loc)
    (kv : string * value) : M unit :=
  let '(key, val) := kv in
  if String.eqb key "min" || String.eqb key "max" then
    r <~ scale_coordinates base val size ;;
    dict_set scaled_bbox key r
  else if String.eqb key "normal" then
    cid <~ dict_get bbox "class_id" ;;
    if negb (value_eqb_int cid 2) then
      o <~ subscript val "origin" ;;
      o' <~ scale_coordinates base o size ;;
      d <~ dict_get scaled_bbox key ;;
      _ <~ subscript_set d "origin" o' ;;
      e <~ subscript val "end" ;;
      e' <~ scale_coordinates base e size ;;
      d' <~ dict_get scaled_bbox key ;;
      subscript_set d' "end" e'
    else ret tt
  else ret tt.

Fixpoint for_each {A} (f : A → M unit) (xs : list A) : M unit :=
  match xs with
  | [] => ret tt
  | x :: rest => _ <~ f x ;; for_each f rest
  end.

(** The body of the outer loop (lines 168-177): returns the object
    appended to [scaled_bboxes]. *)
Definition scale_bbox (base size : Z * Z) (bbox : loc) : M loc :=
  let scaled_bbox := bbox in
  items <~ dict_items bbox ;;
  _ <~ for_each (scale_item base size bbox scaled_bbox) items ;;
  ret scaled_bbox.

(** Lines 166-177 of [generate]: the list [scaled_bboxes]. *)
Fixpoint scale_bboxes (base size : Z * Z) (bboxes : list loc) : M (list loc) :=
  match bboxes with
  | [] => ret []
  | bbox :: rest =>
      s <~ scale_bbox base size bbox ;;
      ss <~ scale_bboxes base size rest ;;
      ret (s :: ss)
  end.

(** ** Blur ([dataset_factory.py], lines 220-251) *)

(** A NumPy [float64], with the rationals for its finite values; the
    operations below are those of the rationals, without the rounding
    of binary64. *)
Inductive npfloat : Type :=
| Fin (q : Q)
| PosInf
| NegInf
| NaN.

(** [variance / threshold] for a [float64] variance and an [int]
    threshold: NumPy does not raise on a zero divisor. *)
Definition np_div (v : Q) (d : Z) : npfloat :=
  if d =? 0 then
    match Qcompare v 0 with
    | Eq => NaN
    | Gt => PosInf
    | Lt => NegInf
    end
  else Fin (v / inject_Z d)%Q.

(** [x > 1]; every comparison with [nan] is false. *)
Definition np_gt_one (x : npfloat) : bool :=
  match x with
  | Fin q => negb (Qle_bool q 1)
  | PosInf => true
  | NegInf => false
  | NaN => false
  end.

(** [1 - x] *)
Definition np_one_minus (x : npfloat) : npfloat :=
  match x with
  | Fin q => Fin (1 - q)%Q
  | PosInf => NegInf
  | NegInf => PosInf
  | NaN => NaN
  end.

(** [x <= c] for a finite literal [c] *)
Definition np_le (x : npfloat) (c : Q) : bool :=
  match x with
  | Fin q => Qle_bool q c
  | PosInf => false
  | NegInf => true
  | NaN => false
  end.

(** [get_blur_amount(self, img)]: [variance_of_laplacian] stands for
    lines 221-222 (grayscale conversion, Laplacian, variance), and
    [max_blur_amount] for [self.max_blur_amount]. *)
Definition get_blur_amount {Image : Type} (variance_of_laplacian : Image → Q)
    (max_blur_amount : Z) (img : Image) : npfloat :=
  let blur_amount := np_div (variance_of_laplacian img) max_blur_amount in
  let blur_amount := if np_gt_one blur_amount then Fin (9 # 10) else blur_amount in
  np_one_minus blur_amount.

(** Lines 242-247: the kernel size chosen for [amount]. *)
Definition motion_blur_size (amount : npfloat) : nat :=
  if np_le amount (3 # 10) then 3%nat
  else if np_le amount (7 # 10) then 5%nat
  else 9%nat.

(** [np.identity(size)] *)
Definition identity (size : nat) : list (list Q) :=
  (λ i, (λ j, if Nat.eqb i j then 1%Q else 0%Q) <$> seq 0 size) <$> seq 0 size.

(** Lines 248-249: [kernel = np.identity(size); kernel /= size]. *)
Definition motion_blur_kernel (size : nat) : list (list Q) :=
  (λ row : list Q, (λ x, (x / inject_Z (Z.of_nat size))%Q) <$> row) <$> identity size.

(** [apply_motion_blur(self, img, amount)]; [np_array] is
    [np.array(img)] and [filter2D img k] is [cv2.filter2D(img, -1, k)]. *)
Definition apply_motion_blur {Image Array : Type} (np_array : Image → Array)
    (filter2D : Array → list (list Q) → Array) (no_blur : bool)
    (img : Image) (amount : npfloat) : Array :=
  let cv_img := np_array img in
  if no_blur then cv_img
  else
    let size := motion_blur_size amount in
    let kernel := motion_blur_kernel size in
    filter2D cv_img kernel.

(** ** Strings, paths and the file system *)

(** [s.split(sep)] for a one-character separator. *)
Fixpoint split (sep : ascii) (s : string) : list string :=
  match s with
  | EmptyString => [EmptyString]
  | String c rest =>
      if Ascii.eqb c sep then EmptyString :: split sep rest
      else match split sep rest with
           | [] => [String c EmptyString]
           | w :: ws => String c w :: ws
           end
  end.

(** [c.isspace()] on ASCII. *)
Definition isspace (c : ascii) : bool :=
  let n := nat_of_ascii c in
  ((9 <=? n) && (n <=? 13) || (28 <=? n) && (n <=? 32))%nat.

Fixpoint lstrip (s : string) : string :=
  match s with
  | EmptyString => EmptyString
  | String c rest => if isspace c then lstrip rest else s
  end.

Fixpoint rstrip (s : string) : string :=
  match s with
  | EmptyString => EmptyString
  | String c rest =>
      match rstrip rest with
      | EmptyString => if isspace c then EmptyString else String c EmptyString
      | r => String c r
      end
  end.

(** [s.strip()] *)
Definition strip (s : string) : string := rstrip (lstrip s).

Definition starts_with_slash (s : string) : bool :=
  match s with
  | String c _ => Ascii.eqb c "/"
  | EmptyString => false
  end.

Fixpoint ends_with_slash (s : string) : bool :=
  match s with
  | EmptyString => false
  | String c EmptyString => Ascii.eqb c "/"
  | String _ rest => ends_with_slash rest
  end.

(** [os.path.join(a, b)] on POSIX. *)
Definition path_join (a b : string) : string :=
  if starts_with_slash b then b
  else if String.eqb a "" || ends_with_slash a then String.append a b
  else String.append a (String "/" b).

(** A text file is the list of its lines, as iterating over the file
    object yields them; a directory is its listing. *)
Inductive fsnode : Type :=
| FFile (lines : list string)
| FDir (entries : list string).

Abbreviation filesystem := (gmap string fsnode).

Definition isfile (fs : filesystem) (p : string) : bool :=
  match fs !! p with Some (FFile _) => true | _ => false end.

Definition isdir (fs : filesystem) (p : string) : bool :=
  match fs !! p with Some (FDir _) => true | _ => false end.

(** ** Queues ([queue.Queue]) *)

Record Queue (A : Type) : Type := mkQueue {
  items : list A;
  unfinished_tasks : nat
}.

Arguments mkQueue {A} items unfinished_tasks.
Arguments items {A} q.
Arguments unfinished_tasks {A} q.

Definition Queue_new {A} : Queue A := mkQueue [] 0.

Definition Queue_put {A} (q : Queue A) (x : A) : Queue A :=
  mkQueue (items q ++ [x]) (S (unfinished_tasks q)).

(** [q.get()]: [None] when the caller blocks on an empty queue. *)
Definition Queue_get {A} (q : Queue A) : option (A * Queue A) :=
  match items q with
  | [] => None
  | x :: rest => Some (x, mkQueue rest (unfinished_tasks q))
  end.

Definition Queue_task_done {A} (q : Queue A) : result (Queue A) :=
  match unfinished_tasks q with
  | O => Raise ValueError
  | S n => Ok (mkQueue (items q) n)
  end.

Definition Queue_empty {A} (q : Queue A) : bool :=
  match items q with [] => true | _ => false end.

(** [q.join()] returns only once every put has been matched by a
    [task_done]. *)
Definition Queue_join {A} (q : Queue A) : option unit :=
  match unfinished_tasks q with
  | O => Some tt
  | S _ => None
  end.

(** ** Background data ([dataset.py]) *)

Record Dataset (A : Type) : Type := mkDataset {
  path : string;
  width : option Z;
  height : option Z;
  data : Queue A
}.

Arguments mkDataset {A} path width height data.
Arguments path {A} d.
Arguments width {A} d.
Arguments height {A} d.
Arguments data {A} d.

(** [Dataset.__init__(self, path)] *)
Definition Dataset_init {A} (fs : filesystem) (path : string) : result (Dataset A) :=
  if negb (isdir fs path) then Raise (Exception "Dataset directory not found")
  else Ok (mkDataset path None None Queue_new).

Section Background.

Context {F : Type}.

(** [float(s)] on a string: [None] where Python raises [ValueError]. *)
Variable float : string → option F.

(** [Image.open(path).size]: [None] where PIL cannot open the file. *)
Variable image_size : string → option (Z * Z).

(** A pose: the numbers a [Vector3] and a [Quaternion] hold. *)
Record BackgroundAnnotations : Type := mkBackgroundAnnotations {
  translation : list F;
  orientation : list F
}.

Record BackgroundImage : Type := mkBackgroundImage {
  file : string;
  annotations : BackgroundAnnotations
}.

(** [[float(x) for x in xs]] *)
Fixpoint floats (xs : list string) : result (list F) :=
  match xs with
  | [] => Ok []
  | x :: rest =>
      match float x with
      | None => Raise ValueError
      | Some v =>
          match floats rest with
          | Ok vs => Ok (v :: vs)
          | Raise e => Raise e
          end
      end
  end.

(** [Vector3(xs)] and [Quaternion(xs)] of [pyrr] on a list of numbers:
    the array made of the list is given the shape of the class, three
    numbers or four, and NumPy raises [ValueError] when it has another
    length.  The numbers themselves are kept as they are. *)
Definition Vector3 (xs : list F) : result (list F) :=
  if Nat.eqb (length xs) 3 then Ok xs else Raise ValueError.

Definition Quaternion (xs : list F) : result (list F) :=
  if Nat.eqb (length xs) 4 then Ok xs else Raise ValueError.

(** Lines 74-78: the key and the pose one line contributes. *)
Definition parse_line (line : string) : result (string * BackgroundAnnotations) :=
  let items := split "," line in
  match floats (take 3 (drop 1 items)) with
  | Raise e => Raise e
  | Ok t =>
      match Vector3 t with
      | Raise e => Raise e
      | Ok t =>
          match floats (drop 4 items) with
          | Raise e => Raise e
          | Ok o =>
              match Quaternion o with
              | Raise e => Raise e
              | Ok o =>
                  Ok (strip (hd EmptyString items), mkBackgroundAnnotations t o)
              end
          end
      end
  end.

(** Lines 73-78: the loop over the lines after the header. *)
Fixpoint parse_lines (lines : list string)
    (annotations : gmap string BackgroundAnnotations)
  : result (gmap string BackgroundAnnotations) :=
  match lines with
  | [] => Ok annotations
  | line :: rest =>
      match parse_line line with
      | Raise e => Raise e
      | Ok (k, a) => parse_lines rest (<[k := a]> annotations)
      end
  end.

(** [Dataset.parse_annotations(self, path)] *)
Definition parse_annotations (fs : filesystem) (path : string)
  : result (gmap string BackgroundAnnotations) :=
  match fs !! path with
  | Some (FFile lines) => parse_lines (drop 1 lines) ∅
  | _ => Raise (Exception "Annotations file not found")
  end.

(** Line 90 and line 97: the test a listing entry must pass. *)
Definition eligible (fs : filesystem) (dir annotations_path file : string) : bool :=
  let full_path := path_join dir file in
  isfile fs full_path && negb (String.eqb full_path annotations_path).

(** Lines 87-91: the padding loop.  [draws] are the numbers behind the
    successive [random.choice] calls, each reduced modulo the current
    length; [None] when they run out with the loop still going. *)
Fixpoint pad_files (fs : filesystem) (dir annotations_path : string) (count : Z)
    (draws : list nat) (files : list string) : option (result (list string)) :=
  if Z.of_nat (length files) <=? count then
    match files with
    | [] => Some (Raise IndexError)
    | _ :: _ =>
        match draws with
        | [] => None
        | d :: draws' =>
            match files !! (d mod length files)%nat with
            | None => Some (Raise IndexError)
            | Some choice =>
                if eligible fs dir annotations_path choice
                then pad_files fs dir annotations_path count draws' (files ++ [choice])
                else pad_files fs dir annotations_path count draws' files
            end
        end
    end
  else Some (Ok files).

(** What [load] has accumulated while walking the listing. *)
Record Staging : Type := mkStaging {
  st_data : Queue BackgroundImage;
  st_width : option Z;
  st_height : option Z;
  st_not_found : nat;
  st_cannot_find : list string
}.

(** [not x] for an attribute holding [None] or an [int]. *)
Definition falsy (x : option Z) : bool :=
  match x with
  | None => true
  | Some z => z =? 0
  end.

(** Lines 95-106: the staging loop. *)
Fixpoint stage (fs : filesystem) (dir annotations_path : string)
    (annotations : gmap string BackgroundAnnotations)
    (files : list string) (st : Staging) : result Staging :=
  match files with
  | [] => Ok st
  | file :: rest =>
      let full_path := path_join dir file in
      if isfile fs full_path && negb (String.eqb full_path annotations_path) then
        match annotations !! file with
        | None =>
            stage fs dir annotations_path annotations rest
              (mkStaging (st_data st) (st_width st) (st_height st)
                 (S (st_not_found st)) (st_cannot_find st ++ [file]))
        | Some a =>
            let q := Queue_put (st_data st) (mkBackgroundImage full_path a) in
            match Queue_task_done q with
            | Raise e => Raise e
            | Ok q' =>
                if falsy (st_width st) && falsy (st_height st) then
                  match image_size full_path with
                  | None => Raise OSError
                  | Some (w, h) =>
                      stage fs dir annotations_path annotations rest
                        (mkStaging q' (Some w) (Some h)
                           (st_not_found st) (st_cannot_find st))
                  end
                else
                  stage fs dir annotations_path annotations rest
                    (mkStaging q' (st_width st) (st_height st)
                       (st_not_found st) (st_cannot_find st))
            end
        end
      else stage fs dir annotations_path annotations rest st
  end.

(** What a call of [load] leaves behind: the dataset object, the lines
    it printed (the files it could not find, and the number in the
    closing report), the listing as padded, and the value returned. *)
Record Loaded : Type := mkLoaded {
  ld_self : Dataset BackgroundImage;
  ld_cannot_find : list string;
  ld_reported_not_found : nat;
  ld_files : list string;
  ld_return : value
}.

(** [Dataset.load(self, count, annotations_path)].  [shuffle] is the
    rearrangement [random.shuffle] makes.  The function body has no
    [return] statement, so a call that completes evaluates to [None]. *)
Definition load (fs : filesystem) (shuffle : list string → list string)
    (draws : list nat) (self : Dataset BackgroundImage) (count : Z)
    (annotations_path : string) : option (result Loaded) :=
  match fs !! path self with
  | Some (FDir entries) =>
      let files := shuffle entries in
      match pad_files fs (path self) annotations_path count draws files with
      | None => None
      | Some (Raise e) => Some (Raise e)
      | Some (Ok files) =>
          match parse_annotations fs annotations_path with
          | Raise e => Some (Raise e)
          | Ok annotations =>
              match stage fs (path self) annotations_path annotations files
                      (mkStaging (data self) (width self) (height self) 0 []) with
              | Raise e => Some (Raise e)
              | Ok st =>
                  match Queue_join (st_data st) with
                  | None => None
                  | Some _ =>
                      Some (Ok (mkLoaded
                                  (mkDataset (path self) (st_width st) (st_height st)
                                     (st_data st))
                                  (st_cannot_find st) (st_not_found st) files VNone))
                  end
              end
          end
      end
  | _ => Some (Raise OSError)
  end.

(** ** Construction of the factory ([dataset_factory.py], lines 79-84) *)

Inductive init_outcome : Type :=
| SysExit (code : Z)
| Propagates (e : exn)
| Proceeds (background_dataset : Dataset BackgroundImage).

(** The status the process ends with, when it ends here: [sys.exit(n)]
    gives [n]; an exception nobody catches gives 1. *)
Definition exit_code (o : init_outcome) : option Z :=
  match o with
  | SysExit c => Some c
  | Propagates _ => Some 1
  | Proceeds _ => None
  end.

(** Lines 80-84: [if not self.background_dataset.load(...): ... sys.exit(1)]. *)
Definition load_or_exit (fs : filesystem) (shuffle : list string → list string)
    (draws : list nat) (background_dataset : Dataset BackgroundImage)
    (count : Z) (dataset_dir : string) : option init_outcome :=
  match load fs shuffle draws background_dataset count
          (path_join dataset_dir "annotations.csv") with
  | None => None
  | Some (Raise e) => Some (Propagates e)
  | Some (Ok r) =>
      if negb (truthy (ld_return r)) then Some (SysExit 1)
      else Some (Proceeds (ld_self r))
  end.

(** [Dataset(...)] called with [given] positional arguments after
    [self]: [__init__] declares exactly one, [path]. *)
Definition Dataset_call {A} (fs : filesystem) (path : string) (given : nat)
  : result (Dataset A) :=
  match check_arity 1 given with
  | Raise e => Raise e
  | Ok _ => Dataset_init fs path
  end.

(** Lines 79-84 of [DatasetFactory.__init__]: line 79 passes
    [args.dataset] and [args.seed]. *)
Definition DatasetFactory_init (fs : filesystem) (shuffle : list string → list string)
    (draws : list nat) (dataset_dir : string) (count : Z) : option init_outcome :=
  match Dataset_call fs dataset_dir 2 with
  | Raise e => Some (Propagates e)
  | Ok background_dataset =>
      load_or_exit fs shuffle draws background_dataset count dataset_dir
  end.

End Background.

(** ** Generation ([dataset_factory.py], lines 95-192) *)

Section Factory.

Context {F Image Array Projector : Type}.

(** [projector.set_drone_pose(pose)] followed by
    [projector.generate(min_dist, max_gates)]: the projection and the
    list [annotations['bboxes']], whose dicts the renderer creates in
    the store. *)
Variable render :
  Projector → @BackgroundAnnotations F → heap → result (Image * list loc) * heap.

(** What PIL, OpenCV, NumPy and scikit-image do is outside the
    repository; each of their calls returns a value or raises. *)

(** [background.image()], that is [Image.open(self.file)] *)
Variable open_image : string → result Image.
(** Lines 221-222: grayscale conversion, Laplacian, variance *)
Variable variance_of_laplacian : Image → result Q.
(** [np.array(img)] and [cv2.filter2D(img, -1, kernel)] *)
Variable np_array : Image → result Array.
Variable filter2D : Array → list (list Q) → result Array.
(** [add_noise] (lines 229-234) *)
Variable add_noise : Array → result Image.
(** [combine] (lines 206-218) and [output.size] *)
Variable combine : Image → Image → result Image.
Variable size : Image → Z * Z.
(** Lines 179-186: the overlays drawn on [output] in verbose mode;
    they read the boxes and change pixels only. *)
Variable draw : bool → bool → bool → Image → heap → list loc → result Image.

Record AnnotatedImage : Type := mkAnnotatedImage {
  ai_image : Image;
  ai_id : value;
  ai_annotations : list loc
}.

(** The attributes of the factory that generation reads. *)
Record Config : Type := mkConfig {
  nb_threads : Z;
  count : Z;
  verbose : bool;
  extra_verbose : bool;
  max_blur_amount : Z;
  no_blur : bool;
  base : Z * Z
}.

(** The state generation changes: the two datasets' queues, the
    visible-gate counter and the object store.  A [None] on the
    generated queue is the value put by lines 110 and 142. *)
Record FactoryState : Type := mkFactoryState {
  background_dataset : Dataset (@BackgroundImage F);
  generated_dataset : Dataset (option AnnotatedImage);
  visible_gates : nat;
  store : heap
}.

Definition Dataset_put {A} (d : Dataset A) (x : A) : Dataset A :=
  mkDataset (path d) (width d) (height d) (Queue_put (data d) x).

(** [SyntheticAnnotations(...)] called with [given] positional
    arguments after [self]: [__init__] declares three ([center],
    [orientation], [on_screen]). *)
Definition SyntheticAnnotations_call (given : nat) (bboxes : list loc)
  : result (list loc) :=
  match check_arity 3 given with
  | Raise e => Raise e
  | Ok _ => Ok bboxes
  end.

(** Lines 157-159: the projection blurred by the amount the background
    calls for, then noised.  The arguments are evaluated first
    ([background.image()], then [get_blur_amount]); in
    [apply_motion_blur] a raise of [np.array] passes through the
    filter. *)
Definition blur_and_noise (cfg : Config) (projection : Image) (file : string)
  : result Image :=
  match open_image file with
  | Raise e => Raise e
  | Ok img =>
      match variance_of_laplacian img with
      | Raise e => Raise e
      | Ok variance =>
          let amount :=
            get_blur_amount (λ _ : Image, variance) (max_blur_amount cfg) img in
          let projection_blurred :=
            apply_motion_blur np_array
              (λ cv_img kernel,
                 match cv_img with
                 | Ok a => filter2D a kernel
                 | Raise e => Raise e
                 end)
              (no_blur cfg) projection amount in
          match projection_blurred with
          | Raise e => Raise e
          | Ok blurred => add_noise blurred
          end
      end
  end.

(** [generate(self, index, projector)] *)
Definition generate (cfg : Config) (self : FactoryState) (index : value)
    (projector : Projector) : option (result unit * FactoryState) :=
  match Queue_get (data (background_dataset self)) with
  | None => None
  | Some (background, q) =>
      let bg := mkDataset (path (background_dataset self))
                  (width (background_dataset self))
                  (height (background_dataset self)) q in
      match render projector (annotations background) (store self) with
      | (Raise e, h) =>
          Some (Raise e,
                mkFactoryState bg (generated_dataset self) (visible_gates self) h)
      | (Ok (projection, bboxes), h) =>
          let gate_visible := negb (Nat.eqb (length bboxes) 0) in
          match (if gate_visible
                 then blur_and_noise cfg projection (file background)
                 else Ok projection) with
          | Raise e =>
              Some (Raise e,
                    mkFactoryState bg (generated_dataset self)
                      (visible_gates self) h)
          | Ok projection =>
              (* line 161 *)
              let visible :=
                if gate_visible then S (visible_gates self)
                else visible_gates self in
              match (match open_image (file background) with
                     | Raise e => Raise e
                     | Ok img => combine projection img
                     end) with
              | Raise e =>
                  Some (Raise e,
                        mkFactoryState bg (generated_dataset self) visible h)
              | Ok output =>
                  match scale_bboxes (base cfg) (size output) bboxes h with
                  | (Raise e, h') =>
                      Some (Raise e,
                            mkFactoryState bg (generated_dataset self) visible h')
                  | (Ok scaled_bboxes, h') =>
                      match (if (verbose cfg && gate_visible) || extra_verbose cfg
                             then draw (verbose cfg) (extra_verbose cfg)
                                    gate_visible output h' scaled_bboxes
                             else Ok output) with
                      | Raise e =>
                          Some (Raise e,
                                mkFactoryState bg (generated_dataset self)
                                  visible h')
                      | Ok output =>
                          match SyntheticAnnotations_call 1 scaled_bboxes with
                          | Raise e =>
                              Some (Raise e,
                                    mkFactoryState bg (generated_dataset self)
                                      visible h')
                          | Ok anns =>
                              Some (Ok tt,
                                    mkFactoryState bg
                                      (Dataset_put (generated_dataset self)
                                         (Some (mkAnnotatedImage output index
                                                  anns)))
                                      visible h')
                          end
                      end
                  end
              end
          end
      end
  end.

(** [self.generate] applied to a list of positional arguments that are
    plain values, as a pool worker applies it.  With two, line 149
    runs and line 150 finds no [set_drone_pose] on the second. *)
Definition generate_apply (self : FactoryState) (args : list value)
  : option (result unit * FactoryState) :=
  match check_arity 2 (length args) with
  | Raise e => Some (Raise e, self)
  | Ok _ =>
      match Queue_get (data (background_dataset self)) with
      | None => None
      | Some (_, q) =>
          Some (Raise AttributeError,
                mkFactoryState
                  (mkDataset (path (background_dataset self))
                     (width (background_dataset self))
                     (height (background_dataset self)) q)
                  (generated_dataset self) (visible_gates self) (store self))
      end
  end.

(** [Dataset.save] as the target of the thread created on lines 99 and
    123, which passes no argument; [save] declares [nb_threads].  The
    thread ends as soon as the call raises. *)
Definition save_thread : result unit := check_arity 1 0.

(** [range(n)] *)
Definition range (n : Z) : list Z := Z.of_nat <$> seq 0 (Z.to_nat n).

(** Lines 105-108 *)
Fixpoint run_loop (cfg : Config) (projector : Projector) (indices : list Z)
    (self : FactoryState) : option (result unit * FactoryState) :=
  match indices with
  | [] => Some (Ok tt, self)
  | i :: rest =>
      match generate cfg self (VInt i) projector with
      | None => None
      | Some (Raise e, self') => Some (Raise e, self')
      | Some (Ok _, self') => run_loop cfg projector rest self'
      end
  end.

Definition put_sentinel (self : FactoryState) : FactoryState :=
  mkFactoryState (background_dataset self)
    (Dataset_put (generated_dataset self) None)
    (visible_gates self) (store self).

(** Lines 113-114 and 145-146: the closing report evaluates
    [int((self.visible_gates/self.count)*100)].  The division raises
    on a zero count, and on a quotient too large for a binary64; the
    product with 100 is a binary64 again, and [int] raises on an
    infinite one. *)
Definition report (cfg : Config) (self : FactoryState) : result unit :=
  let v := Z.of_nat (visible_gates self) in
  if count cfg =? 0 then Raise ZeroDivisionError
  else if v =? 0 then Ok tt
  else
    let q := round64 v (Z.abs (count cfg)) in
    if overflows q then Raise OverflowError
    else if fst q =? 0 then Ok tt
    else if overflows (round64 (100 * fst q * pow2_num (snd q)) (pow2_den (snd q)))
    then Raise OverflowError
    else Ok tt.

(** [run(self)].  The thread started on line 104 is [save_thread];
    it has ended by the time line 111 joins it. *)
Definition run (cfg : Config) (projector : Projector) (self : FactoryState)
  : option (result unit * FactoryState) :=
  match run_loop cfg projector (range (count cfg)) self with
  | None => None
  | Some (Raise e, self') => Some (Raise e, self')
  | Some (Ok _, self') => Some (report cfg self', put_sentinel self')
  end.

(** Line 136: [zip(range(max_), max_ * list(range(self.nb_threads)))] *)
Definition work_items (max_ nb_threads : Z) : list value :=
  (λ p, VPair (VInt (fst p)) (VInt (snd p)))
    <$> zip (range max_) (concat (replicate (Z.to_nat max_) (range nb_threads))).

(** The first component of a work item: the index meant for the
    sample. *)
Definition item_index (item : value) : option value :=
  match item with
  | VPair index _ => Some index
  | _ => None
  end.

(** Lines 137-139: [imap_unordered] applies the function to each item
    as its only argument; the loop re-raises the first failure it
    meets.  [items] are in the order the pool completes them. *)
Fixpoint imap_loop (items : list value) (self : FactoryState)
  : option (result unit * FactoryState) :=
  match items with
  | [] => Some (Ok tt, self)
  | item :: rest =>
      match generate_apply self [item] with
      | None => None
      | Some (Raise e, self') => Some (Raise e, self')
      | Some (Ok _, self') => imap_loop rest self'
      end
  end.

(** [run_multi_threaded(self)]; [schedule] is the order in which the
    pool completes the items. *)
Definition run_multi_threaded (cfg : Config) (schedule : list value → list value)
    (self : FactoryState) : option (result unit * FactoryState) :=
  if nb_threads cfg <? 1 then Some (Raise ValueError, self)
  else
    match imap_loop (schedule (work_items (count cfg) (nb_threads cfg))) self with
    | None => None
    | Some (Raise e, self') => Some (Raise e, self')
    | Some (Ok _, self') => Some (report cfg self', put_sentinel self')
    end.

(** The ids on the generated queue, in queue order. *)
Definition emitted_ids (self : FactoryState) : list value :=
  omap (λ x, ai_id <$> x) (items (data (generated_dataset self))).

(** The number of [None]s on the generated queue. *)
Definition sentinels (self : FactoryState) : nat :=
  length (filter (λ x, x = None) (items (data (generated_dataset self)))).

(** ** Persistence ([dataset.py], lines 123-137) *)

(** Where a worker thread running [_save_one] stands: about to test
    [self.data.empty()] (line 124), about to call [self.data.get()]
    (line 125), holding an item (lines 126-129), returned, or ended by
    an exception. *)
Inductive wstate : Type :=
| WCheck
| WGet
| WSave (x : option AnnotatedImage)
| WDone
| WCrashed (e : exn).

(** The generated dataset's queue, its workers, the values the
    orchestrator has still to put, and the files written, each named
    [self.path + str(id) + '.png'] and recorded by its id. *)
Record psys : Type := mkPsys {
  p_data : Queue (option AnnotatedImage);
  p_workers : list wstate;
  p_pending : list (option AnnotatedImage);
  p_written : list value
}.

Inductive action : Type :=
| Put
| Work (i : nat).

Definition set_worker (i : nat) (w : wstate) (s : psys) : psys :=
  mkPsys (p_data s) (<[i := w]> (p_workers s)) (p_pending s) (p_written s).

(** One atomic step of worker [i]; [None] when it cannot move. *)
Definition worker_step (i : nat) (s : psys) : option psys :=
  match p_workers s !! i with
  | Some WCheck =>
      if Queue_empty (p_data s) then Some (set_worker i WDone s)
      else Some (set_worker i WGet s)
  | Some WGet =>
      match Queue_get (p_data s) with
      | None => None
      | Some (x, q) =>
          Some (mkPsys q (<[i := WSave x]> (p_workers s)) (p_pending s) (p_written s))
      end
  | Some (WSave None) => Some (set_worker i (WCrashed AttributeError) s)
  | Some (WSave (Some a)) =>
      match Queue_task_done (p_data s) with
      | Raise e =>
          Some (mkPsys (p_data s) (<[i := WCrashed e]> (p_workers s)) (p_pending s)
                  (p_written s ++ [ai_id a]))
      | Ok q =>
          Some (mkPsys q (<[i := WCheck]> (p_workers s)) (p_pending s)
                  (p_written s ++ [ai_id a]))
      end
  | _ => None
  end.

(** One step of the whole: the orchestrator puts its next value, or a
    worker moves. *)
Definition sys_step (a : action) (s : psys) : option psys :=
  match a with
  | Put =>
      match p_pending s with
      | [] => None
      | x :: rest =>
          Some (mkPsys (Queue_put (p_data s) x) (p_workers s) rest (p_written s))
      end
  | Work i => worker_step i s
  end.

Fixpoint exec (sched : list action) (s : psys) : option psys :=
  match sched with
  | [] => Some s
  | a :: rest =>
      match sys_step a s with
      | None => None
      | Some s' => exec rest s'
      end
  end.

(** [save(self, nb_threads)] has started its workers (lines 132-135)
    on the queue [q]; the orchestrator still has [pending] to put. *)
Definition save_start (nb_threads : nat) (q : Queue (option AnnotatedImage))
    (pending : list (option AnnotatedImage)) : psys :=
  mkPsys q (replicate nb_threads WCheck) pending [].

(** Line 137: [self.data.join()] can return in [s]. *)
Definition save_returns (s : psys) : bool :=
  match Queue_join (p_data s) with Some _ => true | None => false end.

Definition holds_item (w : wstate) : Prop :=
  match w with
  | WSave _ => True
  | _ => False
  end.

(** Worker [i] waits in [get] on an empty queue, the orchestrator has
    nothing more to put, no worker holds an item and one put is still
    unmatched by a [task_done]. *)
Definition stuck (i : nat) (s : psys) : Prop :=
  p_pending s = []
  ∧ items (p_data s) = []
  ∧ p_workers s !! i = Some WGet
  ∧ (∀ j w, p_workers s !! j = Some w → ¬ holds_item w)
  ∧ unfinished_tasks (p_data s) = 1%nat.

End Factory.

(** ** Statements of the specification that the code is compared with *)

(** "scaled == floor(x*Wo/Wb), floor(y*Ho/Hb)" for every coordinate
    pair, at positive resolutions. *)
Definition scale_is_floor : Prop :=
  ∀ (Wb Hb Wo Ho x y : Z) (rest : list Z) (c : loc) (h : heap),
    0 < Wb → 0 < Hb → 0 < Wo → 0 < Ho →
    h !! c = Some (OList (x :: y :: rest)) →
    snd (scale_coordinates (Wb, Hb) (VRef c) (Wo, Ho) h) !! c
    = Some (OList ((x * Wo) `div` Wb :: (y * Ho) `div` Hb :: rest)).

(** "divide by a configured blur threshold, clamp to at most 0.9,
    invert (1 - clamped) to get a blur strength in [0.1, 1.0]", for a
    variance that is not negative and a positive threshold. *)
Definition blur_is_clamped : Prop :=
  ∀ (variance : Q) (threshold : Z),
    (0 <= variance)%Q → 0 < threshold →
    ∃ r, get_blur_amount (λ _ : unit, variance) threshold tt = Fin r ∧
         (r == 1 - Qmin (variance / inject_Z threshold) (9 # 10))%Q ∧
         (1 # 10 <= r)%Q ∧ (r <= 1)%Q.

(** Every dict of the store has pairwise distinct keys. *)
Definition wf_heap (h : heap) : Prop :=
  ∀ l kvs, h !! l = Some (ODict kvs) → NoDup (kvs.*1).

(** [h'] has the objects of [h] at the same locations, every dict with
    the same items and every list with the same length. *)
Definition same_shape (h h' : heap) : Prop :=
  ∀ l,
    match h !! l, h' !! l with
    | None, None => True
    | Some (ODict a), Some (ODict b) => a = b
    | Some (OList a), Some (OList b) => length a = length b
    | _, _ => False
    end.

(** ** The coordinate lists the scaling loop is given

    In the order of lines 167-176: for each box of the list and each
    item of its dict, the value under ['min'] or ['max'], and, for the
    ['normal'] of a box whose ['class_id'] is not 2, the values its
    dict holds under ['origin'] and ['end']. *)
Definition item_targets (h : heap) (kvs : list (string * value))
    (kv : string * value) : list value :=
  let '(key, val) := kv in
  if String.eqb key "min" || String.eqb key "max" then [val]
  else if String.eqb key "normal" then
    match assoc_get "class_id" kvs, val with
    | Some cid, VRef n =>
        if negb (value_eqb_int cid 2) then
          match h !! n with
          | Some (ODict kvn) =>
              match assoc_get "origin" kvn, assoc_get "end" kvn with
              | Some o, Some e => [o; e]
              | _, _ => []
              end
          | _ => []
          end
        else []
    | _, _ => []
    end
  else [].

Definition bbox_targets (h : heap) (bbox : loc) : list value :=
  match h !! bbox with
  | Some (ODict kvs) => concat (item_targets h kvs <$> kvs)
  | _ => []
  end.

Definition scale_targets (h : heap) (bboxes : list loc) : list value :=
  concat (bbox_targets h <$> bboxes).

(** The lists of a sequence scaled in place, one call of
    [scale_coordinates] after the other. *)
Definition scale_all (base size : Z * Z) (targets : list value) : M unit :=
  for_each (λ v, _ <~ scale_coordinates base v size ;; ret tt) targets.

(** The first two numbers of every list of the store are in the range
    where scaling by [base] goes through binary64 without rounding. *)
Definition in_exact_range (base : Z * Z) (h : heap) : Prop :=
  ∀ l xs, h !! l = Some (OList xs) →
    (∀ x, xs !! 0%nat = Some x → Z.abs (x * fst base) < 2 ^ 53)
    ∧ (∀ y, xs !! 1%nat = Some y → Z.abs (y * snd base) < 2 ^ 53).

(** ** What [load] does with a listing *)

Section Listing.

Context {F : Type}.

(** The entries of [files] that reach the queue, with their poses. *)
Definition staged_of (fs : filesystem) (dir annotations_path : string)
    (annotations : gmap string (@BackgroundAnnotations F)) (files : list string)
  : list (@BackgroundImage F) :=
  omap (λ f, if eligible fs dir annotations_path f
             then mkBackgroundImage (path_join dir f) <$> annotations !! f
             else None) files.

(** The entries of [files] that pass the file test and have no
    annotation, with repetitions. *)
Definition unmatched (fs : filesystem) (dir annotations_path : string)
    (annotations : gmap string (@BackgroundAnnotations F)) (files : list string)
  : list string :=
  List.filter (λ f, eligible fs dir annotations_path f
                    && match annotations !! f with
                       | Some _ => false
                       | None => true
                       end) files.

(** The entries of [files] that fail the file test: directories, the
    annotations file itself, names that no longer exist. *)
Definition ineligible (fs : filesystem) (dir annotations_path : string)
    (files : list string) : list string :=
  List.filter (λ f, negb (eligible fs dir annotations_path f)) files.

End Listing.

(** "len(SourceQueue staged) >= count after load": for a dataset
    object fresh from its constructor. *)
Definition load_stages_count : Prop :=
  ∀ (F : Type) (float : string → option F) (image_size : string → option (Z * Z))
    (fs : filesystem) (shuffle : list string → list string) (draws : list nat)
    (dir annotations_path : string)
    (count : Z) (self : Dataset (@BackgroundImage F)) (r : @Loaded F),
    (∀ l, shuffle l ≡ₚ l) →
    Dataset_init fs dir = Ok self →
    load float image_size fs shuffle draws self count annotations_path
    = Some (Ok r) →
    count ≤ Z.of_nat (length (items (data (ld_self r)))).

(** "the reported not-found count equals exactly the number of
    eligible files absent from the annotation mapping": the files are
    those of the directory listing. *)
Definition not_found_counts_files : Prop :=
  ∀ (F : Type) (float : string → option F) (image_size : string → option (Z * Z))
    (fs : filesystem) (shuffle : list string → list string) (draws : list nat)
    (dir annotations_path : string)
    (count : Z) (self : Dataset (@BackgroundImage F)) (r : @Loaded F)
    (entries : list string) (annotations : gmap string (@BackgroundAnnotations F)),
    (∀ l, shuffle l ≡ₚ l) →
    Dataset_init fs dir = Ok self →
    fs !! dir = Some (FDir entries) →
    parse_annotations float fs annotations_path = Ok annotations →
    load float image_size fs shuffle draws self count annotations_path
    = Some (Ok r) →
    ld_reported_not_found r
    = length (unmatched fs dir annotations_path annotations entries).

(** ** Concrete data for the examples *)

(** A stand-in for [float] on strings, enough for the numerals of the
    examples: a stripped, non-empty run of digits, signs, dots and
    exponent marks is accepted and kept as text. *)
Definition numeral_char (c : ascii) : bool :=
  let n := nat_of_ascii c in
  ((48 <=? n) && (n <=? 57) || (n =? 43) || (n =? 45) || (n =? 46) || (n =? 101))%nat.

Fixpoint all_chars (p : ascii → bool) (s : string) : bool :=
  match s with
  | EmptyString => true
  | String c rest => p c && all_chars p rest
  end.

Definition numeral (s : string) : option string :=
  let t := strip s in
  if negb (String.eqb t "") && all_chars numeral_char t then Some t else None.

Definition nl : string := String (ascii_of_nat 10) EmptyString.

(** A background directory [bg] with two images, the annotations file
    and a sub-directory; the second row's quaternion has norm 2. *)
Definition bg_fs : filesystem :=
  <["bg" := FDir ["a.png"; "annotations.csv"; "b.png"; "raw"]]>
  (<["bg/a.png" := FFile []]>
  (<["bg/b.png" := FFile []]>
  (<["bg/raw" := FDir []]>
  (<["bg/annotations.csv" :=
       FFile [String.append "filename,tx,ty,tz,qx,qy,qz,qw" nl;
              String.append "a.png, 1.5, 2, 3, 0, 0, 0, 1" nl;
              String.append "b.png,4,5,6,0,0,0,2" nl]]> ∅)))).

(** The same directory without the sub-directory: two usable images
    next to the annotations file. *)
Definition flat_fs : filesystem :=
  <["bg" := FDir ["a.png"; "annotations.csv"; "b.png"]]> (delete "bg/raw" bg_fs).

(** A directory whose only image has no annotation row. *)
Definition bare_fs : filesystem :=
  <["bg" := FDir ["c.png"; "annotations.csv"]]>
  (<["bg/c.png" := FFile []]>
  (<["bg/annotations.csv" := FFile ["filename,tx,ty,tz,qx,qy,qz,qw"]]> ∅)).

(** Every image is 640x480. *)
Definition vga (file : string) : option (Z * Z) := Some (640, 480).

(** [Dataset("bg")] *)
Definition fresh_bg : Dataset (@BackgroundImage string) :=
  mkDataset "bg" None None Queue_new.

(** The store of one renderer bounding box: the dict at 0 with its
    corner lists at 1 and 2 and its normal dict at 3, whose endpoint
    lists are at 4 and 5. *)
Definition bbox_store : heap :=
  <[0%nat := ODict [("class_id", VInt 1); ("min", VRef 1%nat);
                    ("max", VRef 2%nat); ("normal", VRef 3%nat)]]>
  (<[1%nat := OList [100; 50]]>
  (<[2%nat := OList [200; 150]]>
  (<[3%nat := ODict [("origin", VRef 4%nat); ("end", VRef 5%nat)]]>
  (<[4%nat := OList [150; 100]]>
  (<[5%nat := OList [160; 100]]> ∅))))).

(** Stand-ins for the renderer and the image library: every image is
    the unit value and the renderer reports no gate. *)
Definition blank_render (p : unit) (pose : @BackgroundAnnotations string) (h : heap)
  : result (unit * list loc) * heap := (Ok (tt, []), h).

Definition blank_config (count nb_threads : Z) : Config :=
  mkConfig nb_threads count false false 200 false (640, 480).

(** A factory whose background queue holds one staged image and whose
    generated queue is empty. *)
Definition one_background : @FactoryState string unit :=
  mkFactoryState
    (mkDataset "bg" (Some 640) (Some 480)
       (mkQueue [mkBackgroundImage "bg/a.png"
                   (mkBackgroundAnnotations ["1.5"; "2"; "3"] ["0"; "0"; "0"; "1"])]
          0))
    (mkDataset "out" None None Queue_new) 0 ∅.

(** ** Further definitions for the properties of the code *)

(** The values [generate] passes to [scale_coordinates] for the box at
    [bbox] (lines 170-176): what its dict holds under ['min'] and
    ['max'], and, unless its ['class_id'] is 2, what the dict under
    ['normal'] holds under ['origin'] and ['end']. *)
Definition coord_arg (h : heap) (bbox : loc) (v : value) : Prop :=
  ∃ kvs,
    h !! bbox = Some (ODict kvs)
    ∧ (assoc_get "min" kvs = Some v
       ∨ assoc_get "max" kvs = Some v
       ∨ ∃ n cid kvn k,
           assoc_get "normal" kvs = Some (VRef n)
           ∧ assoc_get "class_id" kvs = Some cid
           ∧ value_eqb_int cid 2 = false
           ∧ h !! n = Some (ODict kvn)
           ∧ (k = "origin" ∨ k = "end")
           ∧ assoc_get k kvn = Some v).

(** A box of the background-plane class (2), laid out as in
    [bbox_store]. *)
Definition plane_store : heap :=
  <[0%nat := ODict [("class_id", VInt 2); ("min", VRef 1%nat);
                    ("max", VRef 2%nat); ("normal", VRef 3%nat)]]>
  (<[1%nat := OList [100; 50]]>
  (<[2%nat := OList [200; 150]]>
  (<[3%nat := ODict [("origin", VRef 4%nat); ("end", VRef 5%nat)]]>
  (<[4%nat := OList [150; 100]]>
  (<[5%nat := OList [160; 100]]> ∅))))).

(** The sum of the entries of a kernel. *)
Definition kernel_weight (kernel : list (list Q)) : Q :=
  foldr Qplus 0%Q (concat kernel).

(** [Dataset.get_image_size(self)] *)
Definition get_image_size {A} (self : Dataset A) : option Z * option Z :=
  (width self, height self).




(** ** Frame and pose matching ([utils/extract_frame_pose.py], lines 139-174)

    The script is Python 2: [keys()] and [items()] are lists, and [/]
    on integers is floor division.  [self.images] and
    [self.annotations] are ordered dicts, modelled by their items in
    order; time stamps are integers, in nanoseconds. *)

Section FramePose.

(** The translation and the rotation of a pose message. *)
Context {T : Type}.

(** One value of [self.annotations] (lines 127-132). *)
Record PoseEntry : Type := mkPoseEntry {
  stamp : Z;
  stamp_readable : string;
  transform : T
}.

Definition TIME_STAMP_MAX_DIFF : Z := 5.

(** Lines 142-143: the first key is deleted, then the last; indexing
    an empty key list raises [IndexError]. *)
Definition crop_images (images : list (string * Z)) : result (list (string * Z)) :=
  match images with
  | [] => Raise IndexError
  | _ :: rest =>
      match rest with
      | [] => Raise IndexError
      | _ :: _ => Ok (take (length rest - 1) rest)
      end
  end.

(** Lines 148-174, the inner loop for one image: [items] is what is
    left of [self.annotations.items()] and [i] the loop counter.  The
    result is the pose written for the image and the value of [i]
    when the loop breaks; [None] when the loop ends without a
    candidate. *)
Fixpoint find_candidate (img_timestamp : Z) (annotations : list (string * PoseEntry))
    (i : nat) (items : list (string * PoseEntry)) : option (PoseEntry * nat) :=
  match items with
  | [] => None
  | (pose_name, pose) :: rest =>
      if img_timestamp <? stamp pose then
        let chosen :=
          if (0 <? i)%nat then
            match annotations !! (i - 1)%nat with
            | Some (_, prev_pose) =>
                if (img_timestamp - stamp prev_pose) `div` 1000000
                   <=? TIME_STAMP_MAX_DIFF
                then prev_pose else pose
            | None => pose
            end
          else pose in
        Some (chosen, S i)
      else find_candidate img_timestamp annotations (S i) rest
  end.

(** Lines 145-174, the outer loop: the rows written, each an image
    name with the pose whose fields fill the line; after a match
    [self.annotations] is cut to the items from [i] on. *)
Fixpoint match_images (images : list (string * Z))
    (annotations : list (string * PoseEntry)) : list (string * PoseEntry) :=
  match images with
  | [] => []
  | (img_name, img_timestamp) :: rest =>
      match find_candidate img_timestamp annotations 0 annotations with
      | Some (chosen, i) =>
          (img_name, chosen) :: match_images rest (drop i annotations)
      | None => match_images rest annotations
      end
  end.

(** [_write_csv(self)]: the rows that follow the header. *)
Definition write_csv (images : list (string * Z))
    (annotations : list (string * PoseEntry)) : result (list (string * PoseEntry)) :=
  match crop_images images with
  | Raise e => Raise e
  | Ok cropped => Ok (match_images cropped annotations)
  end.

End FramePose.

(** Four frames 10 ms apart and poses every 4 ms. *)
Definition demo_images : list (string * Z) :=
  [("f0", 0); ("f1", 10000000); ("f2", 20000000); ("f3", 30000000)].

Definition demo_poses : list (string * @PoseEntry unit) :=
  [("p0", mkPoseEntry 2000000 "p0" tt); ("p1", mkPoseEntry 6000000 "p1" tt);
   ("p2", mkPoseEntry 14000000 "p2" tt); ("p3", mkPoseEntry 18000000 "p3" tt);
   ("p4", mkPoseEntry 22000000 "p4" tt)].

(** ** Overlays ([dataset_factory.py], lines 253-273)

    What the two drawing functions ask of [ImageDraw]: a rectangle
    per box, from its ['min'] to its ['max'], and a line per normal,
    from its origin to its end. *)

Inductive colour : Type := Yellow | Green | Red.

Inductive shape : Type :=
| Rectangle (x0 y0 x1 y1 : Z) (outline : colour)
| Line (x0 y0 x1 y1 : Z) (fill : colour).

(** [d[k][i]] for a dict at [l] whose entry [k] refers to a list. *)
Definition coordinate (l : loc) (k : string) (i : nat) : M Z :=
  v <~ dict_get l k ;;
  match v with
  | VRef c => list_get c i
  | _ => throw TypeError
  end.

(** Lines 256-262: the rectangles of [draw_bounding_boxes], [i] being
    the position [enumerate] has reached. *)
Fixpoint draw_boxes_from (i : nat) (bboxes : list loc) (closest_gate : option nat)
  : M (list shape) :=
  match bboxes with
  | [] => ret []
  | bbox :: rest =>
      let c := match closest_gate with
               | Some g => if Nat.eqb i g then Green else Yellow
               | None => Yellow
               end in
      x0 <~ coordinate bbox "min" 0 ;;
      y0 <~ coordinate bbox "min" 1 ;;
      x1 <~ coordinate bbox "max" 0 ;;
      y1 <~ coordinate bbox "max" 1 ;;
      shapes <~ draw_boxes_from (S i) rest closest_gate ;;
      ret (Rectangle x0 y0 x1 y1 c :: shapes)
  end.

(** [draw_bounding_boxes(self, img, bboxes, closest_gate)] with the
    default colours. *)
Definition draw_bounding_boxes (bboxes : list loc) (closest_gate : option nat)
  : M (list shape) :=
  draw_boxes_from 0 bboxes closest_gate.

(** [draw_gate_normal(self, img, center, normal_gt)] on two list
    references. *)
Definition draw_gate_normal (center normal_gt : value) : M shape :=
  match center, normal_gt with
  | VRef c, VRef n =>
      x0 <~ list_get c 0 ;;
      y0 <~ list_get c 1 ;;
      x1 <~ list_get n 0 ;;
      y1 <~ list_get n 1 ;;
      ret (Line x0 y0 x1 y1 Red)
  | _, _ => throw TypeError
  end.

(** [draw_normals(self, img, bboxes)] *)
Fixpoint draw_normals (bboxes : list loc) : M (list shape) :=
  match bboxes with
  | [] => ret []
  | bbox :: rest =>
      cid <~ dict_get bbox "class_id" ;;
      if negb (value_eqb_int cid 2) then
        normal <~ dict_get bbox "normal" ;;
        origin <~ subscript normal "origin" ;;
        normal' <~ dict_get bbox "normal" ;;
        end_ <~ subscript normal' "end" ;;
        line <~ draw_gate_normal origin end_ ;;
        shapes <~ draw_normals rest ;;
        ret (line :: shapes)
      else draw_normals rest
  end.

(** The boxes of a list whose class is not 2, in a given store. *)
Definition is_gate (h : heap) (bbox : loc) : bool :=
  match h !! bbox with
  | Some (ODict kvs) =>
      match assoc_get "class_id" kvs with
      | Some cid => negb (value_eqb_int cid 2)
      | None => false
      end
  | _ => false
  end.

(* ===================================================================== *)
(** * Theorems *)
(* ===================================================================== *)

(** ** Coordinate rescaling *)

(** *** True division below 2^53 *)

Lemma pow2_num_pos (e : Z) : 0 < pow2_num e.
Proof. unfold pow2_num. apply Z.pow_pos_nonneg; lia. Qed.

Lemma pow2_den_pos (e : Z) : 0 < pow2_den e.
Proof. unfold pow2_den. apply Z.pow_pos_nonneg; lia. Qed.

Lemma pow2_nonneg (e : Z) : 0 ≤ e → pow2_num e = 2 ^ e ∧ pow2_den e = 1.
Proof.
  intros H. unfold pow2_num, pow2_den.
  rewrite Z.max_l by lia. rewrite Z.max_r by lia. split; reflexivity.
Qed.

Lemma pow2_nonpos (e : Z) : e ≤ 0 → pow2_num e = 1 ∧ pow2_den e = 2 ^ (- e).
Proof.
  intros H. unfold pow2_num, pow2_den.
  rewrite Z.max_r by lia. rewrite Z.max_l by lia. split; reflexivity.
Qed.

(** [floor_log2 n d] brackets the quotient:
    [2^k <= n/d < 2^(k+1)]. *)
Lemma floor_log2_spec (n d : Z) :
  0 < n → 0 < d →
  d * pow2_num (floor_log2 n d) ≤ n * pow2_den (floor_log2 n d) ∧
  n * pow2_den (floor_log2 n d + 1) < d * pow2_num (floor_log2 n d + 1).
Proof.
  intros Hn Hd.
  destruct (Z.log2_spec n Hn) as [Hn1 Hn2].
  destruct (Z.log2_spec d Hd) as [Hd1 Hd2].
  pose proof (Z.log2_nonneg n) as Ha. pose proof (Z.log2_nonneg d) as Hb.
  unfold floor_log2.
  set (a := Z.log2 n) in *. set (b := Z.log2 d) in *.
  rewrite Z.pow_succ_r in Hn2, Hd2 by lia.
  assert (0 < 2 ^ a) as Pa by (apply Z.pow_pos_nonneg; lia).
  assert (0 < 2 ^ b) as Pb by (apply Z.pow_pos_nonneg; lia).
  destruct (Z.ltb_spec (n * pow2_den (a - b)) (d * pow2_num (a - b))) as [T|T].
  - replace (a - b - 1 + 1) with (a - b) by lia. split; [|exact T].
    destruct (Z_le_gt_dec 0 (a - b - 1)) as [S|S].
    + destruct (pow2_nonneg _ S) as [-> ->].
      assert (2 ^ a = 2 ^ (a - b - 1) * (2 * 2 ^ b)) as E.
      { rewrite <- Z.pow_succ_r by lia. rewrite <- Z.pow_add_r by lia. f_equal. lia. }
      assert (0 < 2 ^ (a - b - 1)) by (apply Z.pow_pos_nonneg; lia).
      nia.
    + destruct (pow2_nonpos (a - b - 1)) as [-> ->]; [lia|].
      assert (2 * 2 ^ b = 2 ^ a * 2 ^ (- (a - b - 1))) as E.
      { rewrite <- Z.pow_succ_r by lia. rewrite <- Z.pow_add_r by lia. f_equal. lia. }
      assert (0 < 2 ^ (- (a - b - 1))) by (apply Z.pow_pos_nonneg; lia).
      nia.
  - split; [lia|].
    destruct (Z_le_gt_dec 0 (a - b + 1)) as [S|S].
    + destruct (pow2_nonneg _ S) as [-> ->].
      assert (2 * 2 ^ a = 2 ^ (a - b + 1) * 2 ^ b) as E.
      { rewrite <- Z.pow_succ_r by lia. rewrite <- Z.pow_add_r by lia. f_equal. lia. }
      assert (0 < 2 ^ (a - b + 1)) by (apply Z.pow_pos_nonneg; lia).
      nia.
    + destruct (pow2_nonpos (a - b + 1)) as [-> ->]; [lia|].
      assert (2 ^ b = 2 * 2 ^ a * 2 ^ (- (a - b + 1))) as E.
      { rewrite <- (Z.pow_succ_r 2 a) by lia. rewrite <- Z.pow_add_r by lia.
        f_equal. lia. }
      assert (0 < 2 ^ (- (a - b + 1))) by (apply Z.pow_pos_nonneg; lia).
      nia.
Qed.

Lemma round_half_even_spec (N D : Z) :
  0 < D →
  N `div` D ≤ round_half_even N D ≤ N `div` D + 1 ∧
  (round_half_even N D = N `div` D + 1 → D ≤ 2 * (N `mod` D)).
Proof.
  intros HD. unfold round_half_even.
  destruct (Z.ltb_spec D (2 * (N `mod` D))); cbn [orb].
  - split; lia.
  - destruct (Z.eqb_spec D (2 * (N `mod` D))); cbn [andb].
    + destruct (Z.odd (N `div` D)); split; lia.
    + split; lia.
Qed.

(** A quotient with a numerator below 2^53 is rounded to a binary64
    with the same integer part: the nearest binary64 is too close to
    reach the next integer. *)
Lemma round64_small (n d : Z) :
  0 < n < 2 ^ 53 → 0 < d →
  overflows (round64 n d) = false ∧ trunc64 (round64 n d) = n `div` d.
Proof.
  intros [Hn Hn53] Hd.
  destruct (floor_log2_spec n d Hn Hd) as [L U].
  unfold round64, binade, trunc64, overflows. cbn [fst snd].
  set (k := floor_log2 n d) in *.
  assert (k ≤ 52) as Hk.
  { destruct (Z_le_gt_dec k 52) as [|G]; [assumption|exfalso].
    destruct (pow2_nonneg k) as [E1 E2]; [lia|]. rewrite E1, E2 in L.
    assert (2 ^ 53 ≤ 2 ^ k) by (apply Z.pow_le_mono_r; lia). nia. }
  set (e := Z.max (k - 52) (-1074)).
  assert (e ≤ 0) as He by lia.
  destruct (pow2_nonpos e He) as [-> ->].
  set (P := 2 ^ (- e)).
  assert (0 < P) as HP by (apply Z.pow_pos_nonneg; lia).
  rewrite !Z.mul_1_r.
  destruct (round_half_even_spec (n * P) d Hd) as [[M1 M2] M3].
  set (m := round_half_even (n * P) d) in *.
  pose proof (Z.mul_div_le n d Hd) as K1.
  pose proof (Z.mul_succ_div_gt n d Hd) as K2.
  set (K := n `div` d) in *.
  assert (0 ≤ K) as K0 by (apply Z.div_pos; lia).
  pose proof (Z.mul_div_le (n * P) d Hd) as F1.
  pose proof (Z.mul_succ_div_gt (n * P) d Hd) as F2.
  pose proof (Z.mod_eq (n * P) d ltac:(lia)) as R.
  set (F := (n * P) `div` d) in *.
  set (r := (n * P) `mod` d) in *.
  assert (K * P ≤ F) as Lo by nia.
  assert (F < (K + 1) * P) as Up0 by nia.
  assert (m < (K + 1) * P) as Up.
  { destruct (Z.eq_dec m F) as [->|Hm]; [assumption|].
    assert (m = F + 1) as Em by lia. specialize (M3 Em).
    destruct (Z_lt_ge_dec (F + 1) ((K + 1) * P)) as [|G]; [lia|exfalso].
    assert (F + 1 = (K + 1) * P) as EF by lia.
    assert (2 * P ≤ d) as HdP by nia.
    destruct (Z_le_gt_dec (-1074) (k - 52)) as [N|C].
    - (* a normal number *)
      assert (d * 2 ^ 52 ≤ n * P) as Nl.
      { subst P e. rewrite Z.max_l by lia.
        destruct (Z_le_gt_dec 0 k) as [S|S].
        - destruct (pow2_nonneg k S) as [E1 E2]. rewrite E1, E2 in L.
          replace (2 ^ 52) with (2 ^ k * 2 ^ (- (k - 52))).
          + assert (0 < 2 ^ (- (k - 52))) by (apply Z.pow_pos_nonneg; lia). nia.
          + rewrite <- Z.pow_add_r by lia. f_equal. lia.
        - destruct (pow2_nonpos k) as [E1 E2]; [lia|]. rewrite E1, E2 in L.
          replace (2 ^ (- (k - 52))) with (2 ^ (- k) * 2 ^ 52).
          + assert (0 < 2 ^ 52) by (apply Z.pow_pos_nonneg; lia). nia.
          + rewrite <- Z.pow_add_r by lia. f_equal. lia. }
      assert (0 < 2 ^ 52) by (apply Z.pow_pos_nonneg; lia).
      assert (2 ^ 53 = 2 * 2 ^ 52) as E53
        by (rewrite <- Z.pow_succ_r by lia; reflexivity).
      nia.
    - (* a subnormal number *)
      destruct (pow2_nonpos (k + 1)) as [E1 E2]; [lia|]. rewrite E1, E2 in U.
      assert (P = 2 ^ 1074) as EP
        by (subst P e; rewrite Z.max_r by lia; reflexivity).
      assert (2 ^ 1022 ≤ 2 ^ (- (k + 1))) by (apply Z.pow_le_mono_r; lia).
      assert (2 ^ 1074 = 2 ^ 1022 * 2 ^ 52) as E
        by (rewrite <- Z.pow_add_r by lia; reflexivity).
      assert (0 < 2 ^ 52) by (apply Z.pow_pos_nonneg; lia).
      assert (0 < 2 ^ 1022) by (apply Z.pow_pos_nonneg; lia).
      assert (2 ^ 52 < 2 ^ 1074) by (apply Z.pow_lt_mono_r; lia).
      assert (n * 2 ^ 1022 < d) as S1 by nia.
      assert (F * d < 2 ^ 52 * d) as S2 by (rewrite EP, E in F1; nia).
      assert (F < 2 ^ 52) as S3 by nia.
      assert (P ≤ (K + 1) * P) as S4 by nia.
      lia. }
  split.
  - apply Z.leb_gt.
    assert (2 ^ 53 ≤ 2 ^ 1024) by (apply Z.pow_le_mono_r; lia).
    assert (K + 1 ≤ 2 ^ 53) by nia.
    generalize dependent (2 ^ 1024). generalize dependent (2 ^ 53). intros. nia.
  - symmetry. apply (Z.div_unique_pos m P K (m - K * P)); lia.
Qed.

(** Below 2^53 in magnitude, [int(a / b)] is the integer quotient
    truncated toward zero. *)
Lemma int_true_div_exact (a b : Z) :
  b ≠ 0 → Z.abs a < 2 ^ 53 → int_true_div a b = Ok (Z.quot a b).
Proof.
  intros Hb Ha. unfold int_true_div.
  destruct (Z.eqb_spec b 0) as [|_]; [contradiction|].
  destruct (Z.eqb_spec a 0) as [->|Ha0].
  - rewrite Z.quot_0_l by assumption. reflexivity.
  - destruct (round64_small (Z.abs a) (Z.abs b)) as [-> ->]; [lia|lia|].
    f_equal. symmetry. apply Z.quot_div. assumption.
Qed.

Lemma scale_value_exact (a t b : Z) :
  b ≠ 0 → Z.abs (a * t) < 2 ^ 53 →
  scale_value a t b = Ok (Z.quot (a * t) b).
Proof. apply int_true_div_exact. Qed.

Lemma scale_value_zero (a t : Z) : scale_value a t 0 = Raise ZeroDivisionError.
Proof. reflexivity. Qed.

(** Above 2^53 the quotient can be rounded: [int((2^53 + 1) * 1 / 1)]
    is [2^53]. *)
Example scale_value_rounds :
  scale_value (2 ^ 53 + 1) 1 1 = Ok (2 ^ 53)
  ∧ scale_value (2 ^ 53 + 3) (2 ^ 53 + 4) (2 ^ 53 + 4) = Ok (2 ^ 53 + 4)
  ∧ scale_value (2 ^ 1024) 1 1 = Raise OverflowError.
Proof. vm_compute. repeat split; reflexivity. Qed.

(** *** [scale_coordinates] *)

Lemma scale_coordinates_ok (base tgt : Z * Z) (c : loc) (x y x' y' : Z)
    (rest : list Z) (h : heap) :
  h !! c = Some (OList (x :: y :: rest)) →
  scale_value x (fst tgt) (fst base) = Ok x' →
  scale_value y (snd tgt) (snd base) = Ok y' →
  scale_coordinates base (VRef c) tgt h
  = (Ok (VRef c), <[c := OList (x' :: y' :: rest)]> h).
Proof.
  intros Hc Hx Hy.
  unfold scale_coordinates, bind, list_get, list_set, lift, ret.
  rewrite Hc. simpl. rewrite Hx. rewrite Hc. simpl.
  rewrite lookup_insert_eq. simpl. rewrite Hy.
  rewrite lookup_insert_eq. simpl.
  by rewrite insert_insert_eq.
Qed.

Lemma scale_coordinates_inv (base tgt : Z * Z) (v r : value) (h h' : heap) :
  scale_coordinates base v tgt h = (Ok r, h') →
  ∃ c x y rest x' y',
    v = VRef c ∧ r = VRef c ∧
    h !! c = Some (OList (x :: y :: rest)) ∧
    scale_value x (fst tgt) (fst base) = Ok x' ∧
    scale_value y (snd tgt) (snd base) = Ok y' ∧
    h' = <[c := OList (x' :: y' :: rest)]> h.
Proof.
  intros H.
  destruct v as [| | |s|a b|c]; try discriminate.
  - simpl in H. destruct (String.eqb s ""); discriminate.
  - simpl in H. unfold bind, lift, throw in H.
    destruct a; try discriminate;
      match type of H with
      | context [scale_value ?a ?t ?b] => destruct (scale_value a t b)
      end; discriminate.
  - unfold scale_coordinates, bind, list_get, list_set, lift, ret in H.
    destruct (h !! c) as [[xs|kvs]|] eqn:Hc; try discriminate.
    destruct xs as [|x xs]; [discriminate|]. simpl in H.
    destruct (scale_value x (fst tgt) (fst base)) as [x'|e] eqn:Hx; [|discriminate].
    rewrite Hc in H. simpl in H. rewrite lookup_insert_eq in H.
    destruct xs as [|y rest]; [discriminate|]. simpl in H.
    destruct (scale_value y (snd tgt) (snd base)) as [y'|e] eqn:Hy; [|discriminate].
    rewrite lookup_insert_eq in H. simpl in H. rewrite insert_insert_eq in H.
    inversion H; subst. by exists c, x, y, rest, x', y'.
Qed.

Lemma same_shape_refl (h : heap) : same_shape h h.
Proof. intros l. by destruct (h !! l) as [[?|?]|]. Qed.

Lemma same_shape_trans (h1 h2 h3 : heap) :
  same_shape h1 h2 → same_shape h2 h3 → same_shape h1 h3.
Proof.
  intros H12 H23 l. specialize (H12 l). specialize (H23 l).
  destruct (h1 !! l) as [[?|?]|], (h2 !! l) as [[?|?]|], (h3 !! l) as [[?|?]|];
    try done; congruence.
Qed.

Lemma same_shape_dict (h h' : heap) (l : loc) (kvs : list (string * value)) :
  same_shape h h' → h !! l = Some (ODict kvs) → h' !! l = Some (ODict kvs).
Proof.
  intros Hs Hl. specialize (Hs l). rewrite Hl in Hs.
  destruct (h' !! l) as [[?|?]|]; try done. by subst.
Qed.

Lemma same_shape_wf (h h' : heap) : same_shape h h' → wf_heap h → wf_heap h'.
Proof.
  intros Hs Hwf l kvs Hl. apply (Hwf l). specialize (Hs l). rewrite Hl in Hs.
  destruct (h !! l) as [[?|?]|]; try done. by subst.
Qed.

Lemma same_shape_insert_list (h : heap) (l : loc) (xs xs' : list Z) :
  h !! l = Some (OList xs) → length xs = length xs' →
  same_shape h (<[l := OList xs']> h).
Proof.
  intros Hl Hlen l'. destruct (decide (l = l')) as [<-|Hne].
  - by rewrite Hl, lookup_insert_eq.
  - rewrite lookup_insert_ne by done. by destruct (h !! l') as [[?|?]|].
Qed.

Lemma scale_coordinates_shape (base tgt : Z * Z) (v : value) (h h' : heap)
    (r : result value) :
  scale_coordinates base v tgt h = (r, h') → same_shape h h'.
Proof.
  destruct v as [| | |s|a b|c]; simpl;
    try (intros [= <- <-]; apply same_shape_refl).
  - destruct (String.eqb s ""); intros [= <- <-]; apply same_shape_refl.
  - unfold bind, lift, throw.
    destruct a; try (intros [= <- <-]; apply same_shape_refl);
      match goal with
      | |- context [scale_value ?a ?t ?b] => destruct (scale_value a t b)
      end; intros [= <- <-]; apply same_shape_refl.
  - unfold scale_coordinates, bind, list_get, list_set, lift, ret.
    destruct (h !! c) as [[xs|kvs]|] eqn:Hc;
      try (intros [= <- <-]; apply same_shape_refl).
    destruct xs as [|x xs]; simpl;
      try (intros [= <- <-]; apply same_shape_refl).
    destruct (scale_value x (fst tgt) (fst base)) as [x'|e];
      try (intros [= <- <-]; apply same_shape_refl).
    rewrite Hc. simpl. rewrite lookup_insert_eq.
    destruct xs as [|y xs]; simpl.
    { intros [= <- <-]. by apply (same_shape_insert_list h c [x]). }
    destruct (scale_value y (snd tgt) (snd base)) as [y'|e].
    2:{ intros [= <- <-]. by apply (same_shape_insert_list h c (x :: y :: xs)). }
    rewrite lookup_insert_eq. simpl. rewrite insert_insert_eq.
    intros [= <- <-]. by apply (same_shape_insert_list h c (x :: y :: xs)).
Qed.

Lemma assoc_set_same (k : string) (v : value) (kvs : list (string * value)) :
  assoc_get k kvs = Some v → assoc_set k v kvs = kvs.
Proof.
  induction kvs as [|[k' v'] kvs IH]; simpl; [done|].
  destruct (String.eqb k k'); [by intros [= ->]|].
  intros H. by rewrite IH.
Qed.

Lemma assoc_get_NoDup (k : string) (v : value) (kvs : list (string * value)) :
  NoDup (kvs.*1) → (k, v) ∈ kvs → assoc_get k kvs = Some v.
Proof.
  induction kvs as [|[k' v'] kvs IH]; simpl; intros Hnd Hin.
  - by apply elem_of_nil in Hin.
  - apply NoDup_cons in Hnd as [Hk' Hnd].
    apply elem_of_cons in Hin as [[= -> ->]|Hin].
    + by rewrite String.eqb_refl.
    + destruct (String.eqb_spec k k') as [->|_]; [|by apply IH].
      exfalso. apply Hk'. apply list_elem_of_fmap. by exists (k', v).
Qed.

Lemma dict_get_inv (l : loc) (k : string) (h h' : heap) (r : result value) :
  dict_get l k h = (r, h') →
  h' = h ∧ ∀ v, r = Ok v →
    ∃ kvs, h !! l = Some (ODict kvs) ∧ assoc_get k kvs = Some v.
Proof.
  unfold dict_get. destruct (h !! l) as [[xs|kvs]|];
    try (intros [= <- <-]; split; [done|intros ? [=]]).
  destruct (assoc_get k kvs) as [v|] eqn:E; intros [= <- <-]; split; try done.
  intros ? [= <-]. by exists kvs.
Qed.

Lemma subscript_inv (x : value) (k : string) (h h' : heap) (r : result value) :
  subscript x k h = (r, h') →
  h' = h ∧ ∀ v, r = Ok v →
    ∃ l kvs, x = VRef l ∧ h !! l = Some (ODict kvs) ∧ assoc_get k kvs = Some v.
Proof.
  destruct x as [| | | | |l]; simpl;
    try (intros [= <- <-]; split; [done|intros ? [=]]).
  intros H. apply dict_get_inv in H as [-> H]. split; [done|].
  intros v Hv. destruct (H v Hv) as (kvs & ? & ?). by exists l, kvs.
Qed.

Lemma dict_set_same (l : loc) (k : string) (v : value) (h : heap)
    (kvs : list (string * value)) :
  h !! l = Some (ODict kvs) → assoc_get k kvs = Some v →
  dict_set l k v h = (Ok tt, h).
Proof.
  intros Hl Hk. unfold dict_set. rewrite Hl, (assoc_set_same _ _ _ Hk).
  by rewrite insert_id.
Qed.

Lemma dict_get_same (l : loc) (k : string) (v : value) (h : heap)
    (kvs : list (string * value)) :
  h !! l = Some (ODict kvs) → assoc_get k kvs = Some v →
  dict_get l k h = (Ok v, h).
Proof. intros Hl Hk. unfold dict_get. by rewrite Hl, Hk. Qed.

(** Scaling one item changes list contents only: the dict it came from
    and every other dict keep their items. *)
Lemma scale_item_shape (base size : Z * Z) (bbox : loc)
    (kvs : list (string * value)) (key : string) (val : value)
    (h h' : heap) (r : result unit) :
  h !! bbox = Some (ODict kvs) → assoc_get key kvs = Some val →
  scale_item base size bbox bbox (key, val) h = (r, h') →
  same_shape h h'.
Proof.
  intros Hb Hk. unfold scale_item.
  destruct (String.eqb key "min" || String.eqb key "max").
  { unfold bind.
    destruct (scale_coordinates base val size h) as [[r1|e] h1] eqn:E.
    - pose proof (scale_coordinates_shape _ _ _ _ _ _ E) as Hs.
      apply scale_coordinates_inv in E as (c & x & y & rest & x' & y' & -> & -> & _).
      rewrite (dict_set_same bbox key (VRef c) h1 kvs
                 (same_shape_dict _ _ _ _ Hs Hb) Hk).
      by intros [= <- <-].
    - intros [= <- <-]. by apply scale_coordinates_shape in E. }
  destruct (String.eqb key "normal"); [|intros [= <- <-]; apply same_shape_refl].
  unfold bind.
  destruct (dict_get bbox "class_id" h) as [[cid|e] h0] eqn:E0;
    apply dict_get_inv in E0 as [-> _];
    [|intros [= <- <-]; apply same_shape_refl].
  destruct (negb (value_eqb_int cid 2)); [|intros [= <- <-]; apply same_shape_refl].
  destruct (subscript val "origin" h) as [[o|e] h0] eqn:Eo;
    apply subscript_inv in Eo as [-> Ho];
    [|intros [= <- <-]; apply same_shape_refl].
  destruct (Ho o eq_refl) as (lv & kv2 & -> & Hlv & Horigin).
  destruct (scale_coordinates base o size h) as [[o'|e] h1] eqn:E1;
    [|intros [= <- <-]; by apply scale_coordinates_shape in E1].
  pose proof (scale_coordinates_shape _ _ _ _ _ _ E1) as Hs1.
  apply scale_coordinates_inv in E1 as (c & x & y & rest & x' & y' & -> & -> & _).
  rewrite (dict_get_same bbox key (VRef lv) h1 kvs
             (same_shape_dict _ _ _ _ Hs1 Hb) Hk).
  simpl subscript_set.
  rewrite (dict_set_same lv "origin" (VRef c) h1 kv2
             (same_shape_dict _ _ _ _ Hs1 Hlv) Horigin).
  destruct (subscript (VRef lv) "end" h1) as [[e|e] h0] eqn:Ee;
    apply subscript_inv in Ee as [-> He];
    [|by intros [= <- <-]].
  destruct (He e eq_refl) as (lv' & kv2' & [= <-] & Hlv' & Hend).
  destruct (scale_coordinates base e size h1) as [[e'|ex] h2] eqn:E2.
  2:{ intros [= <- <-]. apply scale_coordinates_shape in E2.
      by apply (same_shape_trans h h1 h2). }
  pose proof (scale_coordinates_shape _ _ _ _ _ _ E2) as Hs2.
  apply scale_coordinates_inv in E2 as (c2 & x2 & y2 & rest2 & x2' & y2' & -> & -> & _).
  pose proof (same_shape_trans _ _ _ Hs1 Hs2) as Hs.
  rewrite (dict_get_same bbox key (VRef lv) h2 kvs
             (same_shape_dict _ _ _ _ Hs Hb) Hk).
  simpl subscript_set.
  rewrite (dict_set_same lv "end" (VRef c2) h2 kv2'
             (same_shape_dict _ _ _ _ Hs2 Hlv') Hend).
  by intros [= <- <-].
Qed.

Lemma for_each_scale_item_shape (base size : Z * Z) (bbox : loc)
    (kvs items : list (string * value)) (h h' : heap) (r : result unit) :
  h !! bbox = Some (ODict kvs) →
  (∀ kv, kv ∈ items → assoc_get kv.1 kvs = Some kv.2) →
  for_each (scale_item base size bbox bbox) items h = (r, h') →
  same_shape h h'.
Proof.
  revert h. induction items as [|[key val] items IH]; intros h Hb Hall;
    cbn [for_each].
  - intros [= <- <-]. apply same_shape_refl.
  - unfold bind.
    destruct (scale_item base size bbox bbox (key, val) h) as [[[]|e] h1] eqn:E.
    + assert (same_shape h h1) as Hs.
      { eapply scale_item_shape; [exact Hb| |exact E].
        apply (Hall (key, val)). apply elem_of_cons. left. reflexivity. }
      intros H. apply (same_shape_trans h h1 h'); [done|].
      apply (IH h1); [exact (same_shape_dict _ _ _ _ Hs Hb)| |exact H].
      intros kv Hin. apply Hall. apply elem_of_cons. by right.
    + intros [= <- <-]. eapply scale_item_shape; [exact Hb| |exact E].
      apply (Hall (key, val)). apply elem_of_cons. left. reflexivity.
Qed.

Lemma scale_bbox_shape (base size : Z * Z) (bbox : loc) (h h' : heap)
    (r : result loc) :
  wf_heap h → scale_bbox base size bbox h = (r, h') →
  same_shape h h' ∧ ∀ s, r = Ok s → s = bbox.
Proof.
  intros Hwf. unfold scale_bbox, bind, dict_items, ret.
  destruct (h !! bbox) as [[xs|kvs]|] eqn:Hb;
    try (intros [= <- <-]; split; [apply same_shape_refl|intros ? [=]]).
  destruct (for_each (scale_item base size bbox bbox) kvs h) as [[[]|e] h1] eqn:E;
    intros [= <- <-]; (split; [|by intros ? [=]]);
    (eapply for_each_scale_item_shape; [exact Hb| |exact E]);
    intros [k v] Hin; apply assoc_get_NoDup; try done; by apply (Hwf bbox).
Qed.

Lemma scale_bboxes_shape (base size : Z * Z) (bboxes : list loc) (h h' : heap)
    (r : result (list loc)) :
  wf_heap h → scale_bboxes base size bboxes h = (r, h') →
  same_shape h h' ∧ ∀ out, r = Ok out → out = bboxes.
Proof.
  revert h h' r. induction bboxes as [|b bboxes IH]; intros h h' r Hwf; simpl.
  - intros [= <- <-]. split; [apply same_shape_refl|by intros ? [= <-]].
  - unfold bind.
    destruct (scale_bbox base size b h) as [[s|e] h1] eqn:E;
      apply scale_bbox_shape in E as [Hs Hr]; try done.
    2:{ intros [= <- <-]. split; [done|intros ? [=]]. }
    rewrite (Hr s eq_refl).
    destruct (scale_bboxes base size bboxes h1) as [[ss|e] h2] eqn:E2;
      apply IH in E2 as [Hs2 Hr2]; try by eapply same_shape_wf.
    + intros [= <- <-]. split; [by eapply same_shape_trans|].
      intros ? [= <-]. by rewrite (Hr2 ss eq_refl).
    + intros [= <- <-]. split; [by eapply same_shape_trans|intros ? [=]].
Qed.

(** An executable check of [wf_heap]. *)
Lemma wf_heap_check (h : heap) :
  forallb (λ lo, match lo.2 with
                 | ODict kvs => bool_decide (NoDup (kvs.*1))
                 | OList _ => true
                 end) (map_to_list h) = true →
  wf_heap h.
Proof.
  intros H l kvs Hl.
  rewrite forallb_forall in H.
  assert (In (l, ODict kvs) (map_to_list h)) as Hin.
  { apply list_elem_of_In. by apply elem_of_map_to_list. }
  apply H in Hin. simpl in Hin. by apply bool_decide_eq_true in Hin.
Qed.

(** C3 as the specification words it fails at a negative coordinate:
    [int(-3 * 1 / 2)] is [-1], the floor of [-3/2] is [-2]. *)
Lemma scale_is_floor_counterexample : ¬ scale_is_floor.
Proof.
  intros H.
  specialize (H 2 2 1 1 (-3) 5 [] 0%nat {[0%nat := OList [-3; 5]]}).
  vm_compute in H.
  assert (Some (OList [-1; 2]) = Some (OList [-2; 2])) as E by (by apply H).
  discriminate E.
Qed.

(** C3 (amended).  With a non-zero base resolution and products
    [x*Wo], [y*Ho] below 2^53 in magnitude, where the binary64 quotient
    of lines 196-201 has the integer part of the exact one,
    [scale_coordinates] stores and returns
    [(trunc(x*Wo/Wb), trunc(y*Ho/Hb))], truncation being toward zero;
    on a non-negative product at a positive base resolution this is
    the floor [x*Wo/Wb]; each component depends on its own axis only
    and, in that range, is monotonic in its input. *)
Theorem scale_coordinates_truncates (Wb Hb Wo Ho x y : Z) (rest : list Z)
    (c : loc) (h : heap) :
  Wb ≠ 0 → Hb ≠ 0 →
  Z.abs (x * Wo) < 2 ^ 53 → Z.abs (y * Ho) < 2 ^ 53 →
  h !! c = Some (OList (x :: y :: rest)) →
  scale_coordinates (Wb, Hb) (VRef c) (Wo, Ho) h
  = (Ok (VRef c),
     <[c := OList (Z.quot (x * Wo) Wb :: Z.quot (y * Ho) Hb :: rest)]> h)
  ∧ (0 < Wb → 0 ≤ x * Wo → Z.quot (x * Wo) Wb = (x * Wo) `div` Wb)
  ∧ (0 < Hb → 0 ≤ y * Ho → Z.quot (y * Ho) Hb = (y * Ho) `div` Hb)
  ∧ (∀ x2, 0 < Wb → 0 ≤ Wo → x ≤ x2 → Z.abs (x2 * Wo) < 2 ^ 53 →
       ∃ r2, scale_value x2 Wo Wb = Ok r2 ∧ Z.quot (x * Wo) Wb ≤ r2)
  ∧ (∀ y2, 0 < Hb → 0 ≤ Ho → y ≤ y2 → Z.abs (y2 * Ho) < 2 ^ 53 →
       ∃ r2, scale_value y2 Ho Hb = Ok r2 ∧ Z.quot (y * Ho) Hb ≤ r2).
Proof.
  intros HW HH Hx Hy Hc. split; [|repeat split].
  - apply (scale_coordinates_ok (Wb, Hb) (Wo, Ho) c x y _ _ rest h Hc);
      by apply scale_value_exact.
  - intros. by apply Z.quot_div_nonneg.
  - intros. by apply Z.quot_div_nonneg.
  - intros x2 ? ? ? Hx2. eexists. split; [by apply scale_value_exact|].
    apply Z.quot_le_mono; [done|]. by apply Z.mul_le_mono_nonneg_r.
  - intros y2 ? ? ? Hy2. eexists. split; [by apply scale_value_exact|].
    apply Z.quot_le_mono; [done|]. by apply Z.mul_le_mono_nonneg_r.
Qed.

Lemma scale_coordinates_truncates_witness :
  scale_coordinates (640, 480) (VRef 0%nat) (320, 240)
    {[0%nat := OList [100; 50]]}
  = (Ok (VRef 0%nat),
     <[0%nat := OList [Z.quot (100 * 320) 640; Z.quot (50 * 240) 480]]>
       {[0%nat := OList [100; 50]]}).
Proof.
  refine (proj1 (scale_coordinates_truncates 640 480 320 240 100 50 [] 0%nat
                   {[0%nat := OList [100; 50]]} _ _ _ _ _)).
  - lia.
  - lia.
  - reflexivity.
  - reflexivity.
  - reflexivity.
Defined.

(** After scaling from 640x480 to 320x240 the list of scaled boxes is
    the renderer's own dict at 0, the dicts are as they were, and the
    four coordinate lists hold the scaled numbers only. *)
Example scale_bboxes_example :
  scale_bboxes (640, 480) (320, 240) [0%nat] bbox_store
  = (Ok [0%nat],
     <[0%nat := ODict [("class_id", VInt 1); ("min", VRef 1%nat);
                       ("max", VRef 2%nat); ("normal", VRef 3%nat)]]>
     (<[1%nat := OList [50; 25]]>
     (<[2%nat := OList [100; 75]]>
     (<[3%nat := ODict [("origin", VRef 4%nat); ("end", VRef 5%nat)]]>
     (<[4%nat := OList [75; 50]]>
     (<[5%nat := OList [80; 50]]> ∅)))))).
Proof. vm_compute. reflexivity. Qed.

(** *** The loop of [generate] as a sequence of in-place scalings *)

Lemma scale_all_cons (base size : Z * Z) (v : value) (ts : list value) (h : heap) :
  scale_all base size (v :: ts) h
  = match scale_coordinates base v size h with
    | (Ok _, h1) => scale_all base size ts h1
    | (Raise e, h1) => (Raise e, h1)
    end.
Proof.
  unfold scale_all. cbn [for_each]. unfold bind, ret.
  by destruct (scale_coordinates base v size h) as [[?|?] ?].
Qed.

Lemma scale_all_app (base size : Z * Z) (l1 l2 : list value) (h h1 h2 : heap) :
  scale_all base size l1 h = (Ok tt, h1) →
  scale_all base size l2 h1 = (Ok tt, h2) →
  scale_all base size (l1 ++ l2) h = (Ok tt, h2).
Proof.
  revert h. induction l1 as [|v l1 IH]; intros h.
  - by intros [= <-].
  - rewrite <- app_comm_cons, !scale_all_cons.
    destruct (scale_coordinates base v size h) as [[?|?] ?]; [|done].
    apply IH.
Qed.

Lemma scale_all_app_inv (base size : Z * Z) (l1 l2 : list value) (h h2 : heap) :
  scale_all base size (l1 ++ l2) h = (Ok tt, h2) →
  ∃ h1, scale_all base size l1 h = (Ok tt, h1)
        ∧ scale_all base size l2 h1 = (Ok tt, h2).
Proof.
  revert h. induction l1 as [|v l1 IH]; intros h.
  - intros H. by exists h.
  - rewrite <- app_comm_cons, !scale_all_cons.
    destruct (scale_coordinates base v size h) as [[?|?] ?]; [|done].
    apply IH.
Qed.

Lemma scale_coordinates_frame (base tgt : Z * Z) (v : value) (h h' : heap)
    (r : result value) (l : loc) :
  v ≠ VRef l → scale_coordinates base v tgt h = (r, h') → h' !! l = h !! l.
Proof.
  intros Hne.
  destruct v as [| | |s|a b|c]; simpl; try (by intros [= _ <-]).
  - destruct (String.eqb s ""); by intros [= _ <-].
  - unfold bind, lift, throw.
    destruct a; try (by intros [= _ <-]);
      match goal with
      | |- context [scale_value ?a ?t ?b] => destruct (scale_value a t b)
      end; by intros [= _ <-].
  - assert (c ≠ l) as Hcl by congruence.
    unfold scale_coordinates, bind, list_get, list_set, lift, ret.
    destruct (h !! c) as [[xs|kvs]|] eqn:Hc; try (by intros [= _ <-]).
    destruct xs as [|x xs]; simpl; [by intros [= _ <-]|].
    destruct (scale_value x (fst tgt) (fst base)) as [x'|e]; [|by intros [= _ <-]].
    rewrite Hc. simpl. rewrite lookup_insert_eq.
    destruct xs as [|y xs]; simpl.
    { intros [= _ <-]. by rewrite lookup_insert_ne. }
    destruct (scale_value y (snd tgt) (snd base)) as [y'|e].
    2:{ intros [= _ <-]. by rewrite lookup_insert_ne. }
    rewrite lookup_insert_eq. simpl. rewrite insert_insert_eq.
    intros [= _ <-]. by rewrite lookup_insert_ne.
Qed.

Lemma scale_all_frame (base size : Z * Z) (ts : list value) (h h' : heap)
    (r : result unit) (l : loc) :
  VRef l ∉ ts → scale_all base size ts h = (r, h') → h' !! l = h !! l.
Proof.
  revert h. induction ts as [|v ts IH]; intros h Hl.
  - by intros [= _ <-].
  - rewrite scale_all_cons.
    apply not_elem_of_cons in Hl as [Hv Hl].
    destruct (scale_coordinates base v size h) as [[?|?] h1] eqn:E;
      apply (scale_coordinates_frame _ _ _ _ _ _ l) in E; try done.
    + intros H. rewrite <- E. by apply IH.
    + by intros [= _ <-].
Qed.

Lemma item_targets_shape (h h' : heap) (kvs : list (string * value))
    (kv : string * value) :
  same_shape h h' → item_targets h kvs kv = item_targets h' kvs kv.
Proof.
  intros Hs. destruct kv as [key val]. unfold item_targets.
  destruct (String.eqb key "min" || String.eqb key "max"); [done|].
  destruct (String.eqb key "normal"); [|done].
  destruct (assoc_get "class_id" kvs) as [cid|]; [|done].
  destruct val as [| | | | |n]; try done.
  destruct (negb (value_eqb_int cid 2)); [|done].
  specialize (Hs n).
  destruct (h !! n) as [[?|?]|], (h' !! n) as [[?|?]|]; try done. by subst.
Qed.

Lemma bbox_targets_shape (h h' : heap) (bbox : loc) :
  same_shape h h' → bbox_targets h bbox = bbox_targets h' bbox.
Proof.
  intros Hs. unfold bbox_targets. pose proof (Hs bbox) as Hb.
  destruct (h !! bbox) as [[?|kvs]|], (h' !! bbox) as [[?|kvs']|]; try done.
  subst kvs'. f_equal. apply list_fmap_ext. intros _ kv _.
  by apply item_targets_shape.
Qed.

(** One pass of the inner loop that completes has scaled the lists of
    its item, in order, and nothing else. *)
Lemma scale_item_targets (base size : Z * Z) (bbox : loc)
    (kvs : list (string * value)) (key : string) (val : value) (h h' : heap) :
  h !! bbox = Some (ODict kvs) → assoc_get key kvs = Some val →
  scale_item base size bbox bbox (key, val) h = (Ok tt, h') →
  scale_all base size (item_targets h kvs (key, val)) h = (Ok tt, h').
Proof.
  intros Hb Hk. unfold scale_item, item_targets.
  destruct (String.eqb key "min" || String.eqb key "max").
  { unfold bind. rewrite scale_all_cons.
    destruct (scale_coordinates base val size h) as [[r1|e] h1] eqn:E; [|done].
    pose proof (scale_coordinates_shape _ _ _ _ _ _ E) as Hs.
    apply scale_coordinates_inv in E as (c & x & y & rest & x' & y' & -> & -> & _).
    rewrite (dict_set_same bbox key (VRef c) h1 kvs
               (same_shape_dict _ _ _ _ Hs Hb) Hk).
    by intros [= <-]. }
  destruct (String.eqb_spec key "normal") as [->|_]; [|by intros [= <-]].
  unfold bind.
  destruct (dict_get bbox "class_id" h) as [[cid|e] hx] eqn:E0;
    apply dict_get_inv in E0 as [-> Hcid]; [|done].
  destruct (Hcid cid eq_refl) as (kvs' & Hb' & Hcid').
  rewrite Hb in Hb'. injection Hb' as <-. rewrite Hcid'.
  destruct (negb (value_eqb_int cid 2)).
  2:{ destruct val; by intros [= <-]. }
  destruct (subscript val "origin" h) as [[o|e] hx] eqn:Eo;
    apply subscript_inv in Eo as [-> Ho]; [|done].
  destruct (Ho o eq_refl) as (lv & kv2 & -> & Hlv & Horigin).
  rewrite Hlv, Horigin.
  destruct (scale_coordinates base o size h) as [[o'|e] h1] eqn:E1; [|done].
  pose proof (scale_coordinates_shape _ _ _ _ _ _ E1) as Hs1.
  pose proof E1 as E1'.
  apply scale_coordinates_inv in E1' as (c & x & y & rest & x' & y' & -> & -> & _).
  rewrite (dict_get_same bbox "normal" (VRef lv) h1 kvs
             (same_shape_dict _ _ _ _ Hs1 Hb) Hk).
  simpl subscript_set.
  rewrite (dict_set_same lv "origin" (VRef c) h1 kv2
             (same_shape_dict _ _ _ _ Hs1 Hlv) Horigin).
  destruct (subscript (VRef lv) "end" h1) as [[e|e] hx] eqn:Ee;
    apply subscript_inv in Ee as [-> He]; [|done].
  destruct (He e eq_refl) as (lv' & kv2' & [= <-] & Hlv' & Hend).
  rewrite (same_shape_dict _ _ _ _ Hs1 Hlv) in Hlv'. injection Hlv' as <-.
  rewrite Hend.
  destruct (scale_coordinates base e size h1) as [[e'|ex] h2] eqn:E2; [|done].
  pose proof (scale_coordinates_shape _ _ _ _ _ _ E2) as Hs2.
  pose proof E2 as E2'.
  apply scale_coordinates_inv in E2' as (c2 & x2 & y2 & rest2 & x2' & y2' & -> & -> & _).
  pose proof (same_shape_trans _ _ _ Hs1 Hs2) as Hs.
  rewrite (dict_get_same bbox "normal" (VRef lv) h2 kvs
             (same_shape_dict _ _ _ _ Hs Hb) Hk).
  simpl subscript_set.
  rewrite (dict_set_same lv "end" (VRef c2) h2 kv2
             (same_shape_dict _ _ _ _ Hs Hlv) Hend).
  intros [= <-].
  rewrite scale_all_cons, E1, scale_all_cons, E2. reflexivity.
Qed.

Lemma for_each_scale_item_targets (base size : Z * Z) (bbox : loc)
    (kvs items : list (string * value)) (h h' : heap) :
  h !! bbox = Some (ODict kvs) →
  (∀ kv, kv ∈ items → assoc_get kv.1 kvs = Some kv.2) →
  for_each (scale_item base size bbox bbox) items h = (Ok tt, h') →
  scale_all base size (concat (item_targets h kvs <$> items)) h = (Ok tt, h').
Proof.
  revert h. induction items as [|[key val] items IH]; intros h Hb Hall;
    cbn [for_each].
  - by intros [= <-].
  - unfold bind.
    destruct (scale_item base size bbox bbox (key, val) h) as [[[]|e] h1] eqn:E;
      [|done].
    assert (assoc_get key kvs = Some val) as Hk.
    { apply (Hall (key, val)). apply elem_of_cons. by left. }
    pose proof (scale_item_shape _ _ _ _ _ _ _ _ _ Hb Hk E) as Hs.
    intros H. rewrite fmap_cons. cbn [concat].
    apply (scale_all_app _ _ _ _ h h1).
    + by apply (scale_item_targets base size bbox kvs key val h h1).
    + rewrite (list_fmap_ext (item_targets h kvs) (item_targets h1 kvs) items)
        by (intros; by apply item_targets_shape).
      apply IH; [exact (same_shape_dict _ _ _ _ Hs Hb)| |exact H].
      intros kv Hin. apply Hall. apply elem_of_cons. by right.
Qed.

Lemma scale_bbox_targets (base size : Z * Z) (bbox s : loc) (h h' : heap) :
  wf_heap h → scale_bbox base size bbox h = (Ok s, h') →
  scale_all base size (bbox_targets h bbox) h = (Ok tt, h').
Proof.
  intros Hwf. unfold scale_bbox, bind, dict_items, ret, bbox_targets.
  destruct (h !! bbox) as [[xs|kvs]|] eqn:Hb; try done.
  destruct (for_each (scale_item base size bbox bbox) kvs h) as [[[]|e] h1] eqn:E;
    [|done].
  intros [= _ <-].
  apply (for_each_scale_item_targets base size bbox kvs kvs h h1); [done| |done].
  intros [k v] Hin. apply assoc_get_NoDup; [by apply (Hwf bbox)|done].
Qed.

Lemma scale_bboxes_targets (base size : Z * Z) (bboxes out : list loc)
    (h h' : heap) :
  wf_heap h → scale_bboxes base size bboxes h = (Ok out, h') →
  scale_all base size (scale_targets h bboxes) h = (Ok tt, h').
Proof.
  revert h out. induction bboxes as [|b bboxes IH]; intros h out Hwf; simpl.
  - by intros [= _ <-].
  - unfold bind.
    destruct (scale_bbox base size b h) as [[s|e] h1] eqn:E; [|done].
    destruct (scale_bboxes base size bboxes h1) as [[ss|e] h2] eqn:E2; [|done].
    intros [= _ <-].
    pose proof (proj1 (scale_bbox_shape _ _ _ _ _ _ Hwf E)) as Hs.
    unfold scale_targets. rewrite fmap_cons. cbn [concat].
    apply (scale_all_app _ _ _ _ h h1).
    + by eapply scale_bbox_targets.
    + rewrite (list_fmap_ext (bbox_targets h) (bbox_targets h1) bboxes)
        by (intros; by apply bbox_targets_shape).
      eapply IH; [by eapply same_shape_wf|exact E2].
Qed.

(** A list named once in a sequence that was scaled to the end holds
    its two scaled numbers. *)
Lemma scale_all_once (base size : Z * Z) (before after : list value) (c : loc)
    (h h' : heap) :
  scale_all base size (before ++ VRef c :: after) h = (Ok tt, h') →
  VRef c ∉ before → VRef c ∉ after →
  ∃ x y rest x' y',
    h !! c = Some (OList (x :: y :: rest))
    ∧ scale_value x (fst size) (fst base) = Ok x'
    ∧ scale_value y (snd size) (snd base) = Ok y'
    ∧ h' !! c = Some (OList (x' :: y' :: rest)).
Proof.
  intros H Hb Ha.
  apply scale_all_app_inv in H as (h1 & H1 & H2).
  rewrite scale_all_cons in H2.
  destruct (scale_coordinates base (VRef c) size h1) as [[r|e] h2] eqn:E; [|done].
  apply scale_coordinates_inv in E
    as (c' & x & y & rest & x' & y' & [= <-] & _ & Hc & Hx & Hy & ->).
  exists x, y, rest, x', y'. repeat split; try done.
  - rewrite <- Hc. symmetry.
    exact (scale_all_frame base size before h h1 (Ok tt) c Hb H1).
  - rewrite (scale_all_frame _ _ _ _ _ _ c Ha H2). by rewrite lookup_insert_eq.
Qed.

(** C10.  [scale_coordinates] returns the reference it was given and
    has overwritten indices 0 and 1 of that list in the store, every
    other object being untouched.  The loop of [generate] returns the
    very locations of the renderer's boxes, whose dicts are as they
    were and so still name the same coordinate lists: the scaled list
    aliases the renderer's boxes.  The store it leaves is the one
    obtained by scaling in place, in order, each corner and normal
    list the boxes name; a list named once holds its scaled numbers
    where the unscaled ones were. *)
Theorem scale_coordinates_in_place :
  (∀ (base tgt : Z * Z) (v r : value) (h h' : heap),
     scale_coordinates base v tgt h = (Ok r, h') →
     r = v ∧
     ∃ c x y rest x' y',
       v = VRef c ∧ h !! c = Some (OList (x :: y :: rest)) ∧
       scale_value x (fst tgt) (fst base) = Ok x' ∧
       scale_value y (snd tgt) (snd base) = Ok y' ∧
       h' !! c = Some (OList (x' :: y' :: rest)) ∧
       ∀ l, l ≠ c → h' !! l = h !! l)
  ∧ (∀ (base size : Z * Z) (bboxes out : list loc) (h h' : heap),
       wf_heap h →
       scale_bboxes base size bboxes h = (Ok out, h') →
       out = bboxes ∧ same_shape h h'
       ∧ scale_all base size (scale_targets h bboxes) h = (Ok tt, h')
       ∧ ∀ c before after,
           scale_targets h bboxes = (before ++ VRef c :: after)%list →
           VRef c ∉ before → VRef c ∉ after →
           ∃ x y rest x' y',
             h !! c = Some (OList (x :: y :: rest))
             ∧ scale_value x (fst size) (fst base) = Ok x'
             ∧ scale_value y (snd size) (snd base) = Ok y'
             ∧ h' !! c = Some (OList (x' :: y' :: rest))).
Proof.
  split.
  - intros base tgt v r h h' H.
    apply scale_coordinates_inv in H
      as (c & x & y & rest & x' & y' & -> & -> & Hc & Hx & Hy & ->).
    split; [done|]. exists c, x, y, rest, x', y'. repeat split; try done.
    + by rewrite lookup_insert_eq.
    + intros l Hl. by rewrite lookup_insert_ne.
  - intros base size bboxes out h h' Hwf H.
    pose proof (scale_bboxes_targets _ _ _ _ _ _ Hwf H) as Ht.
    apply scale_bboxes_shape in H as [Hs Hout]; [|done].
    split; [by apply Hout|]. split; [done|]. split; [done|].
    intros c before after E Hb Ha. rewrite E in Ht.
    by apply (scale_all_once base size before after c h h').
Qed.

Lemma scale_coordinates_in_place_witness :
  (VRef 1%nat = VRef 1%nat ∧
   ∃ c x y rest x' y',
     VRef 1%nat = VRef c ∧ bbox_store !! c = Some (OList (x :: y :: rest)) ∧
     scale_value x 320 640 = Ok x' ∧ scale_value y 240 480 = Ok y' ∧
     (<[1%nat := OList [50; 25]]> bbox_store) !! c
     = Some (OList (x' :: y' :: rest)) ∧
     ∀ l, l ≠ c → (<[1%nat := OList [50; 25]]> bbox_store) !! l = bbox_store !! l)
  ∧ ∃ x y rest x' y',
      bbox_store !! 2%nat = Some (OList (x :: y :: rest))
      ∧ scale_value x 320 640 = Ok x'
      ∧ scale_value y 240 480 = Ok y'
      ∧ snd (scale_bboxes (640, 480) (320, 240) [0%nat] bbox_store) !! 2%nat
        = Some (OList (x' :: y' :: rest)).
Proof.
  split.
  - apply (proj1 scale_coordinates_in_place (640, 480) (320, 240)
             (VRef 1%nat) (VRef 1%nat) bbox_store).
    vm_compute. reflexivity.
  - refine (proj2 (proj2 (proj2
              (proj2 scale_coordinates_in_place (640, 480) (320, 240)
                 [0%nat] [0%nat] bbox_store _ _ _)))
              2%nat [VRef 1%nat] [VRef 4%nat; VRef 5%nat] _ _ _).
    + apply wf_heap_check. vm_compute. reflexivity.
    + vm_compute. reflexivity.
    + vm_compute. reflexivity.
    + intros H. apply list_elem_of_singleton in H. discriminate H.
    + intros H. apply elem_of_cons in H as [H|H]; [discriminate H|].
      apply list_elem_of_singleton in H. discriminate H.
Defined.

(** ** Blur *)

Lemma np_div_pos (v : Q) (d : Z) : 0 < d → np_div v d = Fin (v / inject_Z d)%Q.
Proof. intros Hd. unfold np_div. destruct (Z.eqb_spec d 0); [lia|done]. Qed.

Lemma ratio_nonneg (v : Q) (d : Z) :
  (0 <= v)%Q → 0 < d → (0 <= v / inject_Z d)%Q.
Proof.
  intros Hv Hd. apply Qle_shift_div_l.
  - change 0%Q with (inject_Z 0). by rewrite <- Zlt_Qlt.
  - by rewrite Qmult_0_l.
Qed.

(** C2 as the specification words it fails between 0.9 and 1: a ratio
    of 190/200 is left as it is, and the strength is 0.05. *)
Lemma blur_is_clamped_counterexample : ¬ blur_is_clamped.
Proof.
  intros H.
  destruct (H (190 # 1) 200) as (r & Hr & _ & Hlo & _); [done|lia|].
  vm_compute in Hr. injection Hr as <-.
  vm_compute in Hlo. by apply Hlo.
Qed.

(** C2 (amended).  For a variance that is not negative and a positive
    threshold that a binary64 holds exactly, [get_blur_amount] returns
    1 - 0.9, which does not exceed 0.1, when the ratio
    variance/threshold exceeds 1, and 1 - ratio otherwise, each to
    within 10^-15, which covers the rounding of the binary64
    operations; the result lies in [0, 1], and it is below 0.1 for
    every ratio above 0.9 and up to 1, which is left as it is. *)
Theorem get_blur_amount_range {Image : Type} (variance_of_laplacian : Image → Q)
    (max_blur_amount : Z) (img : Image) :
  0 < max_blur_amount < 2 ^ 53 →
  (0 <= variance_of_laplacian img)%Q →
  ∃ r, get_blur_amount variance_of_laplacian max_blur_amount img = Fin r ∧
       ((1 < variance_of_laplacian img / inject_Z max_blur_amount)%Q →
        (1 - (9 # 10) - (1 # 10 ^ 15) <= r)%Q ∧ (r <= 1 # 10)%Q) ∧
       ((variance_of_laplacian img / inject_Z max_blur_amount <= 1)%Q →
        (1 - variance_of_laplacian img / inject_Z max_blur_amount - (1 # 10 ^ 15)
         <= r)%Q ∧
        (r <= 1 - variance_of_laplacian img / inject_Z max_blur_amount
              + (1 # 10 ^ 15))%Q) ∧
       (0 <= r)%Q ∧ (r <= 1)%Q ∧
       ((9 # 10 < variance_of_laplacian img / inject_Z max_blur_amount)%Q →
        (variance_of_laplacian img / inject_Z max_blur_amount <= 1)%Q →
        (r < 1 # 10)%Q).
Proof.
  intros [Ht _] Hv. unfold get_blur_amount. rewrite np_div_pos by done.
  pose proof (ratio_nonneg _ _ Hv Ht) as Hr.
  set (q := (variance_of_laplacian img / inject_Z max_blur_amount)%Q) in *.
  assert (0 < 1 # 10 ^ 15)%Q as Heps by reflexivity.
  set (eps := (1 # 10 ^ 15)%Q) in *.
  unfold np_gt_one.
  destruct (Qle_bool q 1) eqn:E; simpl.
  - apply Qle_bool_iff in E. eexists. split; [reflexivity|].
    repeat split; try lra; intros; lra.
  - assert (1 < q)%Q as Hq.
    { apply Qnot_le_lt. intros Hle. apply Qle_bool_iff in Hle. congruence. }
    eexists. split; [reflexivity|].
    repeat split; try lra; intros; lra.
Qed.

Lemma get_blur_amount_range_witness :
  ∃ r, get_blur_amount (λ _ : unit, 190 # 1)%Q 200 tt = Fin r ∧
       (0 <= r)%Q ∧ (r <= 1)%Q ∧ (r < 1 # 10)%Q.
Proof.
  destruct (get_blur_amount_range (λ _ : unit, 190 # 1)%Q 200 tt)
    as (r & Hr & _ & _ & H0 & H1 & Hlow).
  - lia.
  - vm_compute. discriminate.
  - exists r. repeat split; try done.
    apply Hlow; vm_compute; [reflexivity|discriminate].
Defined.

(** ** Motion blur *)

Lemma motion_blur_kernel_entry (size i j : nat) :
  (i < size)%nat → (j < size)%nat →
  ∃ row, motion_blur_kernel size !! i = Some row ∧
         row !! j
         = Some ((if Nat.eqb i j then 1 else 0) / inject_Z (Z.of_nat size))%Q.
Proof.
  intros Hi Hj. unfold motion_blur_kernel, identity.
  eexists. split.
  - rewrite !list_lookup_fmap, lookup_seq_lt by done. simpl. reflexivity.
  - rewrite !list_lookup_fmap, lookup_seq_lt by done. simpl. reflexivity.
Qed.

(** C9.  The kernel size is 3 for an amount up to and including 0.3,
    5 above 0.3 up to and including 0.7, and 9 above 0.7; the image is
    convolved with the kernel whose entry (i, j) is 1/size on the
    diagonal and 0 elsewhere; with blur disabled the array of the image
    is returned as it is. *)
Theorem apply_motion_blur_thresholds {Image Array : Type}
    (np_array : Image → Array) (filter2D : Array → list (list Q) → Array)
    (img : Image) (amount : Q) :
  ((amount <= 3 # 10)%Q → motion_blur_size (Fin amount) = 3%nat)
  ∧ ((3 # 10 < amount)%Q → (amount <= 7 # 10)%Q →
     motion_blur_size (Fin amount) = 5%nat)
  ∧ ((7 # 10 < amount)%Q → motion_blur_size (Fin amount) = 9%nat)
  ∧ apply_motion_blur np_array filter2D false img (Fin amount)
    = filter2D (np_array img) (motion_blur_kernel (motion_blur_size (Fin amount)))
  ∧ (∀ size i j, (i < size)%nat → (j < size)%nat →
       ∃ row, motion_blur_kernel size !! i = Some row ∧
              row !! j
              = Some ((if Nat.eqb i j then 1 else 0) / inject_Z (Z.of_nat size))%Q)
  ∧ apply_motion_blur np_array filter2D true img (Fin amount) = np_array img.
Proof.
  unfold motion_blur_size, np_le.
  repeat split.
  - intros H. apply Qle_bool_iff in H. by rewrite H.
  - intros H3 H7.
    destruct (Qle_bool amount (3 # 10)) eqn:E.
    { apply Qle_bool_iff in E. lra. }
    apply Qle_bool_iff in H7. by rewrite H7.
  - intros H7.
    destruct (Qle_bool amount (3 # 10)) eqn:E3.
    { apply Qle_bool_iff in E3. lra. }
    destruct (Qle_bool amount (7 # 10)) eqn:E7.
    { apply Qle_bool_iff in E7. lra. }
    done.
  - intros size i j. apply motion_blur_kernel_entry.
Qed.

Lemma apply_motion_blur_thresholds_witness :
  motion_blur_size (Fin (3 # 10)) = 3%nat
  ∧ motion_blur_size (Fin (7 # 10)) = 5%nat
  ∧ motion_blur_size (Fin (71 # 100)) = 9%nat.
Proof.
  pose proof (apply_motion_blur_thresholds (λ x : unit, x) (λ x _, x) tt (3 # 10))
    as (H3 & _).
  pose proof (apply_motion_blur_thresholds (λ x : unit, x) (λ x _, x) tt (7 # 10))
    as (_ & H5 & _).
  pose proof (apply_motion_blur_thresholds (λ x : unit, x) (λ x _, x) tt (71 # 100))
    as (_ & _ & H9 & _).
  split; [|split].
  - apply H3. vm_compute. discriminate.
  - apply H5; vm_compute; [reflexivity|discriminate].
  - apply H9. vm_compute. reflexivity.
Defined.

(** ** Annotation parsing *)

Section AnnotationProofs.

Context {F : Type}.
Variable float : string → option F.

Lemma floats_ok (xs : list string) :
  (∀ x, x ∈ xs → float x ≠ None) →
  ∃ vs, floats float xs = Ok vs ∧ Some <$> vs = float <$> xs.
Proof.
  induction xs as [|x xs IH]; intros Hall; cbn [floats].
  - by exists [].
  - rewrite fmap_cons. destruct (float x) as [v|] eqn:E.
    2:{ exfalso. apply (Hall x); [apply elem_of_cons; by left|done]. }
    destruct IH as (vs & -> & Hvs).
    { intros y Hy. apply Hall. apply elem_of_cons. by right. }
    exists (v :: vs). split; [done|]. by rewrite fmap_cons, Hvs.
Qed.

Lemma floats_raise (xs : list string) (x : string) :
  x ∈ xs → float x = None → floats float xs = Raise ValueError.
Proof.
  induction xs as [|y xs IH]; intros Hin Hx.
  - by apply elem_of_nil in Hin.
  - simpl. apply elem_of_cons in Hin as [<-|Hin].
    + by rewrite Hx.
    + destruct (float y); [|done]. by rewrite IH.
Qed.

Lemma floats_result (xs : list string) (e : exn) :
  floats float xs = Raise e → e = ValueError.
Proof.
  induction xs as [|y xs IH]; simpl; [done|].
  destruct (float y); [|by intros [= <-]].
  destruct (floats float xs); [done|]. intros [= <-]. by apply IH.
Qed.

Lemma fields_split (items : list string) :
  drop 1 items = (take 3 (drop 1 items) ++ drop 4 items)%list.
Proof.
  change 4%nat with (1 + 3)%nat. rewrite <- drop_drop. by rewrite take_drop.
Qed.

Lemma floats_length (xs : list string) (vs : list F) :
  floats float xs = Ok vs → length vs = length xs.
Proof.
  revert vs. induction xs as [|x xs IH]; intros vs; cbn [floats].
  - by intros [= <-].
  - destruct (float x) as [v|]; [|done].
    destruct (floats float xs) as [ws|]; [|done].
    intros [= <-]. simpl. by rewrite (IH ws).
Qed.

(** A line has eight fields exactly when fields 1-3 are three and
    fields 4 onwards are four. *)
Lemma fields_count (items : list string) :
  length items = 8%nat ↔
  length (take 3 (drop 1 items)) = 3%nat ∧ length (drop 4 items) = 4%nat.
Proof. rewrite length_take, !length_drop. lia. Qed.

Lemma parse_line_ok (line : string) :
  length (split "," line) = 8%nat →
  (∀ x, x ∈ drop 1 (split "," line) → float x ≠ None) →
  ∃ t o,
    parse_line float line
    = Ok (strip (hd EmptyString (split "," line)), mkBackgroundAnnotations t o) ∧
    Some <$> t = float <$> take 3 (drop 1 (split "," line)) ∧
    Some <$> o = float <$> drop 4 (split "," line).
Proof.
  intros Hlen Hall. unfold parse_line.
  apply fields_count in Hlen as [Hlen3 Hlen4].
  destruct (floats_ok (take 3 (drop 1 (split "," line)))) as (t & Et & Ht).
  { intros x Hx. apply Hall. rewrite fields_split. apply elem_of_app. by left. }
  destruct (floats_ok (drop 4 (split "," line))) as (o & Eo & Ho).
  { intros x Hx. apply Hall. rewrite fields_split. apply elem_of_app. by right. }
  rewrite Et. unfold Vector3. rewrite (floats_length _ _ Et), Hlen3. simpl.
  rewrite Eo. unfold Quaternion. rewrite (floats_length _ _ Eo), Hlen4. simpl.
  by exists t, o.
Qed.

Lemma parse_line_result (line : string) (e : exn) :
  parse_line float line = Raise e → e = ValueError.
Proof.
  unfold parse_line, Vector3, Quaternion.
  destruct (floats float (take 3 _)) as [t|e1] eqn:E1.
  2:{ intros [= <-]. by apply floats_result in E1. }
  destruct (length t =? 3)%nat; [|by intros [= <-]].
  destruct (floats float (drop 4 _)) as [o|e2] eqn:E2.
  2:{ intros [= <-]. by apply floats_result in E2. }
  destruct (length o =? 4)%nat; [done|by intros [= <-]].
Qed.

Lemma parse_line_raise (line x : string) :
  x ∈ drop 1 (split "," line) → float x = None →
  parse_line float line = Raise ValueError.
Proof.
  intros Hin Hx.
  destruct (parse_line float line) as [[k a]|e] eqn:E.
  2:{ by rewrite (parse_line_result _ _ E). }
  exfalso. revert E. unfold parse_line.
  rewrite fields_split in Hin. apply elem_of_app in Hin as [Hin|Hin].
  - by rewrite (floats_raise _ x Hin Hx).
  - destruct (floats float (take 3 _)) as [t|]; [|done].
    destruct (Vector3 t); [|done].
    by rewrite (floats_raise _ x Hin Hx).
Qed.

(** A line that has not exactly eight fields is refused. *)
Lemma parse_line_fields (line : string) :
  length (split "," line) ≠ 8%nat → parse_line float line = Raise ValueError.
Proof.
  intros Hlen.
  destruct (parse_line float line) as [[k a]|e] eqn:E.
  2:{ by rewrite (parse_line_result _ _ E). }
  exfalso. apply Hlen. apply fields_count. revert E.
  unfold parse_line, Vector3, Quaternion.
  destruct (floats float (take 3 _)) as [t|] eqn:Et; [|done].
  destruct (Nat.eqb_spec (length t) 3) as [H3|]; [|done].
  destruct (floats float (drop 4 _)) as [o|] eqn:Eo; [|done].
  destruct (Nat.eqb_spec (length o) 4) as [H4|]; [|done].
  intros _. by rewrite <- (floats_length _ _ Et), <- (floats_length _ _ Eo).
Qed.

Lemma parse_lines_ok (lines : list string)
    (m0 : gmap string (@BackgroundAnnotations F)) :
  (∀ line, line ∈ lines → length (split "," line) = 8%nat) →
  (∀ line x, line ∈ lines → x ∈ drop 1 (split "," line) → float x ≠ None) →
  ∃ m, parse_lines float lines m0 = Ok m.
Proof.
  revert m0. induction lines as [|line lines IH]; intros m0 Hlen Hall; simpl.
  - by exists m0.
  - destruct (parse_line_ok line) as (t & o & -> & _).
    { apply Hlen. apply elem_of_cons. by left. }
    { intros x. apply Hall. apply elem_of_cons. by left. }
    apply IH.
    + intros l Hl. apply Hlen. apply elem_of_cons. by right.
    + intros l x Hl. apply Hall. apply elem_of_cons. by right.
Qed.

Lemma parse_lines_result (lines : list string)
    (m0 : gmap string (@BackgroundAnnotations F)) (e : exn) :
  parse_lines float lines m0 = Raise e → e = ValueError.
Proof.
  revert m0. induction lines as [|l lines IH]; intros m0; simpl; [done|].
  destruct (parse_line float l) as [[k a]|e'] eqn:E.
  - apply IH.
  - intros [= <-]. by apply parse_line_result in E.
Qed.

(** One line that [parse_line] refuses makes the whole parse raise. *)
Lemma parse_lines_refused (lines : list string)
    (m0 : gmap string (@BackgroundAnnotations F)) (line : string) :
  line ∈ lines → parse_line float line = Raise ValueError →
  parse_lines float lines m0 = Raise ValueError.
Proof.
  intros Hin Hline.
  destruct (parse_lines float lines m0) as [m|e] eqn:E.
  2:{ by rewrite (parse_lines_result _ _ _ E). }
  exfalso. revert m0 E.
  induction lines as [|l lines IH]; intros m0; simpl.
  - by apply elem_of_nil in Hin.
  - apply elem_of_cons in Hin as [<-|Hin].
    + by rewrite Hline.
    + destruct (parse_line float l) as [[k a]|]; [|done]. by apply IH.
Qed.

Lemma parse_lines_raise (lines : list string)
    (m0 : gmap string (@BackgroundAnnotations F)) (line x : string) :
  line ∈ lines → x ∈ drop 1 (split "," line) → float x = None →
  parse_lines float lines m0 = Raise ValueError.
Proof.
  intros Hin Hx Hnone. apply (parse_lines_refused lines m0 line Hin).
  by apply (parse_line_raise line x).
Qed.

(** Every entry of the parsed mapping comes from a line. *)
Lemma parse_lines_lookup (lines : list string)
    (m0 m : gmap string (@BackgroundAnnotations F)) (k : string)
    (a : @BackgroundAnnotations F) :
  parse_lines float lines m0 = Ok m → m !! k = Some a →
  m0 !! k = Some a ∨ ∃ line, line ∈ lines ∧ parse_line float line = Ok (k, a).
Proof.
  revert m0. induction lines as [|l lines IH]; intros m0; simpl.
  - intros [= ->] Hk. by left.
  - destruct (parse_line float l) as [[k' a']|e] eqn:E; [|done].
    intros H Hk. destruct (IH _ H Hk) as [Hm|(line & Hin & Hline)].
    + destruct (decide (k' = k)) as [->|Hne].
      * rewrite lookup_insert_eq in Hm. injection Hm as ->.
        right. exists l. split; [apply elem_of_cons; by left|done].
      * rewrite lookup_insert_ne in Hm by done. by left.
    + right. exists line. split; [apply elem_of_cons; by right|done].
Qed.

Lemma parse_lines_keep (after : list string)
    (m1 m : gmap string (@BackgroundAnnotations F)) (k : string)
    (a : @BackgroundAnnotations F) :
  (∀ l k' a', l ∈ after → parse_line float l = Ok (k', a') → k' ≠ k) →
  m1 !! k = Some a → parse_lines float after m1 = Ok m → m !! k = Some a.
Proof.
  revert m1. induction after as [|l after IH]; intros m1 Hafter Hm1; simpl.
  - by intros [= <-].
  - destruct (parse_line float l) as [[k' a']|e] eqn:E; [|done].
    apply IH.
    + intros l' k'' a'' Hl'. apply Hafter. apply elem_of_cons. by right.
    + rewrite lookup_insert_ne; [done|].
      apply (Hafter l k' a'); [apply elem_of_cons; by left|done].
Qed.

(** A line's pose is the one found under its key unless a later line
    has the same key. *)
Lemma parse_lines_last (before after : list string) (line : string)
    (m0 m : gmap string (@BackgroundAnnotations F)) (k : string)
    (a : @BackgroundAnnotations F) :
  parse_lines float ((before ++ line :: after)%list) m0 = Ok m →
  parse_line float line = Ok (k, a) →
  (∀ l k' a', l ∈ after → parse_line float l = Ok (k', a') → k' ≠ k) →
  m !! k = Some a.
Proof.
  revert m0. induction before as [|b before IH]; intros m0; simpl.
  - intros H Hline Hafter. rewrite Hline in H.
    apply (parse_lines_keep after (<[k := a]> m0) m k a Hafter); [|done].
    by rewrite lookup_insert_eq.
  - destruct (parse_line float b) as [[k' a']|e]; [|done]. apply IH.
Qed.

End AnnotationProofs.

Section AnnotationContract.

Context {F : Type}.
Variable float : string → option F.

Lemma floats_inv (xs : list string) (vs : list F) :
  floats float xs = Ok vs → Some <$> vs = float <$> xs.
Proof.
  revert vs. induction xs as [|x xs IH]; intros vs; cbn [floats].
  - by intros [= <-].
  - rewrite fmap_cons. destruct (float x) as [v|]; [|done].
    destruct (floats float xs) as [ws|]; [|done].
    intros [= <-]. by rewrite fmap_cons, (IH ws).
Qed.

Lemma parse_line_inv (line k : string) (a : @BackgroundAnnotations F) :
  parse_line float line = Ok (k, a) →
  k = strip (hd EmptyString (split "," line)) ∧
  Some <$> translation a = float <$> take 3 (drop 1 (split "," line)) ∧
  Some <$> orientation a = float <$> drop 4 (split "," line).
Proof.
  unfold parse_line, Vector3, Quaternion.
  destruct (floats float (take 3 _)) as [t|] eqn:Et; [|done].
  destruct (length t =? 3)%nat; [|done].
  destruct (floats float (drop 4 _)) as [o|] eqn:Eo; [|done].
  destruct (length o =? 4)%nat; [|done].
  intros [= <- <-]. simpl. split; [done|].
  split; by apply floats_inv.
Qed.

(** C8.  [parse_annotations] raises "Annotations file not found" when
    nothing exists at the path.  On a file it ignores the first line.
    When every later line has eight comma-separated fields and [float]
    accepts the last seven, it returns a mapping, whatever the seven
    numbers are: each key is the stripped first field of some line,
    the pose is made of that line's fields 1-3 and 4-7 as [float]
    reads them, and the last line with a given key is the one kept.
    It raises [ValueError] when [float] rejects one of these fields,
    and also when a line has not exactly eight fields, the number being
    checked where [Vector3] and [Quaternion] are built. *)
Theorem parse_annotations_contract (fs : filesystem) (path : string) :
  (fs !! path = None →
   parse_annotations float fs path = Raise (Exception "Annotations file not found"))
  ∧ (∀ header rest,
       fs !! path = Some (FFile (header :: rest)) →
       parse_annotations float fs path = parse_lines float rest ∅
       ∧ ((∀ line, line ∈ rest → length (split "," line) = 8%nat) →
          (∀ line x, line ∈ rest → x ∈ drop 1 (split "," line) → float x ≠ None) →
          ∃ m, parse_annotations float fs path = Ok m
               ∧ (∀ k a, m !! k = Some a →
                    ∃ line, line ∈ rest
                            ∧ k = strip (hd EmptyString (split "," line))
                            ∧ Some <$> translation a
                              = float <$> take 3 (drop 1 (split "," line))
                            ∧ Some <$> orientation a
                              = float <$> drop 4 (split "," line))
               ∧ (∀ before line after,
                    rest = (before ++ line :: after)%list →
                    (∀ l, l ∈ after →
                       strip (hd EmptyString (split "," l))
                       ≠ strip (hd EmptyString (split "," line))) →
                    ∃ a, m !! strip (hd EmptyString (split "," line)) = Some a
                         ∧ Some <$> translation a
                           = float <$> take 3 (drop 1 (split "," line))
                         ∧ Some <$> orientation a
                           = float <$> drop 4 (split "," line)))
       ∧ (∀ line x, line ∈ rest → x ∈ drop 1 (split "," line) → float x = None →
          parse_annotations float fs path = Raise ValueError)
       ∧ (∀ line, line ∈ rest → length (split "," line) ≠ 8%nat →
          parse_annotations float fs path = Raise ValueError)).
Proof.
  split.
  - intros Hnone. unfold parse_annotations. by rewrite Hnone.
  - intros header rest Hfile.
    assert (parse_annotations float fs path = parse_lines float rest ∅) as Hparse.
    { unfold parse_annotations. by rewrite Hfile. }
    split; [done|]. split; [|split].
    + intros Hlen Hall. rewrite Hparse.
      destruct (parse_lines_ok float rest ∅ Hlen Hall) as [m Hm].
      exists m. split; [done|]. split.
      * intros k a Hk.
        destruct (parse_lines_lookup float rest ∅ m k a Hm Hk)
          as [Hempty|(line & Hin & Hline)].
        { by rewrite lookup_empty in Hempty. }
        exists line. split; [done|]. by apply parse_line_inv.
      * intros before line after -> Hafter.
        destruct (parse_line_ok float line) as (t & o & Hline & Ht & Ho).
        { apply Hlen. apply elem_of_app. right. apply elem_of_cons. by left. }
        { intros x. apply Hall. apply elem_of_app. right.
          apply elem_of_cons. by left. }
        exists (mkBackgroundAnnotations t o). split; [|done].
        apply (parse_lines_last float before after line ∅ m _ _ Hm Hline).
        intros l k' a' Hl Hk' ->. apply (Hafter l Hl).
        by apply parse_line_inv in Hk' as [-> _].
    + intros line x Hin Hx Hnone. rewrite Hparse.
      by apply (parse_lines_raise float rest ∅ line x).
    + intros line Hin Hlen. rewrite Hparse.
      apply (parse_lines_refused float rest ∅ line Hin).
      by apply parse_line_fields.
Qed.

End AnnotationContract.

(** The annotations file of [bg_fs]: the header is skipped, the names
    are stripped, the numbers are taken as they come. *)
Example parse_annotations_example :
  parse_annotations numeral bg_fs "bg/annotations.csv"
  = Ok (<["a.png" := mkBackgroundAnnotations ["1.5"; "2"; "3"] ["0"; "0"; "0"; "1"]]>
       (<["b.png" := mkBackgroundAnnotations ["4"; "5"; "6"] ["0"; "0"; "0"; "2"]]> ∅)).
Proof. vm_compute. reflexivity. Qed.

(** A directory is not a file, and a bad numeral stops the parse; so do
    a row of nine columns, as [extract_frame_pose.py] writes them with
    the time stamp at the end, a short row and a blank line. *)
Example parse_annotations_errors :
  parse_annotations numeral bg_fs "bg/raw"
  = Raise (Exception "Annotations file not found")
  ∧ parse_annotations numeral
      (<["x.csv" := FFile ["header"; "a.png,1,2,three,0,0,0,1"]]> ∅) "x.csv"
    = Raise ValueError
  ∧ parse_annotations numeral
      (<["x.csv" := FFile ["header"; "a.png,1,2,3,0,0,0,1,1500"]]> ∅) "x.csv"
    = Raise ValueError
  ∧ parse_annotations numeral
      (<["x.csv" := FFile ["header"; "a.png,1,2,3,0,0,0"]]> ∅) "x.csv"
    = Raise ValueError
  ∧ parse_annotations numeral
      (<["x.csv" := FFile ["header"; "a.png,1,2,3,0,0,0,1"; ""]]> ∅) "x.csv"
    = Raise ValueError.
Proof. repeat split; vm_compute; reflexivity. Qed.

Lemma parse_annotations_contract_witness :
  parse_annotations numeral bg_fs "missing.csv"
  = Raise (Exception "Annotations file not found")
  ∧ (∃ m, parse_annotations numeral
            (<["x.csv" := FFile ["header"; "a.png,1,2,3,0,0,0,7"]]> ∅) "x.csv"
          = Ok m)
  ∧ parse_annotations numeral
      (<["x.csv" := FFile ["header"; "a.png,1,2,three,0,0,0,1"]]> ∅) "x.csv"
    = Raise ValueError
  ∧ parse_annotations numeral
      (<["x.csv" := FFile ["header"; "a.png,1,2,3,0,0,0,1,1500"]]> ∅) "x.csv"
    = Raise ValueError.
Proof.
  split; [|split; [|split]].
  - apply (proj1 (parse_annotations_contract numeral bg_fs "missing.csv")).
    vm_compute. reflexivity.
  - assert ((<["x.csv" := FFile ["header"; "a.png,1,2,3,0,0,0,7"]]> ∅
               : filesystem) !! "x.csv"
            = Some (FFile ["header"; "a.png,1,2,3,0,0,0,7"])) as Hfile
      by (vm_compute; reflexivity).
    destruct (proj1 (proj2 (proj2 (parse_annotations_contract numeral _ "x.csv")
                "header" ["a.png,1,2,3,0,0,0,7"] Hfile))) as (m & Hm & _).
    + intros line Hin. apply list_elem_of_singleton in Hin as ->.
      vm_compute. reflexivity.
    + intros line x Hin. apply list_elem_of_singleton in Hin as ->.
      vm_compute. intros Hx.
      repeat (apply elem_of_cons in Hx as [->|Hx]; [vm_compute; discriminate|]).
      by apply elem_of_nil in Hx.
    + by exists m.
  - assert ((<["x.csv" := FFile ["header"; "a.png,1,2,three,0,0,0,1"]]> ∅
               : filesystem) !! "x.csv"
            = Some (FFile ["header"; "a.png,1,2,three,0,0,0,1"])) as Hfile
      by (vm_compute; reflexivity).
    apply (proj1 (proj2 (proj2 (proj2 (parse_annotations_contract numeral _ "x.csv")
             "header" ["a.png,1,2,three,0,0,0,1"] Hfile)))
             "a.png,1,2,three,0,0,0,1" "three").
    + apply elem_of_cons. by left.
    + vm_compute. apply list_elem_of_lookup_2 with 2%nat. reflexivity.
    + vm_compute. reflexivity.
  - assert ((<["x.csv" := FFile ["header"; "a.png,1,2,3,0,0,0,1,1500"]]> ∅
               : filesystem) !! "x.csv"
            = Some (FFile ["header"; "a.png,1,2,3,0,0,0,1,1500"])) as Hfile
      by (vm_compute; reflexivity).
    apply (proj2 (proj2 (proj2 (proj2 (parse_annotations_contract numeral _ "x.csv")
             "header" ["a.png,1,2,3,0,0,0,1,1500"] Hfile)))
             "a.png,1,2,3,0,0,0,1,1500").
    + apply elem_of_cons. by left.
    + vm_compute. discriminate.
Defined.

(** ** Loading the background dataset *)

Section LoadProofs.

Context {F : Type}.
Variable float : string → option F.
Variable image_size : string → option (Z * Z).

Lemma put_task_done {A} (q : Queue A) (x : A) :
  Queue_task_done (Queue_put q x)
  = Ok (mkQueue (items q ++ [x]) (unfinished_tasks q)).
Proof. done. Qed.

Lemma listing_partition (fs : filesystem) (dir ap : string)
    (ann : gmap string (@BackgroundAnnotations F)) (files : list string) :
  length files
  = (length (staged_of fs dir ap ann files)
     + length (unmatched fs dir ap ann files)
     + length (ineligible fs dir ap files))%nat.
Proof.
  unfold staged_of, unmatched, ineligible.
  induction files as [|f files IH]; [done|].
  cbn [omap list_omap List.filter length].
  destruct (eligible fs dir ap f); simpl.
  - destruct (ann !! f) as [a|] eqn:E; simpl.
    + lia.
    + lia.
  - lia.
Qed.

Lemma listing_skip (fs : filesystem) (dir ap : string)
    (ann : gmap string (@BackgroundAnnotations F)) (f : string) (files : list string) :
  eligible fs dir ap f = false →
  staged_of fs dir ap ann (f :: files) = staged_of fs dir ap ann files
  ∧ unmatched fs dir ap ann (f :: files) = unmatched fs dir ap ann files.
Proof.
  intros E. unfold staged_of, unmatched.
  cbn [omap list_omap List.filter]. by rewrite E.
Qed.

Lemma listing_hit (fs : filesystem) (dir ap : string)
    (ann : gmap string (@BackgroundAnnotations F)) (f : string) (files : list string)
    (a : @BackgroundAnnotations F) :
  eligible fs dir ap f = true → ann !! f = Some a →
  staged_of fs dir ap ann (f :: files)
  = mkBackgroundImage (path_join dir f) a :: staged_of fs dir ap ann files
  ∧ unmatched fs dir ap ann (f :: files) = unmatched fs dir ap ann files.
Proof.
  intros E Ea. unfold staged_of, unmatched.
  cbn [omap list_omap List.filter]. by rewrite E, Ea.
Qed.

Lemma listing_miss (fs : filesystem) (dir ap : string)
    (ann : gmap string (@BackgroundAnnotations F)) (f : string) (files : list string) :
  eligible fs dir ap f = true → ann !! f = None →
  staged_of fs dir ap ann (f :: files) = staged_of fs dir ap ann files
  ∧ unmatched fs dir ap ann (f :: files) = f :: unmatched fs dir ap ann files.
Proof.
  intros E Ea. unfold staged_of, unmatched.
  cbn [omap list_omap List.filter]. by rewrite E, Ea.
Qed.

(** The staging loop adds to the queue exactly the matched eligible
    entries, in listing order, and counts exactly the unmatched ones. *)
Lemma stage_ok (fs : filesystem) (dir ap : string)
    (ann : gmap string (@BackgroundAnnotations F)) (files : list string)
    (st st' : @Staging F) :
  stage image_size fs dir ap ann files st = Ok st' →
  items (st_data st') = (items (st_data st) ++ staged_of fs dir ap ann files)%list
  ∧ unfinished_tasks (st_data st') = unfinished_tasks (st_data st)
  ∧ st_not_found st' = (st_not_found st + length (unmatched fs dir ap ann files))%nat
  ∧ st_cannot_find st' = (st_cannot_find st ++ unmatched fs dir ap ann files)%list.
Proof.
  revert st. induction files as [|f files IH]; intros st.
  - simpl. intros [= <-]. by rewrite !app_nil_r, Nat.add_0_r.
  - cbn [stage]. cbv zeta.
    change (isfile fs (path_join dir f) && negb (String.eqb (path_join dir f) ap))
      with (eligible fs dir ap f).
    destruct (eligible fs dir ap f) eqn:Eel.
    2:{ destruct (listing_skip fs dir ap ann f files Eel) as [-> ->]. apply IH. }
    destruct (ann !! f) as [a|] eqn:Ea.
    + destruct (listing_hit fs dir ap ann f files a Eel Ea) as [-> ->].
      rewrite put_task_done.
      destruct (falsy (st_width st) && falsy (st_height st)).
      * destruct (image_size (path_join dir f)) as [[w h]|]; [|done].
        intros H. apply IH in H as (H1 & H2 & H3 & H4). simpl in *.
        by rewrite H1, <- app_assoc.
      * intros H. apply IH in H as (H1 & H2 & H3 & H4). simpl in *.
        by rewrite H1, <- app_assoc.
    + destruct (listing_miss fs dir ap ann f files Eel Ea) as [-> ->].
      intros H. apply IH in H as (H1 & H2 & H3 & H4). simpl in *.
      rewrite H1, H2, H3, H4, <- app_assoc. repeat split; try done; lia.
Qed.

Lemma staged_of_elem (fs : filesystem) (dir ap : string)
    (ann : gmap string (@BackgroundAnnotations F)) (files : list string)
    (b : @BackgroundImage F) :
  b ∈ staged_of fs dir ap ann files →
  ∃ f, f ∈ files ∧ eligible fs dir ap f = true ∧
       file b = path_join dir f ∧ ann !! f = Some (annotations b).
Proof.
  unfold staged_of. intros H. apply list_elem_of_omap in H as (f & Hf & H).
  exists f. split; [done|].
  destruct (eligible fs dir ap f); [|done].
  destruct (ann !! f) as [a|]; [|done].
  injection H as <-. by simpl.
Qed.

(** The padding loop stops with a listing longer than [count], made of
    the one it started from followed by eligible names drawn from it. *)
Lemma pad_files_ok (fs : filesystem) (dir ap : string) (count : Z)
    (draws : list nat) (files files' : list string) :
  pad_files fs dir ap count draws files = Some (Ok files') →
  count < Z.of_nat (length files')
  ∧ (count < Z.of_nat (length files) → files' = files)
  ∧ ∃ extra, files' = (files ++ extra)%list
             ∧ ∀ f, f ∈ extra → f ∈ files ∧ eligible fs dir ap f = true.
Proof.
  revert files. induction draws as [|d draws IH]; intros files.
  - simpl. destruct (Z.leb_spec (Z.of_nat (length files)) count).
    + by destruct files.
    + intros [= <-]. split; [done|]. split; [done|].
      exists []. split; [by rewrite app_nil_r|]. intros f Hf.
      by apply elem_of_nil in Hf.
  - cbn [pad_files]. destruct (Z.leb_spec (Z.of_nat (length files)) count).
    2:{ intros [= <-]. split; [done|]. split; [done|].
        exists []. split; [by rewrite app_nil_r|]. intros f Hf.
        by apply elem_of_nil in Hf. }
    destruct files as [|f0 files0] eqn:Efiles; [done|]. rewrite <- Efiles in *.
    destruct (files !! (d mod length files)%nat) as [choice|] eqn:Ec; [|done].
    destruct (eligible fs dir ap choice) eqn:Eel.
    + intros H'. apply IH in H' as (H1 & _ & extra & -> & Hex).
      split; [done|]. split; [lia|].
      exists (choice :: extra). split; [by rewrite <- app_assoc|].
      intros f Hf. apply elem_of_cons in Hf as [->|Hf].
      * split; [by eapply list_elem_of_lookup_2|done].
      * destruct (Hex f Hf) as [Hin ?]. split; [|done].
        apply elem_of_app in Hin as [?|Hin]; [done|].
        apply list_elem_of_singleton in Hin as ->.
        by eapply list_elem_of_lookup_2.
    + intros H'. apply IH in H' as (H1 & _ & extra & -> & Hex).
      split; [done|]. split; [lia|]. by exists extra.
Qed.

(** The padding loop comes to an end when the listing is not empty,
    holds eligible names only, and enough draws are supplied. *)
Lemma pad_files_total (fs : filesystem) (dir ap : string) (count : Z)
    (draws : list nat) (files : list string) :
  files ≠ [] →
  (∀ f, f ∈ files → eligible fs dir ap f = true) →
  (Z.to_nat (count + 1 - Z.of_nat (length files)) ≤ length draws)%nat →
  ∃ files', pad_files fs dir ap count draws files = Some (Ok files').
Proof.
  revert files. induction draws as [|d draws IH]; intros files Hne Hel Hlen.
  - simpl in *. destruct (Z.leb_spec (Z.of_nat (length files)) count); [lia|].
    by exists files.
  - cbn [pad_files]. destruct (Z.leb_spec (Z.of_nat (length files)) count).
    2:{ by exists files. }
    destruct files as [|f0 files0] eqn:Efiles; [done|]. rewrite <- Efiles in *.
    assert (d mod length files < length files)%nat as Hlt.
    { apply Nat.mod_upper_bound. rewrite Efiles. simpl. lia. }
    destruct (lookup_lt_is_Some_2 files _ Hlt) as [choice Hc].
    rewrite Hc.
    rewrite (Hel choice) by (by eapply list_elem_of_lookup_2).
    apply IH.
    + by destruct files.
    + intros f Hf. apply elem_of_app in Hf as [?|Hf]; [by apply Hel|].
      apply list_elem_of_singleton in Hf as ->. apply Hel.
      by eapply list_elem_of_lookup_2.
    + rewrite length_app. simpl in *. lia.
Qed.

Lemma ineligible_app (fs : filesystem) (dir ap : string) (files extra : list string) :
  (∀ f, f ∈ extra → eligible fs dir ap f = true) →
  ineligible fs dir ap (files ++ extra) = ineligible fs dir ap files.
Proof.
  intros Hex. unfold ineligible. rewrite List.filter_app.
  assert (List.filter (λ f, negb (eligible fs dir ap f)) extra = []) as ->;
    [|by rewrite app_nil_r].
  induction extra as [|f extra IH]; [done|]. simpl.
  rewrite (Hex f) by (apply elem_of_cons; by left). simpl.
  apply IH. intros g Hg. apply Hex. apply elem_of_cons. by right.
Qed.

(** What a completed [load] has done, in one statement. *)
Lemma load_ok (fs : filesystem) (shuffle : list string → list string)
    (draws : list nat) (self : Dataset (@BackgroundImage F)) (count : Z)
    (ap : string) (r : @Loaded F) :
  load float image_size fs shuffle draws self count ap = Some (Ok r) →
  ∃ entries extra ann,
    fs !! path self = Some (FDir entries)
    ∧ parse_annotations float fs ap = Ok ann
    ∧ ld_files r = (shuffle entries ++ extra)%list
    ∧ (∀ f, f ∈ extra → f ∈ shuffle entries ∧ eligible fs (path self) ap f = true)
    ∧ (count < Z.of_nat (length (shuffle entries)) → extra = [])
    ∧ count < Z.of_nat (length (ld_files r))
    ∧ items (data (ld_self r))
      = (items (data self) ++ staged_of fs (path self) ap ann (ld_files r))%list
    ∧ ld_reported_not_found r = length (unmatched fs (path self) ap ann (ld_files r))
    ∧ ld_cannot_find r = unmatched fs (path self) ap ann (ld_files r)
    ∧ ld_return r = VNone.
Proof.
  unfold load.
  destruct (fs !! path self) as [[lines|entries]|] eqn:Edir; try done.
  destruct (pad_files fs (path self) ap count draws (shuffle entries))
    as [[files|e]|] eqn:Epad; try done.
  destruct (parse_annotations float fs ap) as [ann|e] eqn:Eann; [|done].
  destruct (stage image_size fs (path self) ap ann files _) as [st|e] eqn:Est; [|done].
  destruct (Queue_join (st_data st)); [|done].
  intros [= <-]. simpl.
  apply pad_files_ok in Epad as (Hlen & Hsame & extra & -> & Hextra).
  apply stage_ok in Est as (H1 & H2 & H3 & H4). simpl in *.
  exists entries, extra, ann. repeat split; try done.
  - by apply Hextra.
  - by apply Hextra.
  - intros Hlt. apply Hsame in Hlt.
    apply (f_equal length) in Hlt. rewrite length_app in Hlt.
    destruct extra; [done|simpl in Hlt; lia].
Qed.

(** Some sequence of draws ends the padding loop whenever the listing
    has one eligible name: drawing that name every time does. *)
Lemma pad_files_returns (fs : filesystem) (dir ap : string) (count : Z)
    (files : list string) (i : nat) (f : string) (n : nat) :
  files !! i = Some f → eligible fs dir ap f = true →
  (Z.to_nat (count + 1 - Z.of_nat (length files)) ≤ n)%nat →
  ∃ files', pad_files fs dir ap count (replicate n i) files = Some (Ok files').
Proof.
  revert files. induction n as [|n IH]; intros files Hi Hel Hn.
  - simpl. destruct (Z.leb_spec (Z.of_nat (length files)) count); [lia|].
    by exists files.
  - cbn [replicate pad_files].
    destruct (Z.leb_spec (Z.of_nat (length files)) count); [|by exists files].
    pose proof (lookup_lt_Some _ _ _ Hi) as Hlt.
    destruct files as [|f0 files0] eqn:Efiles; [simpl in Hlt; lia|].
    rewrite <- Efiles in *.
    rewrite Nat.mod_small, Hi, Hel by done.
    apply IH; [by apply lookup_app_l_Some|done|].
    rewrite length_app. simpl. lia.
Qed.

Lemma stage_total (fs : filesystem) (dir ap : string)
    (ann : gmap string (@BackgroundAnnotations F)) (files : list string)
    (st : @Staging F) :
  (∀ p, is_Some (image_size p)) →
  ∃ st', stage image_size fs dir ap ann files st = Ok st'.
Proof.
  intros Himg. revert st. induction files as [|f files IH]; intros st.
  - by exists st.
  - cbn [stage]. cbv zeta.
    destruct (isfile fs (path_join dir f) && _); [|apply IH].
    destruct (ann !! f) as [a|]; [|apply IH].
    rewrite put_task_done.
    destruct (falsy (st_width st) && falsy (st_height st)); [|apply IH].
    destruct (Himg (path_join dir f)) as [[w h] ->]. apply IH.
Qed.

(** [load] returns for suitable draws: on a directory with an eligible
    name, an annotations file that parses and images PIL can open. *)
Lemma load_returns (fs : filesystem) (shuffle : list string → list string)
    (self : Dataset (@BackgroundImage F)) (count : Z) (ap : string)
    (entries : list string) (ann : gmap string (@BackgroundAnnotations F))
    (i : nat) (f : string) :
  fs !! path self = Some (FDir entries) →
  shuffle entries !! i = Some f →
  eligible fs (path self) ap f = true →
  parse_annotations float fs ap = Ok ann →
  (∀ p, is_Some (image_size p)) →
  unfinished_tasks (data self) = 0%nat →
  ∃ draws r, load float image_size fs shuffle draws self count ap = Some (Ok r).
Proof.
  intros Hdir Hi Hel Hann Himg Hunf.
  destruct (pad_files_returns fs (path self) ap count (shuffle entries) i f
              (Z.to_nat (count + 1)) Hi Hel) as [files Hpad]; [lia|].
  exists (replicate (Z.to_nat (count + 1)) i).
  unfold load. rewrite Hdir, Hpad, Hann.
  destruct (stage_total fs (path self) ap ann files
              (mkStaging (data self) (width self) (height self) 0 []) Himg)
    as [st Hst].
  rewrite Hst. apply stage_ok in Hst as (_ & Hu & _). simpl in Hu.
  unfold Queue_join. rewrite Hu, Hunf. eauto.
Qed.

End LoadProofs.

Lemma filter_length_Permutation {A} (p : A → bool) (l l' : list A) :
  l ≡ₚ l' → length (List.filter p l) = length (List.filter p l').
Proof.
  induction 1 as [|x l l' _ IH|x y l|l l' l'' _ IH1 _ IH2]; simpl.
  - done.
  - destruct (p x); simpl; by rewrite IH.
  - by destruct (p x), (p y).
  - by rewrite IH1.
Qed.

Section LoadContract.

Context {F : Type}.
Variable float : string → option F.
Variable image_size : string → option (Z * Z).

(** C1 (amended).  After [load] returns on a fresh dataset object, the
    listing it walked is longer than [count]: it is the shuffled
    directory listing followed by eligible names drawn from it with
    replacement, and is the shuffled listing itself when that is
    already longer than [count].  The queue holds one entry per
    eligible, annotated name of that listing, so the staged entries,
    the entries reported as not found and the ineligible entries of the
    directory add up to its length; every staged entry carries the
    pose the annotation mapping gives for its file; and the queue holds
    at least [count] entries when the directory has at most one
    ineligible entry and nothing was reported as not found. *)
Theorem load_staged_entries (fs : filesystem) (shuffle : list string → list string)
    (draws : list nat) (self : Dataset (@BackgroundImage F)) (count : Z)
    (ap : string) (r : @Loaded F) (entries : list string)
    (ann : gmap string (@BackgroundAnnotations F)) :
  items (data self) = [] →
  fs !! path self = Some (FDir entries) →
  parse_annotations float fs ap = Ok ann →
  load float image_size fs shuffle draws self count ap = Some (Ok r) →
  count < Z.of_nat (length (ld_files r))
  ∧ (∃ extra, ld_files r = (shuffle entries ++ extra)%list
              ∧ (∀ f, f ∈ extra →
                   f ∈ shuffle entries ∧ eligible fs (path self) ap f = true)
              ∧ (count < Z.of_nat (length (shuffle entries)) → extra = []))
  ∧ (length (items (data (ld_self r))) + ld_reported_not_found r
     + length (ineligible fs (path self) ap (shuffle entries)))%nat
    = length (ld_files r)
  ∧ (∀ b, b ∈ items (data (ld_self r)) →
       ∃ f, f ∈ shuffle entries ∧ eligible fs (path self) ap f = true
            ∧ file b = path_join (path self) f
            ∧ ann !! f = Some (annotations b))
  ∧ ((length (ineligible fs (path self) ap (shuffle entries)) ≤ 1)%nat →
     ld_reported_not_found r = 0%nat →
     count ≤ Z.of_nat (length (items (data (ld_self r))))).
Proof.
  intros Hfresh Hdir Hann Hload.
  apply load_ok in Hload
    as (entries' & extra & ann' & Hdir' & Hann' & Hfiles & Hextra & Hnopad
        & Hlen & Hitems & Hnf & _ & _).
  rewrite Hdir in Hdir'. injection Hdir' as <-.
  rewrite Hann in Hann'. injection Hann' as <-.
  rewrite Hfresh in Hitems. simpl in Hitems.
  assert ((length (items (data (ld_self r))) + ld_reported_not_found r
           + length (ineligible fs (path self) ap (shuffle entries)))%nat
          = length (ld_files r)) as Hsum.
  { pose proof (listing_partition fs (path self) ap ann (ld_files r)) as Hp.
    assert (ineligible fs (path self) ap (ld_files r)
            = ineligible fs (path self) ap (shuffle entries)) as Hin.
    { rewrite Hfiles. apply ineligible_app. intros f Hf. by apply Hextra. }
    rewrite Hitems, Hnf, <- Hin. lia. }
  split; [done|]. split; [by exists extra|]. split; [done|]. split.
  - intros b Hb. rewrite Hitems in Hb.
    apply staged_of_elem in Hb as (f & Hf & Hel & Hfile & Hpose).
    exists f. repeat split; try done.
    rewrite Hfiles in Hf. apply elem_of_app in Hf as [?|Hf]; [done|].
    by apply Hextra.
  - intros Hinel Hzero. lia.
Qed.

(** C7 (amended).  After [load] returns on a fresh dataset object,
    every staged entry is a file with a row in the annotation mapping,
    and the reported count is the number of entries of the walked
    listing, each repetition included, that pass the file test and
    have no row; these are the names printed.  It is the number of
    such files in the directory when the directory listing was already
    longer than [count], so that no name was added. *)
Theorem load_not_found_count (fs : filesystem) (shuffle : list string → list string)
    (draws : list nat) (self : Dataset (@BackgroundImage F)) (count : Z)
    (ap : string) (r : @Loaded F) (entries : list string)
    (ann : gmap string (@BackgroundAnnotations F)) :
  items (data self) = [] →
  fs !! path self = Some (FDir entries) →
  parse_annotations float fs ap = Ok ann →
  load float image_size fs shuffle draws self count ap = Some (Ok r) →
  (∀ b, b ∈ items (data (ld_self r)) →
     ∃ f, f ∈ ld_files r ∧ file b = path_join (path self) f
          ∧ ann !! f = Some (annotations b))
  ∧ ld_reported_not_found r
    = length (unmatched fs (path self) ap ann (ld_files r))
  ∧ ld_cannot_find r = unmatched fs (path self) ap ann (ld_files r)
  ∧ (∀ f, f ∈ ld_cannot_find r → ann !! f = None)
  ∧ (shuffle entries ≡ₚ entries → count < Z.of_nat (length entries) →
     ld_reported_not_found r
     = length (unmatched fs (path self) ap ann entries)).
Proof.
  intros Hfresh Hdir Hann Hload.
  apply load_ok in Hload
    as (entries' & extra & ann' & Hdir' & Hann' & Hfiles & Hextra & Hnopad
        & Hlen & Hitems & Hnf & Hcf & _).
  rewrite Hdir in Hdir'. injection Hdir' as <-.
  rewrite Hann in Hann'. injection Hann' as <-.
  rewrite Hfresh in Hitems. simpl in Hitems.
  split; [|split; [done|split; [done|split]]].
  - intros b Hb. rewrite Hitems in Hb.
    apply staged_of_elem in Hb as (f & Hf & _ & Hfile & Hpose). by exists f.
  - intros f Hf. rewrite Hcf in Hf. unfold unmatched in Hf.
    apply list_elem_of_In, List.filter_In in Hf as [_ Hf].
    apply andb_prop in Hf as [_ Hf]. by destruct (ann !! f).
  - intros Hperm Hcount.
    rewrite Hnf, Hfiles, Hnopad, app_nil_r.
    + by apply filter_length_Permutation.
    + by rewrite (Permutation_length Hperm).
Qed.

End LoadContract.

(** C1 as the specification words it fails on [bare_fs]: asked for
    one sample, [load] stages none, the listing of two names being
    already longer than one and its only image having no annotation. *)
Lemma load_stages_count_counterexample : ¬ load_stages_count.
Proof.
  intros H.
  specialize (H string numeral vga bare_fs id [] "bg" "bg/annotations.csv" 1
                fresh_bg).
  eassert (load numeral vga bare_fs id [] fresh_bg 1 "bg/annotations.csv"
           = Some (Ok _)) as Hload by (vm_compute; reflexivity).
  apply H in Hload; [|done|vm_compute; reflexivity].
  vm_compute in Hload. by apply Hload.
Qed.

(** The same happens with every file annotated, on [bg_fs]: the
    sub-directory counts toward the length of the listing, and of five
    samples asked for four are staged. *)
Example load_short_of_count :
  ∃ r, load numeral vga bg_fs id [0; 2]%nat fresh_bg 5 "bg/annotations.csv"
       = Some (Ok r)
       ∧ length (items (data (ld_self r))) = 4%nat
       ∧ ld_reported_not_found r = 0%nat.
Proof. eexists. split; [vm_compute; reflexivity|]. by split. Qed.

(** Two usable images and five samples asked for: names are drawn
    again until the listing has six entries, five of them staged. *)
Lemma load_staged_entries_witness :
  ∃ r, load numeral vga flat_fs id [0; 2; 0]%nat fresh_bg 5 "bg/annotations.csv"
       = Some (Ok r)
       ∧ 5 ≤ Z.of_nat (length (items (data (ld_self r)))).
Proof.
  eexists. split; [vm_compute; reflexivity|].
  eapply (load_staged_entries numeral vga flat_fs id [0; 2; 0]%nat fresh_bg 5
            "bg/annotations.csv" _ ["a.png"; "annotations.csv"; "b.png"]).
  - reflexivity.
  - vm_compute. reflexivity.
  - vm_compute. reflexivity.
  - vm_compute. reflexivity.
  - vm_compute. lia.
  - vm_compute. reflexivity.
Defined.

(** C7 as the specification words it fails on [bare_fs]: one file has
    no annotation, and it is counted twice once its name has been
    added to the listing. *)
Lemma not_found_counts_files_counterexample : ¬ not_found_counts_files.
Proof.
  intros H.
  specialize (H string numeral vga bare_fs id [0%nat] "bg" "bg/annotations.csv" 2
                fresh_bg).
  eassert (load numeral vga bare_fs id [0%nat] fresh_bg 2 "bg/annotations.csv"
           = Some (Ok _)) as Hload by (vm_compute; reflexivity).
  eapply H in Hload; [|done|vm_compute; reflexivity..].
  vm_compute in Hload. discriminate Hload.
Qed.

Lemma load_not_found_count_witness :
  ∃ r, load numeral vga bare_fs id [0%nat] fresh_bg 2 "bg/annotations.csv"
       = Some (Ok r)
       ∧ ld_reported_not_found r
         = length (unmatched bare_fs "bg" "bg/annotations.csv"
                     (∅ : gmap string (@BackgroundAnnotations string))
                     (ld_files r)).
Proof.
  eexists. split; [vm_compute; reflexivity|].
  eapply (load_not_found_count numeral vga bare_fs id [0%nat] fresh_bg 2
            "bg/annotations.csv" _ ["c.png"; "annotations.csv"] ∅).
  - reflexivity.
  - vm_compute. reflexivity.
  - vm_compute. reflexivity.
  - vm_compute. reflexivity.
Defined.

(** ** Construction of the factory *)

(** C6 (the code as written).  Whenever [load] returns, the value it
    returns is [None], the test on line 80 succeeds and the process
    exits with status 1; and the constructor call on line 79, which
    passes two arguments where [Dataset.__init__] takes one, raises
    [TypeError] before [load] is reached, which ends the process with
    status 1 as well.  A dataset that loads never lets construction
    proceed. *)
Theorem init_exits_although_loaded {F : Type} (float : string → option F)
    (image_size : string → option (Z * Z)) (fs : filesystem)
    (shuffle : list string → list string) (draws : list nat)
    (background_dataset : Dataset (@BackgroundImage F)) (count : Z)
    (dataset_dir : string) (r : @Loaded F) :
  load float image_size fs shuffle draws background_dataset count
    (path_join dataset_dir "annotations.csv") = Some (Ok r) →
  ld_return r = VNone
  ∧ load_or_exit float image_size fs shuffle draws background_dataset count
      dataset_dir = Some (SysExit 1)
  ∧ exit_code (@SysExit F 1) = Some 1
  ∧ DatasetFactory_init float image_size fs shuffle draws dataset_dir count
    = Some (Propagates TypeError)
  ∧ exit_code (@Propagates F TypeError) = Some 1.
Proof.
  intros Hload.
  assert (ld_return r = VNone) as Hret.
  { apply load_ok in Hload
      as (? & ? & ? & _ & _ & _ & _ & _ & _ & _ & _ & _ & Hret). exact Hret. }
  repeat split; try done.
  unfold load_or_exit. by rewrite Hload, Hret.
Qed.

Lemma init_exits_although_loaded_witness :
  load_or_exit numeral vga flat_fs id [] fresh_bg 2 "bg" = Some (SysExit 1)
  ∧ DatasetFactory_init numeral vga flat_fs id [] "bg" 2
    = Some (Propagates TypeError).
Proof.
  eassert (load numeral vga flat_fs id [] fresh_bg 2
             (path_join "bg" "annotations.csv") = Some (Ok _)) as Hload
    by (vm_compute; reflexivity).
  pose proof (init_exits_although_loaded numeral vga flat_fs id [] fresh_bg 2
                "bg" _ Hload) as (_ & Hexit & _ & Hinit & _).
  split; [exact Hexit|exact Hinit].
Defined.

(** ** Sample ids *)

Lemma length_range (n : Z) : length (range n) = Z.to_nat n.
Proof. unfold range. by rewrite length_fmap, length_seq. Qed.

Lemma length_concat_replicate {A} (n : nat) (l : list A) :
  length (concat (replicate n l)) = (n * length l)%nat.
Proof.
  induction n as [|n IH]; [done|]. simpl. rewrite length_app, IH. lia.
Qed.

Lemma omap_item_index (l : list (Z * Z)) :
  omap item_index ((λ p, VPair (VInt (fst p)) (VInt (snd p))) <$> l)
  = VInt <$> l.*1.
Proof.
  induction l as [|[a b] l IH]; [done|].
  rewrite !fmap_cons. cbn [omap list_omap item_index]. by rewrite <- IH.
Qed.

(** The work items of the parallel strategy carry the indices
    [0 .. count-1], each once, in order. *)
Lemma work_items_indices (max_ nb_threads : Z) :
  1 ≤ nb_threads →
  omap item_index (work_items max_ nb_threads) = VInt <$> range max_
  ∧ NoDup (range max_)
  ∧ ∀ i, i ∈ range max_ ↔ 0 ≤ i < max_.
Proof.
  intros Hnb. split; [|split].
  - unfold work_items. rewrite omap_item_index, fst_zip; [done|].
    rewrite length_concat_replicate, !length_range. nia.
  - unfold range. apply NoDup_fmap_2; [apply Nat2Z.inj'|apply NoDup_seq].
  - intros i. unfold range. rewrite list_elem_of_fmap. split.
    + intros (k & -> & Hk). apply elem_of_seq in Hk. lia.
    + intros Hi. exists (Z.to_nat i). split; [lia|]. apply elem_of_seq. lia.
Qed.

Lemma length_work_items (max_ nb_threads : Z) :
  1 ≤ nb_threads → length (work_items max_ nb_threads) = Z.to_nat max_.
Proof.
  intros Hnb. unfold work_items.
  rewrite length_fmap, length_zip, length_concat_replicate, !length_range. nia.
Qed.

Section FactoryProofs.

Context {F Image Array Projector : Type}.
Variable render :
  Projector → @BackgroundAnnotations F → heap → result (Image * list loc) * heap.
Variable open_image : string → result Image.
Variable variance_of_laplacian : Image → result Q.
Variable np_array : Image → result Array.
Variable filter2D : Array → list (list Q) → result Array.
Variable add_noise : Array → result Image.
Variable combine : Image → Image → result Image.
Variable size : Image → Z * Z.
Variable draw : bool → bool → bool → Image → heap → list loc → result Image.

(** A call of [generate] never reaches line 188: the constructor call
    on line 192 raises first, and the generated queue is as before. *)
Lemma generate_puts_nothing (cfg : Config) (self : @FactoryState F Image)
    (index : value) (projector : Projector)
    (out : result unit * @FactoryState F Image) :
  generate render open_image variance_of_laplacian np_array filter2D add_noise
    combine size draw cfg self index projector = Some out →
  (∃ e, out.1 = Raise e) ∧ generated_dataset out.2 = generated_dataset self.
Proof.
  unfold generate, SyntheticAnnotations_call.
  change (check_arity 3 1) with (@Raise unit TypeError). cbv iota.
  intros H. repeat case_match; simplify_eq; simpl; eauto.
Qed.

Lemma run_loop_puts_nothing (cfg : Config) (projector : Projector)
    (indices : list Z) (self : @FactoryState F Image)
    (out : result unit * @FactoryState F Image) :
  indices ≠ [] →
  run_loop render open_image variance_of_laplacian np_array filter2D add_noise
    combine size draw cfg projector indices self = Some out →
  (∃ e, out.1 = Raise e) ∧ generated_dataset out.2 = generated_dataset self.
Proof.
  destruct indices as [|i rest]; [done|]. intros _. cbn [run_loop].
  destruct (generate _ _ _ _ _ _ _ _ _ cfg self (VInt i) projector)
    as [[r self']|] eqn:E; [|done].
  apply generate_puts_nothing in E as [[e He] Hgen]. simpl in *. subst r.
  intros [= <-]. simpl. eauto.
Qed.

(** C4 (the code as written).  In a run asked for at least one sample
    no sample is emitted under either strategy.  The parallel one hands
    each work item to [generate] as a single argument, which raises
    [TypeError] before the body runs and leaves the state as it was,
    although the items carry the indices [0 .. count-1] once each; the
    sequential one passes index and renderer, and every call ends with
    the [TypeError] of line 192 before the sample is put. *)
Theorem runs_emit_no_sample (cfg : Config) (projector : Projector)
    (schedule : list value → list value) (self : @FactoryState F Image) :
  1 ≤ count cfg →
  1 ≤ nb_threads cfg →
  schedule (work_items (count cfg) (nb_threads cfg))
    ≡ₚ work_items (count cfg) (nb_threads cfg) →
  run_multi_threaded cfg schedule self = Some (Raise TypeError, self)
  ∧ omap item_index (work_items (count cfg) (nb_threads cfg))
    = VInt <$> range (count cfg)
  ∧ (∀ out,
       run render open_image variance_of_laplacian np_array filter2D add_noise
         combine size draw cfg projector self = Some out →
       (∃ e, out.1 = Raise e) ∧ emitted_ids out.2 = emitted_ids self).
Proof.
  intros Hcount Hnb Hperm. split; [|split].
  - unfold run_multi_threaded.
    destruct (Z.ltb_spec (nb_threads cfg) 1); [lia|].
    destruct (schedule (work_items (count cfg) (nb_threads cfg)))
      as [|item rest] eqn:E.
    + apply Permutation_length in Hperm.
      rewrite length_work_items in Hperm by done. simpl in Hperm. lia.
    + done.
  - by apply work_items_indices.
  - intros out. unfold run.
    destruct (run_loop _ _ _ _ _ _ _ _ _ cfg projector (range (count cfg)) self)
      as [[r self']|] eqn:E; [|done].
    apply run_loop_puts_nothing in E as [[e He] Hgen].
    2:{ intros Hnil. apply (f_equal length) in Hnil.
        rewrite length_range in Hnil. simpl in Hnil. lia. }
    simpl in *. subst r. intros [= <-]. simpl. split; [eauto|].
    unfold emitted_ids. by rewrite Hgen.
Qed.

End FactoryProofs.

Lemma runs_emit_no_sample_witness :
  run_multi_threaded (blank_config 1 1) id one_background
  = Some (Raise TypeError, one_background)
  ∧ emitted_ids one_background = []
  ∧ VInt <$> range 1 = [VInt 0].
Proof.
  pose proof (runs_emit_no_sample blank_render (λ _, Ok tt) (λ _, Ok 0%Q)
                (λ x : unit, Ok x) (λ x _, Ok x) (λ x : unit, Ok x) (λ x _, Ok x)
                (λ _, (640, 480)) (λ _ _ _ x _ _, Ok x)
                (blank_config 1 1) tt id one_background) as H.
  destruct H as (Hpar & _ & _).
  - vm_compute. discriminate.
  - vm_compute. discriminate.
  - reflexivity.
  - split; [exact Hpar|]. split; reflexivity.
Defined.

(** On the same input the sequential loop consumes the background
    sample, raises on line 192 and leaves the generated queue empty. *)
Example run_sequential_example :
  run blank_render (λ _, Ok tt) (λ _, Ok 0%Q) (λ x : unit, Ok x) (λ x _, Ok x)
    (λ x : unit, Ok x) (λ x _, Ok x) (λ _, (640, 480)) (λ _ _ _ x _ _, Ok x)
    (blank_config 1 1) tt one_background
  = Some (Raise TypeError,
          mkFactoryState (mkDataset "bg" (Some 640) (Some 480) (mkQueue [] 0))
            (mkDataset "out" None None Queue_new) 0 ∅).
Proof. vm_compute. reflexivity. Qed.

(** ** Persistence *)

Section PersistenceProofs.

Context {Image : Type}.

Lemma stuck_step (i : nat) (a : action) (s s' : @psys Image) :
  stuck i s → sys_step a s = Some s' → stuck i s'.
Proof.
  intros (Hpend & Hitems & Hi & Hidle & Hunf). destruct a as [|j]; simpl.
  { by rewrite Hpend. }
  unfold worker_step.
  destruct (p_workers s !! j) as [w|] eqn:Hj; [|done].
  destruct w as [| |x| |e]; try done.
  - unfold Queue_empty. rewrite Hitems. intros [= <-].
    unfold stuck, set_worker. simpl. repeat split; try done.
    + rewrite list_lookup_insert_ne; [done|]. intros ->. congruence.
    + intros k w Hk. destruct (decide (j = k)) as [->|Hne].
      * rewrite list_lookup_insert_eq in Hk by (by eapply lookup_lt_Some).
        injection Hk as <-. by intros [].
      * rewrite list_lookup_insert_ne in Hk by done. by eapply Hidle.
  - unfold Queue_get. by rewrite Hitems.
  - exfalso. by apply (Hidle j (WSave x)).
Qed.

Lemma stuck_forever (i : nat) (sched : list action) (s s' : @psys Image) :
  stuck i s → exec sched s = Some s' → stuck i s'.
Proof.
  revert s. induction sched as [|a sched IH]; intros s Hs; simpl.
  - by intros [= <-].
  - destruct (sys_step a s) as [s1|] eqn:E; [|done].
    apply IH. by eapply stuck_step.
Qed.

(** C5 (the code as written).  With no sample to generate the
    orchestrator puts its single [None].  A worker that tests the queue
    before the put returns at once.  A worker that takes the [None]
    does not recognise it: line 126 raises [AttributeError], no
    [task_done] follows and the [join] of line 137 cannot return.  With
    two workers, both can pass the test of line 124 on the one value;
    the one that loses the race then waits in [get] for ever.  And the
    thread that lines 99 and 123 create for [save] ends at once with a
    [TypeError], [save] having been given no [nb_threads]. *)
Theorem sentinel_not_observed :
  (∃ s, exec [Work 0%nat; Put] (save_start 1 Queue_new [None]) = Some s
        ∧ p_workers s = [@WDone Image]
        ∧ items (p_data s) = [None])
  ∧ (∃ s, exec [Put; Work 0%nat; Work 0%nat; Work 0%nat]
            (save_start 1 Queue_new [None]) = Some s
          ∧ p_workers s = [@WCrashed Image AttributeError]
          ∧ (∀ a, sys_step a s = None)
          ∧ save_returns s = false)
  ∧ (∃ s, exec [Put; Work 0%nat; Work 1%nat; Work 0%nat; Work 0%nat]
            (save_start 2 Queue_new [None]) = Some s
          ∧ p_workers s = [@WCrashed Image AttributeError; WGet]
          ∧ ∀ sched s', exec sched s = Some s' →
              p_workers s' !! 1%nat = Some WGet ∧ save_returns s' = false)
  ∧ save_thread = Raise TypeError.
Proof.
  split; [|split; [|split]].
  - exists (mkPsys (mkQueue [None] 1) [WDone] [] []).
    split; [reflexivity|]. by split.
  - exists (mkPsys (mkQueue [] 1) [WCrashed AttributeError] [] []).
    split; [reflexivity|]. split; [done|]. split; [|done].
    intros [|[|j]]; reflexivity.
  - exists (mkPsys (mkQueue [] 1) [WCrashed AttributeError; WGet] [] []).
    split; [reflexivity|]. split; [done|].
    intros sched s' Hexec.
    eapply (stuck_forever 1%nat) in Hexec as (_ & _ & Hw & _ & Hunf).
    + split; [done|]. unfold save_returns, Queue_join. by rewrite Hunf.
    + unfold stuck. simpl. repeat split; try done.
      intros [|[|j]] w; simpl; try done; intros [= <-]; by intros [].
  - reflexivity.
Qed.

(** Before any worker moves, a completed run has put exactly one
    [None], after every sample. *)
Lemma run_puts_one_sentinel {F : Type} (self : @FactoryState F Image) :
  items (data (generated_dataset (put_sentinel self)))
  = (items (data (generated_dataset self)) ++ [None])%list
  ∧ sentinels (put_sentinel self) = S (sentinels self).
Proof.
  split; [done|]. unfold sentinels, put_sentinel. simpl.
  rewrite filter_app, length_app. simpl. lia.
Qed.

End PersistenceProofs.

(* ===================================================================== *)
(** * Further properties of the code *)
(* ===================================================================== *)

(** ** [scale_coordinates]: failures, frame and range *)

(** X1.  When [scale_coordinates] fails, the part done so far stays.
    A first number that cannot be scaled (zero base width, or a
    quotient too large for a binary64) raises with the store as it
    was; a second one that cannot (zero base height among them), or a
    list of one number, raises after index 0 has been overwritten; an
    empty list raises [IndexError], a dict [KeyError] (the index 0 is
    looked up as a key), and [None], a [bool] or an [int] in place of
    the list [TypeError], the store unchanged. *)
Theorem scale_coordinates_failures (base tgt : Z * Z) (c : loc) (h : heap) :
  (∀ x rest, fst base = 0 → h !! c = Some (OList (x :: rest)) →
     scale_coordinates base (VRef c) tgt h = (Raise ZeroDivisionError, h))
  ∧ (∀ x rest e, scale_value x (fst tgt) (fst base) = Raise e →
       h !! c = Some (OList (x :: rest)) →
       scale_coordinates base (VRef c) tgt h = (Raise e, h))
  ∧ (∀ x y rest x', scale_value x (fst tgt) (fst base) = Ok x' →
       snd base = 0 →
       h !! c = Some (OList (x :: y :: rest)) →
       scale_coordinates base (VRef c) tgt h
       = (Raise ZeroDivisionError, <[c := OList (x' :: y :: rest)]> h))
  ∧ (∀ x y rest x' e, scale_value x (fst tgt) (fst base) = Ok x' →
       scale_value y (snd tgt) (snd base) = Raise e →
       h !! c = Some (OList (x :: y :: rest)) →
       scale_coordinates base (VRef c) tgt h
       = (Raise e, <[c := OList (x' :: y :: rest)]> h))
  ∧ (∀ x x', scale_value x (fst tgt) (fst base) = Ok x' →
       h !! c = Some (OList [x]) →
       scale_coordinates base (VRef c) tgt h
       = (Raise IndexError, <[c := OList [x']]> h))
  ∧ (h !! c = Some (OList []) →
     scale_coordinates base (VRef c) tgt h = (Raise IndexError, h))
  ∧ (∀ kvs, h !! c = Some (ODict kvs) →
       scale_coordinates base (VRef c) tgt h = (Raise KeyError, h))
  ∧ (∀ v, v = VNone ∨ (∃ b, v = VBool b) ∨ (∃ z, v = VInt z) →
       scale_coordinates base v tgt h = (Raise TypeError, h)).
Proof.
  assert (∀ x rest e, scale_value x (fst tgt) (fst base) = Raise e →
            h !! c = Some (OList (x :: rest)) →
            scale_coordinates base (VRef c) tgt h = (Raise e, h)) as Hfirst.
  { intros x rest e Hx Hc.
    unfold scale_coordinates, bind, list_get, lift. rewrite Hc. simpl.
    by rewrite Hx. }
  assert (∀ x y rest x' e, scale_value x (fst tgt) (fst base) = Ok x' →
            scale_value y (snd tgt) (snd base) = Raise e →
            h !! c = Some (OList (x :: y :: rest)) →
            scale_coordinates base (VRef c) tgt h
            = (Raise e, <[c := OList (x' :: y :: rest)]> h)) as Hsecond.
  { intros x y rest x' e Hx Hy Hc.
    unfold scale_coordinates, bind, list_get, list_set, lift. rewrite Hc. simpl.
    rewrite Hx, Hc. simpl. rewrite lookup_insert_eq. simpl. by rewrite Hy. }
  repeat split.
  - intros x rest Hb Hc. apply (Hfirst x rest); [|done].
    rewrite Hb. apply scale_value_zero.
  - exact Hfirst.
  - intros x y rest x' Hx Hb Hc. apply (Hsecond x y rest x'); try done.
    rewrite Hb. apply scale_value_zero.
  - exact Hsecond.
  - intros x x' Hx Hc.
    unfold scale_coordinates, bind, list_get, list_set, lift. rewrite Hc. simpl.
    rewrite Hx, Hc. simpl. by rewrite lookup_insert_eq.
  - intros Hc. unfold scale_coordinates, bind, list_get. by rewrite Hc.
  - intros kvs Hc. unfold scale_coordinates, bind, list_get. by rewrite Hc.
  - intros v [->|[[b ->]|[z ->]]]; reflexivity.
Qed.

Lemma scale_coordinates_failures_witness :
  scale_coordinates (640, 0) (VRef 1%nat) (320, 240) bbox_store
  = (Raise ZeroDivisionError, <[1%nat := OList [50; 50]]> bbox_store).
Proof.
  apply (proj1 (proj2 (proj2 (scale_coordinates_failures (640, 0) (320, 240)
                                1%nat bbox_store))) 100 50 [] 50).
  - vm_compute. reflexivity.
  - reflexivity.
  - vm_compute. reflexivity.
Defined.

(** X2.  A point inside the base image stays inside the output image:
    for positive resolutions whose products [Wb*Wo] and [Hb*Ho] do not
    exceed 2^53, coordinates with [0 <= x < Wb] and [0 <= y < Hb] are
    replaced by numbers with [0 <= x' < Wo] and [0 <= y' < Ho], and
    the rest of the list is kept. *)
Theorem scale_coordinates_in_frame (Wb Hb Wo Ho x y : Z) (rest : list Z)
    (c : loc) (h : heap) :
  0 < Wb → 0 < Hb → 0 < Wo → 0 < Ho →
  Wb * Wo ≤ 2 ^ 53 → Hb * Ho ≤ 2 ^ 53 →
  0 ≤ x < Wb → 0 ≤ y < Hb →
  h !! c = Some (OList (x :: y :: rest)) →
  ∃ x' y',
    snd (scale_coordinates (Wb, Hb) (VRef c) (Wo, Ho) h) !! c
    = Some (OList (x' :: y' :: rest))
    ∧ 0 ≤ x' < Wo ∧ 0 ≤ y' < Ho.
Proof.
  intros HWb HHb HWo HHo HW53 HH53 Hx Hy Hc.
  rewrite (scale_coordinates_ok (Wb, Hb) (Wo, Ho) c x y
             (Z.quot (x * Wo) Wb) (Z.quot (y * Ho) Hb) rest h Hc).
  - simpl. rewrite lookup_insert_eq.
    exists (Z.quot (x * Wo) Wb), (Z.quot (y * Ho) Hb). split; [done|].
    split; split.
    + apply Z.quot_pos; nia.
    + apply Z.quot_lt_upper_bound; nia.
    + apply Z.quot_pos; nia.
    + apply Z.quot_lt_upper_bound; nia.
  - apply scale_value_exact; simpl; [lia|].
    rewrite Z.abs_eq by nia. nia.
  - apply scale_value_exact; simpl; [lia|].
    rewrite Z.abs_eq by nia. nia.
Qed.

Lemma scale_coordinates_in_frame_witness :
  ∃ x' y',
    snd (scale_coordinates (640, 480) (VRef 1%nat) (320, 240) bbox_store) !! 1%nat
    = Some (OList [x'; y'])
    ∧ 0 ≤ x' < 320 ∧ 0 ≤ y' < 240.
Proof.
  apply (scale_coordinates_in_frame 640 480 320 240 100 50 [] 1%nat bbox_store);
    try lia.
  vm_compute. reflexivity.
Defined.

(** Scaling to the resolution one starts from changes nothing,
    whether the call succeeds or fails, as long as the numbers are in
    the range where the quotient is not rounded. *)
Lemma scale_coordinates_same_resolution (base : Z * Z) (v : value) (h h' : heap)
    (r : result value) :
  in_exact_range base h →
  scale_coordinates base v base h = (r, h') → h' = h.
Proof.
  intros Hex.
  destruct v as [| | |s|a b|c]; simpl; try (by intros [= _ <-]).
  - destruct (String.eqb s ""); by intros [= _ <-].
  - unfold bind, lift, throw.
    destruct a; try (by intros [= _ <-]);
      match goal with
      | |- context [scale_value ?a ?t ?b] => destruct (scale_value a t b)
      end; by intros [= _ <-].
  - unfold scale_coordinates, bind, list_get, list_set, lift, ret.
    destruct (h !! c) as [[xs|kvs]|] eqn:Hc; try (by intros [= _ <-]).
    destruct (Hex c xs Hc) as [Hx Hy].
    destruct xs as [|x xs]; simpl; [by intros [= _ <-]|].
    destruct (Z.eq_dec (fst base) 0) as [Ew|Hw].
    { rewrite Ew, scale_value_zero. by intros [= _ <-]. }
    rewrite (scale_value_exact x (fst base) (fst base) Hw (Hx x eq_refl)).
    rewrite Z.quot_mul by done.
    rewrite Hc. simpl.
    rewrite (insert_id h c (OList (x :: xs))) by done.
    rewrite Hc.
    destruct xs as [|y xs]; simpl; [by intros [= _ <-]|].
    destruct (Z.eq_dec (snd base) 0) as [Eh|Hh].
    { rewrite Eh, scale_value_zero. by intros [= _ <-]. }
    rewrite (scale_value_exact y (snd base) (snd base) Hh (Hy y eq_refl)).
    rewrite Z.quot_mul by done.
    rewrite Hc. simpl.
    rewrite (insert_id h c (OList (x :: y :: xs))) by done.
    by intros [= _ <-].
Qed.

Lemma same_shape_dict_rev (h h' : heap) (l : loc) (kvs : list (string * value)) :
  same_shape h h' → h' !! l = Some (ODict kvs) → h !! l = Some (ODict kvs).
Proof.
  intros Hs Hl. specialize (Hs l). rewrite Hl in Hs.
  destruct (h !! l) as [[?|?]|]; try done. by subst.
Qed.

(** A property of the store that holds at the start of the scaling
    loop, implies that the dicts are as at the start, and survives
    every call of [scale_coordinates] the loop can make, holds when the
    loop ends, however it ends. *)
Section LoopInvariant.

Variables (base size : Z * Z) (h0 : heap).
Variable Inv : heap → Prop.
Variable Box : loc → Prop.

Hypothesis Inv_shape : ∀ h, Inv h → same_shape h0 h.
Hypothesis Inv_step :
  ∀ bbox v h r h',
    Box bbox → Inv h → coord_arg h0 bbox v →
    scale_coordinates base v size h = (r, h') → Inv h'.

Lemma scale_item_inv (bbox : loc) (kvs : list (string * value)) (key : string)
    (val : value) (h h' : heap) (r : result unit) :
  Box bbox →
  h0 !! bbox = Some (ODict kvs) → assoc_get key kvs = Some val →
  Inv h →
  scale_item base size bbox bbox (key, val) h = (r, h') →
  Inv h'.
Proof.
  intros HB Hb0 Hk HI. unfold scale_item.
  pose proof (same_shape_dict _ _ _ _ (Inv_shape h HI) Hb0) as Hb.
  destruct (String.eqb key "min" || String.eqb key "max") eqn:Emm.
  { assert (coord_arg h0 bbox val) as Harg.
    { exists kvs. split; [done|].
      apply orb_prop in Emm as [E|E]; apply String.eqb_eq in E; subst key; auto. }
    unfold bind.
    destruct (scale_coordinates base val size h) as [[r1|e] h1] eqn:E.
    - pose proof (Inv_step _ _ _ _ _ HB HI Harg E) as HI1.
      apply scale_coordinates_inv in E as (c & x & y & rest & x' & y' & -> & -> & _).
      rewrite (dict_set_same bbox key (VRef c) h1 kvs
                 (same_shape_dict _ _ _ _ (Inv_shape h1 HI1) Hb0) Hk).
      by intros [= <- <-].
    - intros [= <- <-]. by apply (Inv_step _ _ _ _ _ HB HI Harg E). }
  destruct (String.eqb_spec key "normal") as [->|_]; [|by intros [= <- <-]].
  unfold bind.
  destruct (dict_get bbox "class_id" h) as [[cid|e] hx] eqn:E0;
    apply dict_get_inv in E0 as [-> Hcid]; [|by intros [= <- <-]].
  destruct (Hcid cid eq_refl) as (kvs' & Hb' & Hcid').
  rewrite Hb in Hb'. injection Hb' as <-.
  destruct (value_eqb_int cid 2) eqn:Ecid; simpl; [by intros [= <- <-]|].
  destruct (subscript val "origin" h) as [[o|e] hx] eqn:Eo;
    apply subscript_inv in Eo as [-> Ho]; [|by intros [= <- <-]].
  destruct (Ho o eq_refl) as (lv & kv2 & -> & Hlv & Horigin).
  pose proof (same_shape_dict_rev _ _ _ _ (Inv_shape h HI) Hlv) as Hlv0.
  assert (∀ k v, (k = "origin" ∨ k = "end") → assoc_get k kv2 = Some v →
                 coord_arg h0 bbox v) as Harg.
  { intros k v Hkk Hv. exists kvs. split; [done|]. right. right.
    by exists lv, cid, kv2, k. }
  destruct (scale_coordinates base o size h) as [[o'|e] h1] eqn:E1.
  2:{ intros [= <- <-]. eapply Inv_step; [done|exact HI| |exact E1]. eauto. }
  assert (Inv h1) as HI1.
  { eapply Inv_step; [done|exact HI| |exact E1]. eauto. }
  apply scale_coordinates_inv in E1 as (c & x & y & rest & x' & y' & -> & -> & _).
  rewrite (dict_get_same bbox "normal" (VRef lv) h1 kvs
             (same_shape_dict _ _ _ _ (Inv_shape h1 HI1) Hb0) Hk).
  simpl subscript_set.
  rewrite (dict_set_same lv "origin" (VRef c) h1 kv2
             (same_shape_dict _ _ _ _ (Inv_shape h1 HI1) Hlv0) Horigin).
  destruct (subscript (VRef lv) "end" h1) as [[e|e] hx] eqn:Ee;
    apply subscript_inv in Ee as [-> He]; [|by intros [= <- <-]].
  destruct (He e eq_refl) as (lv' & kv2' & [= <-] & Hlv' & Hend).
  rewrite (same_shape_dict _ _ _ _ (Inv_shape h1 HI1) Hlv0) in Hlv'.
  injection Hlv' as <-.
  destruct (scale_coordinates base e size h1) as [[e'|ex] h2] eqn:E2.
  2:{ intros [= <- <-]. eapply Inv_step; [done|exact HI1| |exact E2]. eauto. }
  assert (Inv h2) as HI2.
  { eapply Inv_step; [done|exact HI1| |exact E2]. eauto. }
  apply scale_coordinates_inv in E2 as (c2 & x2 & y2 & rest2 & x2' & y2' & -> & -> & _).
  rewrite (dict_get_same bbox "normal" (VRef lv) h2 kvs
             (same_shape_dict _ _ _ _ (Inv_shape h2 HI2) Hb0) Hk).
  simpl subscript_set.
  rewrite (dict_set_same lv "end" (VRef c2) h2 kv2
             (same_shape_dict _ _ _ _ (Inv_shape h2 HI2) Hlv0) Hend).
  by intros [= <- <-].
Qed.

Lemma for_each_scale_item_inv (bbox : loc) (kvs items : list (string * value))
    (h h' : heap) (r : result unit) :
  Box bbox →
  h0 !! bbox = Some (ODict kvs) →
  (∀ kv, kv ∈ items → assoc_get kv.1 kvs = Some kv.2) →
  Inv h →
  for_each (scale_item base size bbox bbox) items h = (r, h') →
  Inv h'.
Proof.
  intros HB Hb0. revert h.
  induction items as [|[key val] items IH]; intros h Hall HI; cbn [for_each].
  - by intros [= <- <-].
  - unfold bind.
    destruct (scale_item base size bbox bbox (key, val) h) as [[[]|e] h1] eqn:E.
    + intros H. apply (IH h1); [| |exact H].
      * intros kv Hin. apply Hall. apply elem_of_cons. by right.
      * eapply scale_item_inv; [done|exact Hb0| |exact HI|exact E].
        apply (Hall (key, val)). apply elem_of_cons. left. reflexivity.
    + intros [= <- <-]. eapply scale_item_inv; [done|exact Hb0| |exact HI|exact E].
      apply (Hall (key, val)). apply elem_of_cons. left. reflexivity.
Qed.

Lemma scale_bboxes_inv (bboxes : list loc) (h h' : heap) (r : result (list loc)) :
  wf_heap h0 → Forall Box bboxes → Inv h →
  scale_bboxes base size bboxes h = (r, h') →
  Inv h'.
Proof.
  intros Hwf. revert h r.
  induction bboxes as [|b bboxes IH]; intros h r HB HI; simpl.
  - by intros [= <- <-].
  - apply Forall_cons in HB as [Hb HB].
    unfold bind, scale_bbox, dict_items, ret. unfold bind.
    destruct (h !! b) as [[xs|kvs]|] eqn:Hhb; try (by intros [= <- <-]).
    pose proof (same_shape_dict_rev _ _ _ _ (Inv_shape h HI) Hhb) as Hb0.
    destruct (for_each (scale_item base size b b) kvs h) as [[[]|e] h1] eqn:E.
    2:{ intros [= <- <-]. eapply for_each_scale_item_inv; [done|exact Hb0| |exact HI|exact E].
        intros [k v] Hin. apply assoc_get_NoDup; [by apply (Hwf b)|done]. }
    assert (Inv h1) as HI1.
    { eapply for_each_scale_item_inv; [done|exact Hb0| |exact HI|exact E].
      intros [k v] Hin. apply assoc_get_NoDup; [by apply (Hwf b)|done]. }
    destruct (scale_bboxes base size bboxes h1) as [[ss|e] h2] eqn:E2;
      intros [= <- <-]; by eapply IH.
Qed.

End LoopInvariant.

(** X3.  When the output has the resolution of the background, and
    the first two numbers of the lists of the store, multiplied by it,
    stay below 2^53 in magnitude, the scaling loop of [generate]
    leaves the whole store as it was, whether it completes or
    raises. *)
Theorem scale_bboxes_same_resolution (base : Z * Z) (bboxes : list loc)
    (h h' : heap) (r : result (list loc)) :
  wf_heap h →
  in_exact_range base h →
  scale_bboxes base base bboxes h = (r, h') →
  h' = h.
Proof.
  intros Hwf Hex H.
  apply (scale_bboxes_inv base base h (λ h1, h1 = h) (λ _, True)) in H; try done.
  - intros h1 ->. apply same_shape_refl.
  - intros bbox v h1 r1 h2 _ -> _ E.
    by apply scale_coordinates_same_resolution in E.
  - by apply Forall_forall.
Qed.

(** An executable check of [in_exact_range]. *)
Lemma in_exact_range_check (base : Z * Z) (h : heap) :
  forallb (λ lo, match lo.2 with
                 | OList xs =>
                     forallb (λ x, (Z.abs (x * fst base) <? 2 ^ 53)
                                   && (Z.abs (x * snd base) <? 2 ^ 53)) xs
                 | ODict _ => true
                 end) (map_to_list h) = true →
  in_exact_range base h.
Proof.
  intros H l xs Hl.
  rewrite forallb_forall in H.
  assert (In (l, OList xs) (map_to_list h)) as Hin.
  { apply list_elem_of_In. by apply elem_of_map_to_list. }
  apply H in Hin. simpl in Hin. rewrite forallb_forall in Hin.
  split; intros x Hx; apply list_elem_of_lookup_2, list_elem_of_In, Hin in Hx;
    apply andb_prop in Hx as [H1 H2]; by apply Z.ltb_lt.
Qed.

Lemma scale_bboxes_same_resolution_witness :
  snd (scale_bboxes (640, 480) (640, 480) [0%nat] bbox_store) = bbox_store.
Proof.
  apply (scale_bboxes_same_resolution (640, 480) [0%nat] bbox_store _
           (fst (scale_bboxes (640, 480) (640, 480) [0%nat] bbox_store))).
  - apply wf_heap_check. vm_compute. reflexivity.
  - apply in_exact_range_check. vm_compute. reflexivity.
  - apply surjective_pairing.
Defined.

(** X4.  The scaling loop of [generate] changes nothing but the lists
    it is meant to scale: an object that no box of the list names
    under ['min'] or ['max'], nor, for a box whose class is not 2,
    under ['origin'] or ['end'] of its ['normal'], is after the loop
    what it was before, whether the loop completes or raises.  The
    normal of a box of class 2 is in particular left unscaled. *)
Theorem scale_bboxes_frame (base size : Z * Z) (bboxes : list loc)
    (h h' : heap) (r : result (list loc)) (l : loc) :
  wf_heap h →
  scale_bboxes base size bboxes h = (r, h') →
  (∀ b, b ∈ bboxes → ¬ coord_arg h b (VRef l)) →
  h' !! l = h !! l.
Proof.
  intros Hwf H Hl.
  apply (scale_bboxes_inv base size h
           (λ h1, same_shape h h1 ∧ h1 !! l = h !! l)
           (λ b, ¬ coord_arg h b (VRef l))) in H; try done.
  - by destruct H.
  - by intros h1 [? _].
  - intros bbox v h1 r1 h2 HB [Hs Hf] Harg E. split.
    + eapply same_shape_trans; [exact Hs|]. by eapply scale_coordinates_shape.
    + rewrite <- Hf. eapply scale_coordinates_frame; [|exact E].
      intros ->. by apply HB.
  - by apply Forall_forall.
  - split; [apply same_shape_refl|done].
Qed.

Lemma scale_bboxes_frame_witness :
  snd (scale_bboxes (640, 480) (320, 240) [0%nat] plane_store) !! 4%nat
  = plane_store !! 4%nat.
Proof.
  apply (scale_bboxes_frame (640, 480) (320, 240) [0%nat] plane_store _
           (fst (scale_bboxes (640, 480) (320, 240) [0%nat] plane_store))).
  - apply wf_heap_check. vm_compute. reflexivity.
  - apply surjective_pairing.
  - intros b Hb. apply list_elem_of_singleton in Hb as ->.
    intros (kvs & Hk & H). vm_compute in Hk. injection Hk as <-.
    destruct H as [H|[H|(n & cid & kvn & k & _ & Hcid & Hne & _)]].
    + discriminate H.
    + discriminate H.
    + injection Hcid as <-. discriminate Hne.
Defined.

(** ** Blur: how the two steps compose *)

(** X5.  The kernel [generate] blurs the projection with, by the
    ratio of the background's Laplacian variance to the threshold
    (variance not negative, threshold positive and held exactly by a
    binary64).  The thresholds 0.3 and 0.7 of the strength fall at the
    ratios 0.7 and 0.3; a hundredth away from these two, where the
    rounding of the binary64 operations cannot turn a comparison, the
    kernel is 3x3 for a ratio of at least 0.71, 5x5 for a ratio from
    0.31 to 0.69, and 9x9 for a ratio of at most 0.29. *)
Theorem blur_size_of_sharpness {Image : Type} (variance_of_laplacian : Image → Q)
    (max_blur_amount : Z) (img : Image) :
  0 < max_blur_amount < 2 ^ 53 →
  (0 <= variance_of_laplacian img)%Q →
  ((71 # 100 <= variance_of_laplacian img / inject_Z max_blur_amount)%Q →
   motion_blur_size (get_blur_amount variance_of_laplacian max_blur_amount img)
   = 3%nat)
  ∧ ((31 # 100 <= variance_of_laplacian img / inject_Z max_blur_amount)%Q →
     (variance_of_laplacian img / inject_Z max_blur_amount <= 69 # 100)%Q →
     motion_blur_size (get_blur_amount variance_of_laplacian max_blur_amount img)
     = 5%nat)
  ∧ ((variance_of_laplacian img / inject_Z max_blur_amount <= 29 # 100)%Q →
     motion_blur_size (get_blur_amount variance_of_laplacian max_blur_amount img)
     = 9%nat).
Proof.
  intros [Ht _] Hv. unfold get_blur_amount. rewrite np_div_pos by done.
  set (q := (variance_of_laplacian img / inject_Z max_blur_amount)%Q).
  unfold np_gt_one, motion_blur_size.
  assert (∀ a b, Qle_bool a b = false → (b < a)%Q) as Hfalse.
  { intros a b E. apply Qnot_le_lt. intros Hle. apply Qle_bool_iff in Hle.
    congruence. }
  destruct (Qle_bool q 1) eqn:E1; simpl.
  - apply Qle_bool_iff in E1. repeat split.
    + intros H7. assert (Qle_bool (1 - q) (3 # 10) = true) as ->; [|done].
      apply Qle_bool_iff. lra.
    + intros H3 H7.
      destruct (Qle_bool (1 - q) (3 # 10)) eqn:E.
      { apply Qle_bool_iff in E. lra. }
      assert (Qle_bool (1 - q) (7 # 10) = true) as ->; [|done].
      apply Qle_bool_iff. lra.
    + intros H3.
      destruct (Qle_bool (1 - q) (3 # 10)) eqn:E.
      { apply Qle_bool_iff in E. lra. }
      destruct (Qle_bool (1 - q) (7 # 10)) eqn:E'.
      { apply Qle_bool_iff in E'. lra. }
      done.
  - apply Hfalse in E1. repeat split; try done; intros; lra.
Qed.

Lemma blur_size_of_sharpness_witness :
  motion_blur_size (get_blur_amount (λ _ : unit, 100 # 1)%Q 200 tt) = 5%nat.
Proof.
  apply (proj1 (proj2 (blur_size_of_sharpness (λ _ : unit, 100 # 1)%Q 200 tt
                         ltac:(lia) ltac:(vm_compute; discriminate)))).
  - vm_compute. discriminate.
  - vm_compute. discriminate.
Defined.

(** X6.  A threshold that is not positive does not make
    [get_blur_amount] raise.  With threshold 0 a positive variance
    gives 1 - 0.9 and the 3x3 kernel, and variance 0 gives [nan], for
    which both tests of [apply_motion_blur] fail and the kernel is
    9x9.  With a negative threshold the amount is at least 1 and the
    kernel is 9x9. *)
Theorem blur_threshold_not_positive {Image : Type}
    (variance_of_laplacian : Image → Q) (max_blur_amount : Z) (img : Image) :
  (0 <= variance_of_laplacian img)%Q →
  (max_blur_amount = 0 → (0 < variance_of_laplacian img)%Q →
   get_blur_amount variance_of_laplacian max_blur_amount img
   = Fin (1 - (9 # 10))%Q
   ∧ motion_blur_size (get_blur_amount variance_of_laplacian max_blur_amount img)
     = 3%nat)
  ∧ (max_blur_amount = 0 → (variance_of_laplacian img == 0)%Q →
     get_blur_amount variance_of_laplacian max_blur_amount img = NaN
     ∧ motion_blur_size (get_blur_amount variance_of_laplacian max_blur_amount img)
       = 9%nat)
  ∧ (max_blur_amount < 0 →
     ∃ r, get_blur_amount variance_of_laplacian max_blur_amount img = Fin r
          ∧ (1 <= r)%Q
          ∧ motion_blur_size
              (get_blur_amount variance_of_laplacian max_blur_amount img)
            = 9%nat).
Proof.
  intros Hv. unfold get_blur_amount, np_div. split; [|split].
  - intros -> Hpos. simpl. apply Qgt_alt in Hpos. by rewrite Hpos.
  - intros -> Hzero. simpl. apply Qeq_alt in Hzero. by rewrite Hzero.
  - intros Ht. destruct (Z.eqb_spec max_blur_amount 0); [lia|].
    set (q := (variance_of_laplacian img / inject_Z max_blur_amount)%Q).
    assert (q <= 0)%Q as Hq.
    { assert (inject_Z max_blur_amount < 0)%Q as HT.
      { change 0%Q with (inject_Z 0). by rewrite <- Zlt_Qlt. }
      assert (q * inject_Z max_blur_amount == variance_of_laplacian img)%Q as Hm.
      { unfold q. field. lra. }
      apply Qnot_lt_le. intros Hpos.
      assert (q * inject_Z max_blur_amount < q * 0)%Q as Hneg
        by (by apply Qmult_lt_l).
      lra. }
    assert (Qle_bool q 1 = true) as E1 by (apply Qle_bool_iff; lra).
    unfold np_gt_one. rewrite E1. simpl.
    exists (1 - q)%Q. split; [done|]. split; [lra|].
    unfold motion_blur_size, np_le.
    destruct (Qle_bool (1 - q) (3 # 10)) eqn:E.
    { apply Qle_bool_iff in E. lra. }
    destruct (Qle_bool (1 - q) (7 # 10)) eqn:E'.
    { apply Qle_bool_iff in E'. lra. }
    done.
Qed.

Lemma blur_threshold_not_positive_witness :
  get_blur_amount (λ _ : unit, 0 # 1)%Q 0 tt = NaN
  ∧ motion_blur_size (get_blur_amount (λ _ : unit, 0 # 1)%Q 0 tt) = 9%nat.
Proof.
  apply (proj1 (proj2 (blur_threshold_not_positive (λ _ : unit, 0 # 1)%Q 0 tt
                         ltac:(vm_compute; discriminate)))).
  - reflexivity.
  - reflexivity.
Defined.

(** X7.  Whatever the amount, the kernel [apply_motion_blur] convolves
    with is square, of side 3, 5 or 9, and its entries add up to 1. *)
Theorem motion_blur_kernel_normalised (amount : npfloat) :
  let size := motion_blur_size amount in
  let kernel := motion_blur_kernel size in
  (size = 3 ∨ size = 5 ∨ size = 9)%nat
  ∧ length kernel = size
  ∧ Forall (λ row, length row = size) kernel
  ∧ (kernel_weight kernel == 1)%Q.
Proof.
  unfold motion_blur_size.
  destruct (np_le amount (3 # 10)); [|destruct (np_le amount (7 # 10))];
    cbv zeta; (split; [auto|]); (split; [reflexivity|]);
    (split; [repeat constructor|]); vm_compute; reflexivity.
Qed.

(** ** The parsed mapping *)

Lemma rstrip_idem (s : string) : rstrip (rstrip s) = rstrip s.
Proof.
  induction s as [|c s IH]; [done|]. cbn [rstrip].
  destruct (rstrip s) as [|c' r] eqn:E.
  - destruct (isspace c) eqn:Ec; [done|]. cbn [rstrip]. by rewrite Ec.
  - cbn [rstrip]. cbn [rstrip] in IH.
    destruct (rstrip r) as [|c'' r'] eqn:E'.
    + destruct (isspace c'); [done|]. by rewrite IH.
    + by rewrite IH.
Qed.

Lemma lstrip_rstrip_lstrip (s : string) : lstrip (rstrip (lstrip s)) = rstrip (lstrip s).
Proof.
  induction s as [|c s IH]; [done|]. cbn [lstrip].
  destruct (isspace c) eqn:Ec; [done|].
  cbn [rstrip]. destruct (rstrip s) as [|c' r].
  - rewrite Ec. cbn [lstrip]. by rewrite Ec.
  - cbn [lstrip]. by rewrite Ec.
Qed.

Lemma strip_idem (s : string) : strip (strip s) = strip s.
Proof. unfold strip. by rewrite lstrip_rstrip_lstrip, rstrip_idem. Qed.

Lemma parse_lines_size {F : Type} (float : string → option F) (lines : list string)
    (m0 m : gmap string (@BackgroundAnnotations F)) :
  parse_lines float lines m0 = Ok m → (size m ≤ size m0 + length lines)%nat.
Proof.
  revert m0. induction lines as [|l lines IH]; intros m0; simpl.
  - intros [= ->]. lia.
  - destruct (parse_line float l) as [[k a]|e]; [|done].
    intros H. apply IH in H.
    rewrite map_size_insert in H.
    destruct (m0 !! k); simpl in H; lia.
Qed.

(** X8.  In the mapping [parse_annotations] returns every key is
    stripped of surrounding whitespace, so a name that begins or ends
    with whitespace is never found in it; and there are at most as many
    entries as the file has lines after the first. *)
Theorem parse_annotations_keys {F : Type} (float : string → option F)
    (fs : filesystem) (path : string) (lines : list string)
    (m : gmap string (@BackgroundAnnotations F)) :
  fs !! path = Some (FFile lines) →
  parse_annotations float fs path = Ok m →
  (∀ k, is_Some (m !! k) → strip k = k)
  ∧ (∀ k, strip k ≠ k → m !! k = None)
  ∧ (size m ≤ length lines - 1)%nat.
Proof.
  intros Hfile Hparse. unfold parse_annotations in Hparse. rewrite Hfile in Hparse.
  assert (∀ k, is_Some (m !! k) → strip k = k) as Hkeys.
  { intros k [a Hk].
    destruct (parse_lines_lookup float _ ∅ m k a Hparse Hk)
      as [Hempty|(line & _ & Hline)].
    { by rewrite lookup_empty in Hempty. }
    apply parse_line_inv in Hline as [-> _]. apply strip_idem. }
  split; [done|]. split.
  - intros k Hne. destruct (m !! k) as [a|] eqn:E; [|done].
    exfalso. apply Hne, Hkeys. by rewrite E.
  - apply parse_lines_size in Hparse. rewrite map_size_empty in Hparse.
    rewrite length_drop in Hparse. lia.
Qed.

Lemma parse_annotations_keys_witness :
  ∃ m, parse_annotations numeral bg_fs "bg/annotations.csv" = Ok m
       ∧ m !! " a.png" = None
       ∧ (size m ≤ 2)%nat.
Proof.
  eexists. split; [vm_compute; reflexivity|].
  eassert (parse_annotations numeral bg_fs "bg/annotations.csv" = Ok _) as Hp
    by (vm_compute; reflexivity).
  eassert (bg_fs !! "bg/annotations.csv" = Some (FFile _)) as Hf
    by (vm_compute; reflexivity).
  destruct (parse_annotations_keys numeral bg_fs "bg/annotations.csv" _ _ Hf Hp)
    as (_ & Hmiss & Hsize).
  split; [|exact Hsize].
  apply Hmiss. vm_compute. discriminate.
Defined.

(** ** [load]: edge cases and what ends up staged *)

Section LoadEdges.

Context {F : Type}.
Variable float : string → option F.
Variable image_size : string → option (Z * Z).

Lemma pad_files_hangs (fs : filesystem) (dir ap : string) (count : Z)
    (draws : list nat) (files : list string) :
  files ≠ [] →
  (∀ f, f ∈ files → eligible fs dir ap f = false) →
  Z.of_nat (length files) ≤ count →
  pad_files fs dir ap count draws files = None.
Proof.
  intros Hne Hel Hlen. induction draws as [|d draws IH]; cbn [pad_files].
  - destruct (Z.leb_spec (Z.of_nat (length files)) count); [|lia].
    by destruct files.
  - destruct (Z.leb_spec (Z.of_nat (length files)) count); [|lia].
    destruct files as [|f0 files0] eqn:Efiles; [done|]. rewrite <- Efiles in *.
    assert (d mod length files < length files)%nat as Hlt.
    { apply Nat.mod_upper_bound. rewrite Efiles. simpl. lia. }
    destruct (lookup_lt_is_Some_2 files _ Hlt) as [choice Hc].
    rewrite Hc. by rewrite (Hel choice) by (by eapply list_elem_of_lookup_2).
Qed.

(** X9.  On an empty directory [load] raises [IndexError] as soon as
    [count] is not negative ([random.choice] on an empty list),
    whatever the random draws; it does not reach the annotations
    file. *)
Theorem load_empty_directory (fs : filesystem)
    (shuffle : list string → list string) (draws : list nat)
    (self : Dataset (@BackgroundImage F)) (count : Z) (ap : string)
    (entries : list string) :
  fs !! path self = Some (FDir entries) →
  shuffle entries = [] →
  0 ≤ count →
  load float image_size fs shuffle draws self count ap = Some (Raise IndexError).
Proof.
  intros Hdir Hsh Hcount. unfold load. rewrite Hdir, Hsh.
  destruct draws; cbn [pad_files];
    by destruct (Z.leb_spec (Z.of_nat (length (@nil string))) count);
      [|simpl in *; lia].
Qed.

(** X10.  [load] never returns when the directory is not empty, none
    of its entries passes the file test of line 90, and at least as
    many samples are asked for as it has entries: however long the
    sequence of random draws, the padding loop is still running at its
    end. *)
Theorem load_never_returns (fs : filesystem)
    (shuffle : list string → list string) (draws : list nat)
    (self : Dataset (@BackgroundImage F)) (count : Z) (ap : string)
    (entries : list string) :
  fs !! path self = Some (FDir entries) →
  shuffle entries ≠ [] →
  (∀ f, f ∈ shuffle entries → eligible fs (path self) ap f = false) →
  Z.of_nat (length (shuffle entries)) ≤ count →
  load float image_size fs shuffle draws self count ap = None.
Proof.
  intros Hdir Hne Hel Hlen. unfold load. rewrite Hdir.
  by rewrite pad_files_hangs.
Qed.

Lemma pad_files_no_padding (fs : filesystem) (dir ap : string) (count : Z)
    (draws : list nat) (files : list string) :
  count < Z.of_nat (length files) →
  pad_files fs dir ap count draws files = Some (Ok files).
Proof.
  intros Hlen. destruct draws; cbn [pad_files];
    by destruct (Z.leb_spec (Z.of_nat (length files)) count); [lia|].
Qed.

(** X11.  The failures of [load] that end a run: a path that is not a
    directory raises [OSError]; on a directory with more entries than
    [count], whatever [parse_annotations] raises is raised by [load],
    in particular "Annotations file not found" when the annotations
    path is not a file, and a [ValueError] for a bad number. *)
Theorem load_fatal (fs : filesystem) (shuffle : list string → list string)
    (draws : list nat) (self : Dataset (@BackgroundImage F)) (count : Z)
    (ap : string) :
  (isdir fs (path self) = false →
   load float image_size fs shuffle draws self count ap = Some (Raise OSError))
  ∧ (∀ entries e,
       fs !! path self = Some (FDir entries) →
       count < Z.of_nat (length (shuffle entries)) →
       parse_annotations float fs ap = Raise e →
       load float image_size fs shuffle draws self count ap = Some (Raise e))
  ∧ (∀ entries,
       fs !! path self = Some (FDir entries) →
       count < Z.of_nat (length (shuffle entries)) →
       isfile fs ap = false →
       load float image_size fs shuffle draws self count ap
       = Some (Raise (Exception "Annotations file not found"))).
Proof.
  assert (∀ entries e,
            fs !! path self = Some (FDir entries) →
            count < Z.of_nat (length (shuffle entries)) →
            parse_annotations float fs ap = Raise e →
            load float image_size fs shuffle draws self count ap
            = Some (Raise e)) as Hraise.
  { intros entries e Hdir Hlen Hparse. unfold load.
    by rewrite Hdir, pad_files_no_padding, Hparse. }
  split; [|split; [done|]].
  - unfold isdir, load. by destruct (fs !! path self) as [[?|?]|].
  - intros entries Hdir Hlen Hfile. apply (Hraise entries); [done..|].
    unfold parse_annotations. unfold isfile in Hfile.
    by destruct (fs !! ap) as [[?|?]|].
Qed.

End LoadEdges.

Lemma load_empty_directory_witness :
  load numeral vga (<["bg" := FDir []]> ∅) id [3; 1]%nat fresh_bg 0
    "bg/annotations.csv"
  = Some (Raise IndexError).
Proof.
  apply (load_empty_directory numeral vga (<["bg" := FDir []]> ∅) id [3; 1]%nat
           fresh_bg 0 "bg/annotations.csv" []).
  - vm_compute. reflexivity.
  - reflexivity.
  - lia.
Defined.

Lemma load_never_returns_witness :
  load numeral vga (<["bg" := FDir ["raw"]]> (<["bg/raw" := FDir []]> ∅)) id
    [0; 0; 0]%nat fresh_bg 1 "bg/annotations.csv"
  = None.
Proof.
  apply (load_never_returns numeral vga
           (<["bg" := FDir ["raw"]]> (<["bg/raw" := FDir []]> ∅)) id
           [0; 0; 0]%nat fresh_bg 1 "bg/annotations.csv" ["raw"]).
  - vm_compute. reflexivity.
  - discriminate.
  - intros f Hf. apply list_elem_of_singleton in Hf as ->. vm_compute. reflexivity.
  - simpl. lia.
Defined.

Lemma load_fatal_witness :
  load numeral vga (delete "bg/annotations.csv" flat_fs) id [] fresh_bg 2
    "bg/annotations.csv"
  = Some (Raise (Exception "Annotations file not found")).
Proof.
  apply (proj2 (proj2 (load_fatal numeral vga
                         (delete "bg/annotations.csv" flat_fs) id [] fresh_bg 2
                         "bg/annotations.csv"))
           ["a.png"; "annotations.csv"; "b.png"]).
  - vm_compute. reflexivity.
  - simpl. lia.
  - vm_compute. reflexivity.
Defined.

Section LoadStaged.

Context {F : Type}.
Variable float : string → option F.
Variable image_size : string → option (Z * Z).

(** X12.  Everything [load] puts on the queue names a regular file
    that exists and is not the annotations file. *)
Theorem load_stages_files (fs : filesystem) (shuffle : list string → list string)
    (draws : list nat) (self : Dataset (@BackgroundImage F)) (count : Z)
    (ap : string) (r : @Loaded F) :
  items (data self) = [] →
  load float image_size fs shuffle draws self count ap = Some (Ok r) →
  ∀ b, b ∈ items (data (ld_self r)) →
       isfile fs (file b) = true ∧ file b ≠ ap.
Proof.
  intros Hfresh Hload b Hb.
  apply (load_ok float image_size) in Hload
    as (entries & extra & ann & _ & _ & _ & _ & _ & _ & Hitems & _).
  rewrite Hfresh in Hitems. simpl in Hitems. rewrite Hitems in Hb.
  apply staged_of_elem in Hb as (f & _ & Hel & -> & _).
  unfold eligible in Hel. apply andb_prop in Hel as [Hfile Hne].
  split; [done|]. intros Heq. rewrite Heq, String.eqb_refl in Hne. done.
Qed.

(** X13.  When the directory has more entries than [count], [load]
    adds no name to the listing, and the queue holds, in some order,
    one entry for each listed regular file that has an annotation: no
    file is staged twice and none that qualifies is left out. *)
Theorem load_stages_each_once (fs : filesystem)
    (shuffle : list string → list string) (draws : list nat)
    (self : Dataset (@BackgroundImage F)) (count : Z) (ap : string)
    (r : @Loaded F) (entries : list string)
    (ann : gmap string (@BackgroundAnnotations F)) :
  items (data self) = [] →
  fs !! path self = Some (FDir entries) →
  parse_annotations float fs ap = Ok ann →
  shuffle entries ≡ₚ entries →
  count < Z.of_nat (length entries) →
  load float image_size fs shuffle draws self count ap = Some (Ok r) →
  ld_files r = shuffle entries
  ∧ items (data (ld_self r)) ≡ₚ staged_of fs (path self) ap ann entries.
Proof.
  intros Hfresh Hdir Hann Hperm Hcount Hload.
  apply (load_ok float image_size) in Hload
    as (entries' & extra & ann' & Hdir' & Hann' & Hfiles & _ & Hnopad & _
        & Hitems & _).
  rewrite Hdir in Hdir'. injection Hdir' as <-.
  rewrite Hann in Hann'. injection Hann' as <-.
  rewrite Hnopad, app_nil_r in Hfiles
    by (by rewrite (Permutation_length Hperm)).
  split; [done|].
  rewrite Hitems, Hfresh, Hfiles. simpl. unfold staged_of. by rewrite Hperm.
Qed.

Lemma stage_keeps_size (fs : filesystem) (dir ap : string)
    (ann : gmap string (@BackgroundAnnotations F)) (files : list string)
    (st st' : @Staging F) :
  falsy (st_width st) && falsy (st_height st) = false →
  stage image_size fs dir ap ann files st = Ok st' →
  st_width st' = st_width st ∧ st_height st' = st_height st.
Proof.
  revert st. induction files as [|f files IH]; intros st Hset.
  - by intros [= <-].
  - cbn [stage]. cbv zeta.
    destruct (isfile fs (path_join dir f) && _); [|by apply IH].
    destruct (ann !! f) as [a|].
    + rewrite put_task_done, Hset. intros H. by apply IH in H.
    + intros H. by apply IH in H.
Qed.

Lemma stage_first_size (fs : filesystem) (dir ap : string)
    (ann : gmap string (@BackgroundAnnotations F)) (files : list string)
    (st st' : @Staging F) :
  falsy (st_width st) && falsy (st_height st) = true →
  stage image_size fs dir ap ann files st = Ok st' →
  match staged_of fs dir ap ann files with
  | [] => st_width st' = st_width st ∧ st_height st' = st_height st
  | b :: _ =>
      ∃ w h, image_size (file b) = Some (w, h)
             ∧ ((w ≠ 0 ∨ h ≠ 0) → st_width st' = Some w ∧ st_height st' = Some h)
  end.
Proof.
  revert st. induction files as [|f files IH]; intros st Hunset.
  - by intros [= <-].
  - cbn [stage]. cbv zeta.
    change (isfile fs (path_join dir f) && negb (String.eqb (path_join dir f) ap))
      with (eligible fs dir ap f).
    destruct (eligible fs dir ap f) eqn:Eel.
    2:{ destruct (listing_skip fs dir ap ann f files Eel) as [-> _]. by apply IH. }
    destruct (ann !! f) as [a|] eqn:Ea.
    2:{ destruct (listing_miss fs dir ap ann f files Eel Ea) as [-> _].
        intros H. by apply IH in H. }
    destruct (listing_hit fs dir ap ann f files a Eel Ea) as [-> _].
    rewrite put_task_done, Hunset.
    destruct (image_size (path_join dir f)) as [[w h]|] eqn:Esz; [|done].
    intros H. exists w, h. split; [done|]. intros Hnz.
    apply stage_keeps_size in H; [done|]. simpl.
    destruct Hnz as [Hw|Hh].
    + destruct (Z.eqb_spec w 0); [done|]. done.
    + destruct (Z.eqb_spec h 0); [done|]. by rewrite andb_false_r.
Qed.

(** X14.  The resolution [get_image_size] reports after [load] is the
    size of the first image staged, later images being never measured;
    when nothing was staged it is [(None, None)]. *)
Theorem load_resolution (fs : filesystem) (shuffle : list string → list string)
    (draws : list nat) (dir : string) (count : Z) (ap : string) (r : @Loaded F) :
  load float image_size fs shuffle draws (mkDataset dir None None Queue_new)
    count ap = Some (Ok r) →
  match items (data (ld_self r)) with
  | [] => get_image_size (ld_self r) = (None, None)
  | b :: _ =>
      ∃ w h, image_size (file b) = Some (w, h)
             ∧ ((w ≠ 0 ∨ h ≠ 0) → get_image_size (ld_self r) = (Some w, Some h))
  end.
Proof.
  intros Hload. pose proof Hload as Hok.
  apply (load_ok float image_size) in Hok
    as (entries & extra & ann & Hdir & Hann & _ & _ & _ & _ & Hitems & _).
  simpl in Hitems, Hdir. rewrite Hitems.
  unfold load in Hload. simpl in Hload. rewrite Hdir, Hann in Hload.
  destruct (pad_files fs dir ap count draws (shuffle entries))
    as [[files|e]|]; try done.
  destruct (stage image_size fs dir ap ann files _) as [st|e] eqn:Est; [|done].
  destruct (Queue_join (st_data st)); [|done].
  injection Hload as <-. simpl.
  apply stage_first_size in Est; [|done]. unfold get_image_size. simpl in *.
  destruct (staged_of fs dir ap ann files) as [|b bs].
  - destruct Est as [-> ->]. done.
  - destruct Est as (w & h & Hsz & Hset). exists w, h. split; [done|].
    intros Hnz. by destruct (Hset Hnz) as [-> ->].
Qed.

End LoadStaged.

Lemma load_stages_files_witness :
  ∃ r, load numeral vga flat_fs id [] fresh_bg 2 "bg/annotations.csv" = Some (Ok r)
       ∧ ∀ b, b ∈ items (data (ld_self r)) →
              isfile flat_fs (file b) = true ∧ file b ≠ "bg/annotations.csv".
Proof.
  eexists. split; [vm_compute; reflexivity|].
  apply (load_stages_files numeral vga flat_fs id [] fresh_bg 2).
  - reflexivity.
  - vm_compute. reflexivity.
Defined.

Lemma load_stages_each_once_witness :
  ∃ r ann,
    load numeral vga flat_fs id [] fresh_bg 2 "bg/annotations.csv" = Some (Ok r)
    ∧ items (data (ld_self r))
      ≡ₚ staged_of flat_fs "bg" "bg/annotations.csv" ann
           ["a.png"; "annotations.csv"; "b.png"].
Proof.
  eassert (load numeral vga flat_fs id [] fresh_bg 2 "bg/annotations.csv"
           = Some (Ok _)) as Hload by (vm_compute; reflexivity).
  eassert (parse_annotations numeral flat_fs "bg/annotations.csv" = Ok _) as Hann
    by (vm_compute; reflexivity).
  assert (flat_fs !! "bg" = Some (FDir ["a.png"; "annotations.csv"; "b.png"]))
    as Hdir by (vm_compute; reflexivity).
  eexists. eexists. split; [exact Hload|].
  refine (proj2 (load_stages_each_once numeral vga flat_fs id [] fresh_bg 2
                   "bg/annotations.csv" _ ["a.png"; "annotations.csv"; "b.png"] _
                   eq_refl Hdir Hann _ _ Hload)).
  - reflexivity.
  - simpl. lia.
Defined.

Lemma load_resolution_witness :
  ∃ r, load numeral vga flat_fs id [] (mkDataset "bg" None None Queue_new) 2
         "bg/annotations.csv" = Some (Ok r)
       ∧ get_image_size (ld_self r) = (Some 640, Some 480).
Proof.
  eexists. split; [vm_compute; reflexivity|].
  eassert (load numeral vga flat_fs id [] (mkDataset "bg" None None Queue_new) 2
             "bg/annotations.csv" = Some (Ok _)) as Hload
    by (vm_compute; reflexivity).
  apply (load_resolution numeral vga) in Hload.
  simpl in Hload. destruct Hload as (w & h & Hsz & Hset).
  injection Hsz as <- <-. apply Hset. left. lia.
Defined.

(** ** [generate] and the run loops: effects and edge cases *)

Lemma lookup_range (n : Z) (i : nat) :
  (i < Z.to_nat n)%nat → range n !! i = Some (Z.of_nat i).
Proof.
  intros Hi. unfold range. by rewrite list_lookup_fmap, lookup_seq_lt.
Qed.

Lemma lookup_concat_replicate {A} (n : nat) (l : list A) (i : nat) :
  (i < n * length l)%nat →
  concat (replicate n l) !! i = l !! (i mod length l)%nat.
Proof.
  revert i. induction n as [|n IH]; intros i Hi; [lia|].
  assert (length l ≠ 0)%nat as Hl by (intros E; rewrite E in Hi; lia).
  simpl. destruct (decide (i < length l)%nat) as [Hlt|Hge].
  - by rewrite lookup_app_l, Nat.mod_small.
  - rewrite lookup_app_r by lia. rewrite IH by lia.
    replace i with ((i - length l) + 1 * length l)%nat at 2 by lia.
    by rewrite Nat.Div0.mod_add.
Qed.

(** X15.  The work items of the parallel strategy pair index [i] with
    projector number [i mod nb_threads]: the projectors are assigned
    round robin. *)
Theorem work_items_round_robin (max_ nb_threads : Z) (i : nat) :
  1 ≤ nb_threads →
  (i < Z.to_nat max_)%nat →
  work_items max_ nb_threads !! i
  = Some (VPair (VInt (Z.of_nat i)) (VInt (Z.of_nat i `mod` nb_threads))).
Proof.
  intros Hnb Hi. unfold work_items.
  rewrite list_lookup_fmap, lookup_zip_with.
  rewrite lookup_range by done. simpl.
  rewrite lookup_concat_replicate by (rewrite length_range; nia).
  rewrite length_range.
  rewrite lookup_range by (apply Nat.mod_upper_bound; lia). simpl.
  rewrite Nat2Z.inj_mod, Z2Nat.id by lia. done.
Qed.

Lemma work_items_round_robin_witness :
  work_items 5 2 !! 3%nat = Some (VPair (VInt 3) (VInt (3 `mod` 2))).
Proof.
  apply (work_items_round_robin 5 2 3); [lia|]. simpl. lia.
Defined.

Section FactoryEffects.

Context {F Image Array Projector : Type}.
Variable render :
  Projector → @BackgroundAnnotations F → heap → result (Image * list loc) * heap.
Variable open_image : string → result Image.
Variable variance_of_laplacian : Image → result Q.
Variable np_array : Image → result Array.
Variable filter2D : Array → list (list Q) → result Array.
Variable add_noise : Array → result Image.
Variable combine : Image → Image → result Image.
Variable size : Image → Z * Z.
Variable draw : bool → bool → bool → Image → heap → list loc → result Image.

Lemma generate_blocks_iff (cfg : Config) (self : @FactoryState F Image)
    (index : value) (projector : Projector) :
  generate render open_image variance_of_laplacian np_array filter2D add_noise
    combine size draw cfg self index projector = None
  ↔ items (data (background_dataset self)) = [].
Proof.
  unfold generate, Queue_get.
  destruct (items (data (background_dataset self))) as [|background rest];
    [done|].
  split; [|done].
  intros H. repeat case_match; simplify_eq.
Qed.

(** X16.  [generate] blocks exactly when the background queue is
    empty.  Otherwise it takes the head of that queue and nothing
    else from it.  When the renderer raises, that exception is the
    outcome, and the counter [visible_gates] is unchanged; it is
    unchanged too when the renderer returns no box.  When there is a
    box, the projection is blurred and noised first (lines 157-159):
    if that raises, the exception is the outcome and the counter is
    unchanged; if not, the counter is one higher, also when a later
    step raises. *)
Theorem generate_effects (cfg : Config) (self : @FactoryState F Image)
    (index : value) (projector : Projector) :
  (generate render open_image variance_of_laplacian np_array filter2D add_noise
     combine size draw cfg self index projector = None
   ↔ items (data (background_dataset self)) = [])
  ∧ (∀ out,
       generate render open_image variance_of_laplacian np_array filter2D
         add_noise combine size draw cfg self index projector = Some out →
       ∃ background rest,
         items (data (background_dataset self)) = background :: rest
         ∧ items (data (background_dataset out.2)) = rest
         ∧ match render projector (annotations background) (store self) with
           | (Raise e, h) =>
               out.1 = Raise e
               ∧ visible_gates out.2 = visible_gates self
               ∧ store out.2 = h
           | (Ok (projection, bboxes), h) =>
               if decide (bboxes = []) then
                 visible_gates out.2 = visible_gates self
               else
                 match blur_and_noise open_image variance_of_laplacian np_array
                         filter2D add_noise cfg projection (file background) with
                 | Raise e =>
                     out.1 = Raise e
                     ∧ visible_gates out.2 = visible_gates self
                     ∧ store out.2 = h
                 | Ok _ => visible_gates out.2 = S (visible_gates self)
                 end
           end).
Proof.
  split; [apply generate_blocks_iff|].
  unfold generate, Queue_get.
  destruct (items (data (background_dataset self))) as [|background rest] eqn:Eq.
  { intros out [=]. }
  intros out Hout. exists background, rest. split; [done|].
  destruct (render projector (annotations background) (store self))
    as [[[projection bboxes]|e] h].
  2:{ injection Hout as <-. simpl. done. }
  destruct bboxes as [|b0 bs].
  - rewrite decide_True by done. simpl in Hout.
    repeat case_match; simplify_eq; simpl; done.
  - rewrite decide_False by done. simpl in Hout.
    destruct (blur_and_noise _ _ _ _ _ cfg projection (file background))
      as [noised|e].
    + repeat case_match; simplify_eq; simpl; done.
    + injection Hout as <-. simpl. done.
Qed.

(** X17.  A sequential run asked for at least one sample never
    returns when no background was staged: the first [generate]
    blocks in [get]. *)
Theorem run_blocks_without_background (cfg : Config) (projector : Projector)
    (self : @FactoryState F Image) :
  1 ≤ count cfg →
  items (data (background_dataset self)) = [] →
  run render open_image variance_of_laplacian np_array filter2D add_noise
    combine size draw cfg projector self = None.
Proof.
  intros Hcount Hempty. unfold run.
  destruct (range (count cfg)) as [|i rest] eqn:E.
  { apply (f_equal length) in E. rewrite length_range in E. simpl in E. lia. }
  cbn [run_loop].
  by rewrite (proj2 (generate_blocks_iff cfg self (VInt i) projector) Hempty).
Qed.

(** X18.  A sequential run asked for no sample (a count of zero or
    less) calls [generate] not at all and puts the single [None]; what
    it then returns is what the closing report of lines 113-114
    returns.  With a count of zero the report raises
    [ZeroDivisionError], after the put, and so does the parallel run on
    lines 145-146; with a negative count and the counter at zero, as
    [__init__] leaves it, the sequential run ends normally.  The
    parallel strategy raises [ValueError] instead, the state untouched,
    when [nb_threads] is below 1. *)
Theorem run_without_samples (cfg : Config) (projector : Projector)
    (schedule : list value → list value) (self : @FactoryState F Image) :
  count cfg ≤ 0 →
  run render open_image variance_of_laplacian np_array filter2D add_noise
    combine size draw cfg projector self
  = Some (report cfg self, put_sentinel self)
  ∧ (count cfg = 0 → 1 ≤ nb_threads cfg → schedule [] = [] →
     run_multi_threaded cfg schedule self
     = Some (Raise ZeroDivisionError, put_sentinel self))
  ∧ (nb_threads cfg < 1 →
     run_multi_threaded cfg schedule self = Some (Raise ValueError, self))
  ∧ (count cfg = 0 → report cfg self = Raise ZeroDivisionError)
  ∧ (count cfg < 0 → visible_gates self = 0%nat → report cfg self = Ok tt)
  ∧ items (data (generated_dataset (put_sentinel self)))
    = (items (data (generated_dataset self)) ++ [None])%list
  ∧ background_dataset (put_sentinel self) = background_dataset self.
Proof.
  intros Hcount.
  assert (range (count cfg) = []) as Hrange.
  { unfold range. by replace (Z.to_nat (count cfg)) with 0%nat by lia. }
  split; [|split; [|split; [|split; [|split; [|done]]]]].
  - unfold run. by rewrite Hrange.
  - intros H0 Hnb Hsched. unfold run_multi_threaded, work_items.
    destruct (Z.ltb_spec (nb_threads cfg) 1); [lia|].
    rewrite Hrange. simpl. rewrite Hsched. simpl.
    unfold report. by rewrite H0.
  - intros Hnb. unfold run_multi_threaded.
    by destruct (Z.ltb_spec (nb_threads cfg) 1); [|lia].
  - intros H0. unfold report. by rewrite H0.
  - intros Hneg Hv. unfold report. rewrite Hv.
    by destruct (Z.eqb_spec (count cfg) 0); [lia|].
Qed.

End FactoryEffects.

Lemma generate_effects_witness :
  ∃ out,
    generate blank_render (λ _, Ok tt) (λ _, Ok 0%Q) (λ x : unit, Ok x) (λ x _, Ok x)
      (λ x : unit, Ok x) (λ x _, Ok x) (λ _, (640, 480)) (λ _ _ _ x _ _, Ok x)
      (blank_config 1 1) one_background (VInt 0) tt = Some out
    ∧ items (data (background_dataset out.2)) = []
    ∧ visible_gates out.2 = 0%nat.
Proof.
  eexists. split; [vm_compute; reflexivity|].
  eassert (generate blank_render (λ _, Ok tt) (λ _, Ok 0%Q) (λ x : unit, Ok x) (λ x _, Ok x)
             (λ x : unit, Ok x) (λ x _, Ok x) (λ _, (640, 480)) (λ _ _ _ x _ _, Ok x)
             (blank_config 1 1) one_background (VInt 0) tt = Some _) as Hg
    by (vm_compute; reflexivity).
  apply (proj2 (generate_effects blank_render (λ _, Ok tt) (λ _, Ok 0%Q)
                  (λ x : unit, Ok x) (λ x _, Ok x) (λ x : unit, Ok x) (λ x _, Ok x)
                  (λ _, (640, 480)) (λ _ _ _ x _ _, Ok x)
                  (blank_config 1 1) one_background (VInt 0) tt)) in Hg
    as (background & rest & Hq & Hrest & Hvis).
  simpl in Hq. injection Hq as <- <-. split; [exact Hrest|exact Hvis].
Defined.

Lemma run_blocks_without_background_witness :
  run blank_render (λ _, Ok tt) (λ _, Ok 0%Q) (λ x : unit, Ok x) (λ x _, Ok x)
    (λ x : unit, Ok x) (λ x _, Ok x) (λ _, (640, 480)) (λ _ _ _ x _ _, Ok x)
    (blank_config 1 1) tt
    (mkFactoryState (mkDataset "bg" None None Queue_new)
       (mkDataset "out" None None Queue_new) 0 ∅)
  = None.
Proof.
  apply run_blocks_without_background.
  - simpl. lia.
  - reflexivity.
Defined.

Lemma run_without_samples_witness :
  run blank_render (λ _, Ok tt) (λ _, Ok 0%Q) (λ x : unit, Ok x) (λ x _, Ok x)
    (λ x : unit, Ok x) (λ x _, Ok x) (λ _, (640, 480)) (λ _ _ _ x _ _, Ok x)
    (blank_config 0 1) tt one_background
  = Some (report (blank_config 0 1) one_background, put_sentinel one_background)
  ∧ report (blank_config 0 1) one_background = Raise ZeroDivisionError.
Proof.
  pose proof (run_without_samples blank_render (λ _, Ok tt) (λ _, Ok 0%Q)
                (λ x : unit, Ok x) (λ x _, Ok x) (λ x : unit, Ok x) (λ x _, Ok x)
                (λ _, (640, 480)) (λ _ _ _ x _ _, Ok x) (blank_config 0 1) tt id
                one_background) as H.
  destruct H as (Hrun & _ & _ & Hzero & _).
  - simpl. lia.
  - split; [exact Hrun|]. apply Hzero. reflexivity.
Defined.

(** ** Persistence: what the workers do get right *)

Section PersistenceAccounts.

Context {Image : Type}.






End PersistenceAccounts.


(** ** Frame and pose matching *)

Section FramePoseProofs.

Context {T : Type}.

Lemma drop_cons_lookup {A} (l : list A) (i : nat) (x : A) (rest : list A) :
  drop i l = x :: rest → l !! i = Some x ∧ drop (S i) l = rest.
Proof.
  revert i. induction l as [|y l IH]; intros i.
  - by rewrite drop_nil.
  - destruct i as [|i]; simpl.
    + intros [= -> ->]. by rewrite drop_0.
    + apply IH.
Qed.

(** What the inner loop returns: the loop counter stands just after
    the first pose later than the image; the pose written is that one,
    or the one before it when that is at most 5 ms (less than
    6 000 000 ns) older than the image. *)
Lemma find_candidate_spec (ts : Z) (all : list (string * @PoseEntry T)) (i : nat)
    (items : list (string * @PoseEntry T)) (chosen : @PoseEntry T) (j : nat) :
  items = drop i all →
  (∀ k n p, (k < i)%nat → all !! k = Some (n, p) → stamp p ≤ ts) →
  find_candidate ts all i items = Some (chosen, j) →
  (i < j ≤ length all)%nat
  ∧ ∃ n p, all !! (j - 1)%nat = Some (n, p) ∧ ts < stamp p
           ∧ (chosen = p
              ∨ ∃ n', (1 < j)%nat ∧ all !! (j - 2)%nat = Some (n', chosen)
                      ∧ stamp chosen ≤ ts ∧ ts - stamp chosen < 6000000).
Proof.
  revert i. induction items as [|[name pose] rest IH]; intros i Hdrop Hold;
    cbn [find_candidate]; [done|].
  symmetry in Hdrop. apply drop_cons_lookup in Hdrop as [Hi Hrest].
  pose proof (lookup_lt_Some _ _ _ Hi) as Hlen.
  destruct (Z.ltb_spec ts (stamp pose)) as [Hnew|Hnot].
  - intros [= <- <-]. split; [lia|].
    exists name, pose. replace (S i - 1)%nat with i by lia.
    split; [done|]. split; [done|].
    destruct (Nat.ltb_spec 0 i) as [Hpos|]; [|by left].
    destruct (all !! (i - 1)%nat) as [[n' prev]|] eqn:Eprev; [|by left].
    destruct (Z.leb_spec ((ts - stamp prev) `div` 1000000) TIME_STAMP_MAX_DIFF)
      as [Hclose|]; [|by left].
    right. exists n'. replace (S i - 2)%nat with (i - 1)%nat by lia.
    split; [lia|]. split; [done|]. split.
    + apply (Hold (i - 1)%nat n' prev); [lia|done].
    + unfold TIME_STAMP_MAX_DIFF in Hclose.
      pose proof (Z.mul_succ_div_gt (ts - stamp prev) 1000000 ltac:(lia)). lia.
  - intros H. apply IH in H as (Hj & n & p & Hp & Hts & Hch).
    + split; [lia|]. by exists n, p.
    + by rewrite Hrest.
    + intros k n p Hk Hkp. destruct (decide (k = i)) as [->|].
      * rewrite Hi in Hkp. injection Hkp as <- <-. lia.
      * apply (Hold k n p); [lia|done].
Qed.

Lemma elem_of_sublist_singleton {A} (x : A) (l : list A) : x ∈ l → sublist [x] l.
Proof.
  intros Hx. apply list_elem_of_split in Hx as (l1 & l2 & ->).
  apply sublist_inserts_l. apply sublist_skip. apply sublist_nil_l.
Qed.

Lemma match_images_sublists (images : list (string * Z))
    (annotations : list (string * @PoseEntry T)) :
  sublist (match_images images annotations).*1 images.*1
  ∧ sublist (match_images images annotations).*2 annotations.*2.
Proof.
  revert annotations. induction images as [|[name ts] images IH];
    intros annotations; cbn [match_images].
  - split; [done|apply sublist_nil_l].
  - destruct (find_candidate ts annotations 0 annotations) as [[chosen j]|] eqn:E.
    + destruct (IH (drop j annotations)) as [IH1 IH2].
      rewrite !fmap_cons. simpl. split; [by apply sublist_skip|].
      apply find_candidate_spec in E as (Hj & n & p & Hp & _ & Hch);
        [|done|intros; lia].
      rewrite <- (take_drop j annotations) at 2. rewrite fmap_app.
      apply (sublist_app [chosen]); [|done].
      apply elem_of_sublist_singleton.
      assert (∀ k n0, (k < j)%nat → annotations !! k = Some (n0, chosen) →
                      chosen ∈ (take j annotations).*2) as Hin.
      { intros k n0 Hk Hlk. apply list_elem_of_fmap. exists (n0, chosen).
        split; [done|]. apply list_elem_of_lookup. exists k.
        by rewrite lookup_take_lt. }
      destruct Hch as [->|(n' & Hj1 & Hprev & _)].
      * apply (Hin (j - 1)%nat n); [lia|done].
      * apply (Hin (j - 2)%nat n'); [lia|done].
    + destruct (IH annotations) as [IH1 IH2]. rewrite fmap_cons. simpl.
      split; [by apply sublist_cons|done].
Qed.

Lemma match_images_timing (images : list (string * Z))
    (annotations : list (string * @PoseEntry T)) (name : string)
    (chosen : @PoseEntry T) :
  (name, chosen) ∈ match_images images annotations →
  ∃ ts, (name, ts) ∈ images
        ∧ (ts < stamp chosen
           ∨ (stamp chosen ≤ ts ∧ ts - stamp chosen < 6000000)).
Proof.
  revert annotations. induction images as [|[n ts] images IH];
    intros annotations; cbn [match_images].
  - intros H. by apply elem_of_nil in H.
  - destruct (find_candidate ts annotations 0 annotations) as [[c j]|] eqn:E.
    + intros H. apply elem_of_cons in H as [[= -> ->]|H].
      * exists ts. split; [apply elem_of_cons; by left|].
        apply find_candidate_spec in E as (_ & n' & p & _ & Hts & Hch);
          [|done|intros; lia].
        destruct Hch as [->|(_ & _ & _ & Hle & Hclose)]; [by left|by right].
      * apply IH in H as (ts' & Hin & Ht). exists ts'.
        split; [apply elem_of_cons; by right|done].
    + intros H. apply IH in H as (ts' & Hin & Ht). exists ts'.
      split; [apply elem_of_cons; by right|done].
Qed.

(** X21.  [_write_csv] needs two images: with fewer, deleting the
    first or the last key raises [IndexError].  Otherwise it writes at
    most one row per image other than the first and the last, for
    images in their order, and a pose is used for at most one row, the
    poses of the rows following the order of the pose stream. *)
Theorem write_csv_rows (images : list (string * Z))
    (annotations : list (string * @PoseEntry T)) :
  ((length images < 2)%nat → write_csv images annotations = Raise IndexError)
  ∧ (∀ first middle last,
       images = (first :: middle ++ [last])%list →
       ∃ rows, write_csv images annotations = Ok rows
               ∧ sublist rows.*1 middle.*1
               ∧ sublist rows.*2 annotations.*2
               ∧ (length rows ≤ length images - 2)%nat).
Proof.
  split.
  - intros Hlen. unfold write_csv, crop_images.
    destruct images as [|a [|b rest]]; try done. simpl in Hlen. lia.
  - intros first middle last ->. unfold write_csv, crop_images.
    destruct (middle ++ [last])%list as [|b rest] eqn:E.
    { by destruct middle. }
    rewrite <- E.
    replace (take (length (middle ++ [last]) - 1) (middle ++ [last])) with middle.
    2:{ rewrite length_app. simpl.
        replace (length middle + 1 - 1)%nat with (length middle) by lia.
        by rewrite take_app_length. }
    eexists. split; [done|].
    destruct (match_images_sublists middle annotations) as [H1 H2].
    split; [done|]. split; [done|].
    apply sublist_length in H1. rewrite !length_fmap in H1.
    simpl. rewrite length_app. simpl. lia.
Qed.

(** X22.  Every row [_write_csv] writes pairs an image with a pose
    that is either later than the image (the first such pose after
    those already passed) or not later and less than 6 ms older. *)
Theorem write_csv_timing (images : list (string * Z))
    (annotations : list (string * @PoseEntry T))
    (rows : list (string * @PoseEntry T)) (name : string)
    (chosen : @PoseEntry T) :
  write_csv images annotations = Ok rows →
  (name, chosen) ∈ rows →
  ∃ ts, (name, ts) ∈ images
        ∧ (ts < stamp chosen
           ∨ (stamp chosen ≤ ts ∧ ts - stamp chosen < 6000000)).
Proof.
  unfold write_csv, crop_images.
  destruct images as [|a [|b rest]]; try done.
  intros [= <-] Hin. apply match_images_timing in Hin as (ts & Hts & Ht).
  exists ts. split; [|done].
  apply elem_of_cons. right.
  by eapply subseteq_take.
Qed.

End FramePoseProofs.

Lemma write_csv_rows_witness :
  ∃ rows, write_csv demo_images demo_poses = Ok rows
          ∧ sublist rows.*1 ["f1"; "f2"]
          ∧ sublist rows.*2 demo_poses.*2
          ∧ (length rows ≤ 2)%nat.
Proof.
  apply (proj2 (write_csv_rows demo_images demo_poses) ("f0", 0)
           [("f1", 10000000); ("f2", 20000000)] ("f3", 30000000)).
  reflexivity.
Defined.

Lemma write_csv_timing_witness :
  ∃ ts, ("f1", ts) ∈ demo_images
        ∧ (ts < 6000000 ∨ (6000000 ≤ ts ∧ ts - 6000000 < 6000000)).
Proof.
  eapply (write_csv_timing demo_images demo_poses _ "f1"
            (mkPoseEntry 6000000 "p1" tt)).
  - vm_compute. reflexivity.
  - apply elem_of_cons. by left.
Defined.

(** ** Overlays *)

Lemma bind_Ok_inv {A B} (m : M A) (k : A → M B) (h h' : heap) (b : B) :
  bind m k h = (Ok b, h') → ∃ a h1, m h = (Ok a, h1) ∧ k a h1 = (Ok b, h').
Proof.
  unfold bind. destruct (m h) as [[a|e] h1]; [|done]. intros H. by exists a, h1.
Qed.

Lemma list_get_heap (l : loc) (i : nat) (h h' : heap) (r : result Z) :
  list_get l i h = (r, h') → h' = h.
Proof.
  unfold list_get. destruct (h !! l) as [[xs|?]|]; try (by intros [= _ <-]).
  destruct (xs !! i); by intros [= _ <-].
Qed.

Lemma coordinate_heap (l : loc) (k : string) (i : nat) (h h' : heap) (r : result Z) :
  coordinate l k i h = (r, h') → h' = h.
Proof.
  unfold coordinate, bind.
  destruct (dict_get l k h) as [[v|e] h1] eqn:E; apply dict_get_inv in E as [-> _].
  - destruct v; try (by intros [= _ <-]). apply list_get_heap.
  - by intros [= _ <-].
Qed.

Lemma draw_boxes_from_spec (i : nat) (bboxes : list loc) (closest_gate : option nat)
    (h h' : heap) (shapes : list shape) :
  draw_boxes_from i bboxes closest_gate h = (Ok shapes, h') →
  h' = h
  ∧ length shapes = length bboxes
  ∧ ∀ k s, shapes !! k = Some s →
      ∃ x0 y0 x1 y1,
        s = Rectangle x0 y0 x1 y1
              (if decide (closest_gate = Some (i + k)%nat) then Green else Yellow).
Proof.
  revert i shapes h'. induction bboxes as [|bbox rest IH]; intros i shapes h';
    cbn [draw_boxes_from].
  - intros [= <- <-]. split; [done|]. split; [done|]. intros k s Hk.
    by rewrite lookup_nil in Hk.
  - intros H.
    apply bind_Ok_inv in H as (x0 & h1 & E1 & H). apply coordinate_heap in E1 as ->.
    apply bind_Ok_inv in H as (y0 & h1 & E1 & H). apply coordinate_heap in E1 as ->.
    apply bind_Ok_inv in H as (x1 & h1 & E1 & H). apply coordinate_heap in E1 as ->.
    apply bind_Ok_inv in H as (y1 & h1 & E1 & H). apply coordinate_heap in E1 as ->.
    apply bind_Ok_inv in H as (ss & h1 & E1 & H).
    apply IH in E1 as (-> & Hlen & Hss). injection H as <- <-.
    split; [done|]. split; [simpl; by rewrite Hlen|].
    intros [|k] s Hk; simpl in Hk.
    + injection Hk as <-. exists x0, y0, x1, y1. f_equal.
      rewrite Nat.add_0_r. destruct closest_gate as [g|].
      * destruct (Nat.eqb_spec i g) as [->|Hne].
        -- by rewrite decide_True.
        -- rewrite decide_False; [done|]. by intros [= ->].
      * by rewrite decide_False.
    + destruct (Hss k s Hk) as (a & b & c & d & ->).
      exists a, b, c, d. by replace (i + S k)%nat with (S i + k)%nat by lia.
Qed.

(** X23.  A call of [draw_bounding_boxes] that completes has read the
    store without changing it and has drawn one rectangle per box, in
    the order of the list; the rectangle of the box at position
    [closest_gate] is green and every other one yellow, so at most one
    is green and none when [closest_gate] is [None] or out of range. *)
Theorem draw_bounding_boxes_colours (bboxes : list loc) (closest_gate : option nat)
    (h h' : heap) (shapes : list shape) :
  draw_bounding_boxes bboxes closest_gate h = (Ok shapes, h') →
  h' = h
  ∧ length shapes = length bboxes
  ∧ ∀ k s, shapes !! k = Some s →
      ∃ x0 y0 x1 y1,
        s = Rectangle x0 y0 x1 y1
              (if decide (closest_gate = Some k) then Green else Yellow).
Proof.
  unfold draw_bounding_boxes. intros H.
  apply draw_boxes_from_spec in H as (Hh & Hlen & Hshapes).
  split; [exact Hh|]. split; [exact Hlen|].
  intros k s Hk. exact (Hshapes k s Hk).
Qed.

Lemma draw_bounding_boxes_colours_witness :
  snd (draw_bounding_boxes [0%nat; 0%nat] (Some 1%nat) bbox_store) = bbox_store
  ∧ length [Rectangle 100 50 200 150 Yellow; Rectangle 100 50 200 150 Green]
    = 2%nat.
Proof.
  destruct (draw_bounding_boxes_colours [0%nat; 0%nat] (Some 1%nat) bbox_store
              (snd (draw_bounding_boxes [0%nat; 0%nat] (Some 1%nat) bbox_store))
              [Rectangle 100 50 200 150 Yellow; Rectangle 100 50 200 150 Green])
    as (Hh & Hlen & _).
  - vm_compute. reflexivity.
  - split; [exact Hh|exact Hlen].
Defined.

Lemma draw_gate_normal_spec (center normal_gt : value) (h h' : heap) (s : shape) :
  draw_gate_normal center normal_gt h = (Ok s, h') →
  h' = h ∧ ∃ x0 y0 x1 y1, s = Line x0 y0 x1 y1 Red.
Proof.
  unfold draw_gate_normal.
  destruct center as [| | | | |c]; try done.
  destruct normal_gt as [| | | | |n]; try done.
  intros H.
  apply bind_Ok_inv in H as (x0 & h1 & E1 & H). apply list_get_heap in E1 as ->.
  apply bind_Ok_inv in H as (y0 & h1 & E1 & H). apply list_get_heap in E1 as ->.
  apply bind_Ok_inv in H as (x1 & h1 & E1 & H). apply list_get_heap in E1 as ->.
  apply bind_Ok_inv in H as (y1 & h1 & E1 & H). apply list_get_heap in E1 as ->.
  injection H as <- <-. split; [done|]. by exists x0, y0, x1, y1.
Qed.

(** X24.  A call of [draw_normals] that completes has read the store
    without changing it and has drawn one red line for each box whose
    class is not 2, and none for a box of class 2. *)
Theorem draw_normals_gates_only (bboxes : list loc) (h h' : heap)
    (shapes : list shape) :
  draw_normals bboxes h = (Ok shapes, h') →
  h' = h
  ∧ length shapes = length (List.filter (is_gate h) bboxes)
  ∧ Forall (λ s, ∃ x0 y0 x1 y1, s = Line x0 y0 x1 y1 Red) shapes.
Proof.
  revert shapes h'. induction bboxes as [|bbox rest IH]; intros shapes h';
    cbn [draw_normals].
  - intros [= <- <-]. by repeat split.
  - intros H.
    apply bind_Ok_inv in H as (cid & h1 & E1 & H).
    apply dict_get_inv in E1 as [-> Hcid].
    destruct (Hcid cid eq_refl) as (kvs & Hb & Hc).
    assert (is_gate h bbox = negb (value_eqb_int cid 2)) as Hgate.
    { unfold is_gate. by rewrite Hb, Hc. }
    cbn [List.filter]. rewrite Hgate.
    destruct (negb (value_eqb_int cid 2)).
    + apply bind_Ok_inv in H as (n1 & h1 & E1 & H).
      apply dict_get_inv in E1 as [-> _].
      apply bind_Ok_inv in H as (o & h1 & E1 & H).
      apply subscript_inv in E1 as [-> _].
      apply bind_Ok_inv in H as (n2 & h1 & E1 & H).
      apply dict_get_inv in E1 as [-> _].
      apply bind_Ok_inv in H as (e & h1 & E1 & H).
      apply subscript_inv in E1 as [-> _].
      apply bind_Ok_inv in H as (line & h1 & E1 & H).
      apply draw_gate_normal_spec in E1 as [-> Hline].
      apply bind_Ok_inv in H as (ss & h1 & E1 & H).
      apply IH in E1 as (-> & Hlen & Hall). injection H as <- <-.
      split; [done|]. split; [simpl; by rewrite Hlen|]. by constructor.
    + by apply IH.
Qed.

Lemma draw_normals_gates_only_witness :
  snd (draw_normals [0%nat] plane_store) = plane_store
  ∧ length (@nil shape) = length (List.filter (is_gate plane_store) [0%nat]).
Proof.
  destruct (draw_normals_gates_only [0%nat] plane_store
              (snd (draw_normals [0%nat] plane_store)) [])
    as (Hh & Hlen & _).
  - vm_compute. reflexivity.
  - split; [exact Hh|exact Hlen].
Defined.

(** ** The length of the padded listing *)

Lemma pad_files_length (fs : filesystem) (dir ap : string) (count : Z)
    (draws : list nat) (files files' : list string) :
  pad_files fs dir ap count draws files = Some (Ok files') →
  Z.of_nat (length files') = Z.max (Z.of_nat (length files)) (count + 1).
Proof.
  revert files. induction draws as [|d draws IH]; intros files; cbn [pad_files].
  - destruct (Z.leb_spec (Z.of_nat (length files)) count).
    + by destruct files.
    + intros [= <-]. lia.
  - destruct (Z.leb_spec (Z.of_nat (length files)) count).
    2:{ intros [= <-]. lia. }
    destruct files as [|f0 files0] eqn:Efiles; [done|]. rewrite <- Efiles in *.
    destruct (files !! (d mod length files)%nat) as [choice|]; [|done].
    destruct (eligible fs dir ap choice).
    + intros H'. apply IH in H'. rewrite length_app in H'. simpl in H'. lia.
    + intros H'. apply IH in H'. lia.
Qed.

(** X25.  The listing [load] walks has exactly [count + 1] entries
    whenever the directory has no more than [count], and is the
    directory listing otherwise: the padding loop stops at the first
    length above [count]. *)
Theorem load_listing_length {F : Type} (float : string → option F)
    (image_size : string → option (Z * Z)) (fs : filesystem)
    (shuffle : list string → list string) (draws : list nat)
    (self : Dataset (@BackgroundImage F)) (count : Z) (ap : string)
    (r : @Loaded F) (entries : list string) :
  fs !! path self = Some (FDir entries) →
  load float image_size fs shuffle draws self count ap = Some (Ok r) →
  Z.of_nat (length (ld_files r))
  = Z.max (Z.of_nat (length (shuffle entries))) (count + 1).
Proof.
  intros Hdir. unfold load. rewrite Hdir.
  destruct (pad_files fs (path self) ap count draws (shuffle entries))
    as [[files|e]|] eqn:Epad; try done.
  destruct (parse_annotations float fs ap) as [ann|e]; [|done].
  destruct (stage image_size fs (path self) ap ann files _) as [st|e]; [|done].
  destruct (Queue_join (st_data st)); [|done].
  intros [= <-]. simpl. by apply pad_files_length in Epad.
Qed.

Lemma load_listing_length_witness :
  ∃ r, load numeral vga flat_fs id [0; 2; 0]%nat fresh_bg 5 "bg/annotations.csv"
       = Some (Ok r)
       ∧ Z.of_nat (length (ld_files r)) = Z.max 3 (5 + 1).
Proof.
  eexists. split; [vm_compute; reflexivity|].
  apply (load_listing_length numeral vga flat_fs id [0; 2; 0]%nat fresh_bg 5
           "bg/annotations.csv" _ ["a.png"; "annotations.csv"; "b.png"]).
  - vm_compute. reflexivity.
  - vm_compute. reflexivity.
Defined.
